(** * ChurchDirectoryMap: the church model, the geocoding services and the
      search view, embedded from [churches/models.py], [churches/services.py]
      and [churches/views.py].

    Conventions of the embedding

    - Python [str] is [string]; a character is a code point below 256.
    - A [Decimal] column and a JSON number are exact rationals ([Q]);
      [float(x)] of such a value is the value itself (binary rounding is not
      modelled).  The trigonometry of the distance calculator is carried out
      over the real numbers ([R]).
    - [None] is [None]; an absent dictionary key is [None] as well, and
      [d.get(k, default)] is [default_get].
    - An exception is a value of [Exception]; a function that may raise
      returns an [Except].
    - The cache, the count of HTTP requests issued and the trace of
      observable effects (requests, sleeps, cache reads and writes) form the
      [World] that the services thread through. *)

From Stdlib Require Import ZArith QArith Qround Reals Lra Lia List Bool.
From Stdlib Require Import Ascii String DecimalString.
From Stdlib Require Import Qabs Machin.
From Stdlib Require Lqa.
From stdpp Require Import gmap strings.

Import ListNotations.
Local Open Scope string_scope.
Local Open Scope list_scope.

(* ===================================================================== *)
(** * Python primitives used by the code *)
(* ===================================================================== *)

Module Py.

Inductive Exception : Type :=
| ValueError (msg : string)
| ValidationError (msg : string)
| MultipleObjectsReturned
| GeocodingError (msg : string).

Inductive Except (A : Type) : Type :=
| Return (a : A)
| Raise (e : Exception).
Arguments Return {A} a.
Arguments Raise {A} e.

Definition bind {A B : Type} (m : Except A) (k : A -> Except B) : Except B :=
  match m with
  | Return a => k a
  | Raise e => Raise e
  end.

#[export] Instance Except_ret : MRet Except := fun A a => Return a.
#[export] Instance Except_bind : MBind Except := fun A B k m => bind m k.

Definition default_get {A : Type} (v : option A) (default : A) : A :=
  match v with
  | Some a => a
  | None => default
  end.

(** [str.isspace] on one character: TAB..CR, FS..US, space, NEL, NBSP. *)
Definition isspace (c : ascii) : bool :=
  let n := nat_of_ascii c in
  ((9 <=? n) && (n <=? 13) || (28 <=? n) && (n <=? 32)
   || (n =? 133) || (n =? 160))%nat.

Fixpoint lstrip (s : string) : string :=
  match s with
  | EmptyString => EmptyString
  | String c s' => if isspace c then lstrip s' else s
  end.

Fixpoint rstrip (s : string) : string :=
  match s with
  | EmptyString => EmptyString
  | String c s' =>
      match rstrip s' with
      | EmptyString => if isspace c then EmptyString else String c EmptyString
      | r => String c r
      end
  end.

(** Every character of [s] is whitespace (so is the empty string). *)
Fixpoint all_isspace (s : string) : bool :=
  match s with
  | EmptyString => true
  | String c s' => isspace c && all_isspace s'
  end.

(** [s.strip()] *)
Definition strip (s : string) : string := rstrip (lstrip s).

(** Truth value of a [str]: non-empty. *)
Definition truthy (s : string) : bool :=
  match s with
  | EmptyString => false
  | String _ _ => true
  end.

(** [str.lower] on one character: A..Z, and the Latin-1 capitals. *)
Definition lower_char (c : ascii) : ascii :=
  let n := nat_of_ascii c in
  if ((65 <=? n) && (n <=? 90)
      || (192 <=? n) && (n <=? 222) && negb (n =? 215))%nat
  then ascii_of_nat (n + 32) else c.

Fixpoint lower (s : string) : string :=
  match s with
  | EmptyString => EmptyString
  | String c s' => String (lower_char c) (lower s')
  end.

(** [str(n)] of an [int]. *)
Definition str_int (z : Z) : string := NilZero.string_of_int (Z.to_int z).

(** [range(n)] *)
Definition range (n : Z) : list nat := seq 0 (Z.to_nat n).

(** [sub in s] *)
Fixpoint prefix_of (p s : string) : bool :=
  match p, s with
  | EmptyString, _ => true
  | String a p', String b s' => Ascii.eqb a b && prefix_of p' s'
  | String _ _, EmptyString => false
  end.

Fixpoint contains (s sub : string) : bool :=
  prefix_of sub s ||
  match s with
  | EmptyString => false
  | String _ s' => contains s' sub
  end.

(** [", ".join(parts)] *)
Fixpoint join (sep : string) (parts : list string) : string :=
  match parts with
  | [] => EmptyString
  | [p] => p
  | p :: rest => p +:+ sep +:+ join sep rest
  end.

End Py.


(* ===================================================================== *)
(** * churches/models.py *)
(* ===================================================================== *)

Module Models.
Import Py.

(** The columns of [Church].  [created_at] and [updated_at] are left out:
    no function below reads them. *)
Record Church : Type := mkChurch {
  id : option nat;
  name : string;
  street_address : string;
  city : string;
  state : string;
  zip_code : string;
  latitude : option Q;
  longitude : option Q;
  phone : string;
  website : string;
  email : string;
  service_times : string;
  geocoding_accuracy : string;
  is_active : bool
}.

(** The table of stored rows, in insertion order. *)
Definition DB : Type := list Church.

(** [settings.DATABASES['default']['ENGINE']] is
    ['django.db.backends.sqlite3'], which contains neither ['gis'] nor
    ['postgis']. *)
Definition db_engine : string := "django.db.backends.sqlite3".
Definition HAS_POSTGIS : bool :=
  contains db_engine "gis" || contains db_engine "postgis".

(** [float(x)] of a [Decimal] or of a number. *)
Definition float (x : Q) : Q := x.

Definition is_None {A : Type} (v : option A) : bool :=
  match v with
  | None => true
  | Some _ => false
  end.

(** [lo <= x <= hi] *)
Definition between (lo x hi : Q) : bool := Qle_bool lo x && Qle_bool x hi.

Definition raise_if (b : bool) (e : Exception) : Except unit :=
  if b then Raise e else Return tt.

Definition pair_error : Exception :=
  ValidationError
    "Both latitude and longitude must be provided together, or both left empty.".

(** [Church.clean] *)
Definition clean (self : Church) : Except unit :=
  raise_if (negb (Bool.eqb (is_None (latitude self)) (is_None (longitude self))))
    pair_error ;;
  raise_if
    (match latitude self with
     | Some la => negb (between (-90 # 1) (float la) (90 # 1))
     | None => false
     end)
    (ValidationError "Latitude must be between -90 and 90 degrees.") ;;
  raise_if
    (match longitude self with
     | Some lo => negb (between (-180 # 1) (float lo) (180 # 1))
     | None => false
     end)
    (ValidationError "Longitude must be between -180 and 180 degrees.") ;;
  raise_if (negb (truthy (strip (name self))))
    (ValidationError "Church name is required.") ;;
  raise_if (negb (truthy (strip (street_address self))))
    (ValidationError "Street address is required.") ;;
  raise_if (negb (truthy (strip (city self))))
    (ValidationError "City is required.") ;;
  raise_if (negb (truthy (strip (state self))))
    (ValidationError "State is required.").

(** [Church.full_address] *)
Definition full_address (self : Church) : string :=
  let address_parts :=
    [street_address self; city self; state self]
    ++ (if truthy (zip_code self) then [zip_code self] else []) in
  join ", " (map strip (List.filter (fun part => truthy (strip part)) address_parts)).

(** [Church.coordinates] *)
Definition coordinates (self : Church) : option (Q * Q) :=
  match latitude self, longitude self with
  | Some la, Some lo => Some (float la, float lo)
  | _, _ => None
  end.

(** [Church.has_coordinates] *)
Definition has_coordinates (self : Church) : bool :=
  negb (is_None (coordinates self)).

(** [math.radians] *)
Definition radians (x : R) : R := (x * (PI / 180))%R.

(** [Church._haversine_distance] *)
Definition _haversine_distance (lat1 lon1 lat2 lon2 : R) : R :=
  let lat1 := radians lat1 in
  let lon1 := radians lon1 in
  let lat2 := radians lat2 in
  let lon2 := radians lon2 in
  let dlat := (lat2 - lat1)%R in
  let dlon := (lon2 - lon1)%R in
  let a := ((sin (dlat / 2)) ^ 2
            + cos lat1 * cos lat2 * (sin (dlon / 2)) ^ 2)%R in
  let c := (2 * asin (sqrt a))%R in
  let r := 6371%R in
  (c * r)%R.

(** [Church.distance_to_point], on the branch without PostGIS. *)
Definition distance_to_point (self : Church) (latitude0 longitude0 : R)
  : option R :=
  match latitude self, longitude self with
  | Some la, Some lo =>
      Some (_haversine_distance (Q2R la) (Q2R lo) latitude0 longitude0)
  | _, _ => None
  end.

Definition Rle_bool (x y : R) : bool := if Rle_dec x y then true else false.

(** [column__range=(lo, hi)]: SQL BETWEEN, false on NULL. *)
Definition column_range (v : option Q) (lo hi : R) : bool :=
  match v with
  | Some x => Rle_bool lo (Q2R x) && Rle_bool (Q2R x) hi
  | None => false
  end.

(** [Church.find_nearby], on the branch without PostGIS: the bounding box. *)
Definition find_nearby (latitude0 longitude0 radius_km : R) (db : DB)
  : list Church :=
  let lat_delta := (radius_km / 111.32)%R in
  let lon_delta := (radius_km / (111.32 * cos (radians latitude0)))%R in
  List.filter
    (fun c =>
       column_range (latitude c)
         (latitude0 - lat_delta)%R (latitude0 + lat_delta)%R
       && column_range (longitude c)
            (longitude0 - lon_delta)%R (longitude0 + lon_delta)%R
       && is_active c)
    db.

(** Round to the nearest integer, ties to even ([ROUND_HALF_EVEN]). *)
Definition round_half_even (x : Q) : Z :=
  let f := Qfloor x in
  match Qcompare (x - inject_Z f) (1 # 2) with
  | Lt => f
  | Gt => (f + 1)%Z
  | Eq => if Z.even f then f else (f + 1)%Z
  end.

(** [Decimal(str(x)).quantize(Decimal('0.0000001'))] *)
Definition quantize7 (x : Q) : Q :=
  Qmake (round_half_even (x * (10000000 # 1))) 10000000.

Definition accuracy_levels : list string := ["high"; "medium"; "low"].

Definition str_in (s : string) (l : list string) : bool :=
  existsb (String.eqb s) l.

(** [Church.set_coordinates] *)
Definition set_coordinates (self : Church) (latitude0 longitude0 : Q)
  (accuracy : string) : Except Church :=
  raise_if (negb (between (-90 # 1) (float latitude0) (90 # 1)))
    (ValueError "Latitude must be between -90 and 90 degrees.") ;;
  raise_if (negb (between (-180 # 1) (float longitude0) (180 # 1)))
    (ValueError "Longitude must be between -180 and 180 degrees.") ;;
  raise_if (negb (str_in accuracy accuracy_levels))
    (ValueError "Accuracy must be 'high', 'medium', or 'low'.") ;;
  Return
    (mkChurch (id self) (name self) (street_address self) (city self)
       (state self) (zip_code self)
       (Some (quantize7 latitude0)) (Some (quantize7 longitude0))
       (phone self) (website self) (email self) (service_times self)
       accuracy (is_active self)).

(** [Church.__str__] *)
Definition __str__ (self : Church) : string :=
  name self +:+ " - " +:+ city self +:+ ", " +:+ state self.

(** [Church.distance_to], on the branch without PostGIS. *)
Definition distance_to (self other_church : Church) : option R :=
  if negb (has_coordinates self) || negb (has_coordinates other_church)
  then None
  else
    match latitude self, longitude self,
          latitude other_church, longitude other_church with
    | Some la1, Some lo1, Some la2, Some lo2 =>
        Some (_haversine_distance (Q2R la1) (Q2R lo1) (Q2R la2) (Q2R lo2))
    | _, _, _, _ => None
    end.

(** The coordinate pair is complete: both present or both absent. *)
Definition paired (c : Church) : Prop :=
  is_None (latitude c) = is_None (longitude c).

Definition paired_dec (c : Church) : {paired c} + {~ paired c} :=
  bool_dec (is_None (latitude c)) (is_None (longitude c)).

(** The invariant of the coordinate columns: absent together, or present
    together and inside their ranges. *)
Definition coordinate_invariant (c : Church) : Prop :=
  (latitude c = None /\ longitude c = None)
  \/ (exists la lo : Q,
        latitude c = Some la /\ longitude c = Some lo
        /\ ((-90 # 1) <= la <= (90 # 1))%Q
        /\ ((-180 # 1) <= lo <= (180 # 1))%Q).

(** Django's per-field validation ([Model.clean_fields]: lengths, choices,
    blank checks, URL and e-mail syntax, the decimal and range validators of
    the columns) is the framework's: [None] when every field passes, the
    message otherwise. *)
Class Django : Type := {
  clean_fields : Church -> option string
}.

(** The default ordering of the model, [ordering = ['state', 'city',
    'name']], applied to the rows a query selects.  The order among rows
    equal on the three columns is the database's; all a proof may use is
    that ordering rearranges the rows. *)
Class Ordering : Type := {
  order_by : list Church -> list Church;
  order_by_permutation : forall rows : list Church,
    Permutation (order_by rows) rows
}.

Section persistence.
Context `{Django}.

(** [Model.full_clean]: the field validators, then [clean].  The model has
    no unique column besides the key. *)
Definition full_clean (self : Church) : Except unit :=
  match clean_fields self with
  | Some msg => Raise (ValidationError msg)
  | None => clean self
  end.

Definition has_id (i : nat) (c : Church) : bool :=
  match id c with
  | Some j => Nat.eqb i j
  | None => false
  end.

Definition next_id (db : DB) : nat :=
  S (list_max (map (fun c => default_get (id c) 0%nat) db)).

Definition with_id (i : nat) (c : Church) : Church :=
  mkChurch (Some i) (name c) (street_address c) (city c) (state c)
    (zip_code c) (latitude c) (longitude c) (phone c) (website c) (email c)
    (service_times c) (geocoding_accuracy c) (is_active c).

(** [Model.save]: update the row with the same key, insert otherwise. *)
Definition store (self : Church) (db : DB) : Church * DB :=
  match id self with
  | Some i =>
      if existsb (has_id i) db
      then (self, map (fun r => if has_id i r then self else r) db)
      else (self, db ++ [self])
  | None =>
      let c := with_id (next_id db) self in
      (c, db ++ [c])
  end.

(** [Church.save]: with [HAS_POSTGIS] false there is no location to sync;
    [full_clean] runs before the row is written. *)
Definition save (self : Church) (db : DB) : Except (Church * DB) :=
  full_clean self ;; mret (store self db).

End persistence.

End Models.

(* ===================================================================== *)
(** * churches/services.py *)
(* ===================================================================== *)

Module Services.
Import Py Models.

(** ** The provider's reply *)

(** [feature['properties']]; an absent key is [None]. *)
Record Properties : Type := mkProperties {
  confidence : option Q;
  layer : option string;
  label : option string
}.

(** One entry of [data['features']]: [geometry.coordinates] (empty when
    absent) and [properties]. *)
Record Feature : Type := mkFeature {
  feature_coordinates : list Q;
  properties : Properties
}.

(** [data.get('features', [])] *)
Definition GeoJSON : Type := list Feature.

(** The object held by [e.response]: the truth value that
    [e.response and ...] tests, and its [status_code]. *)
Record ResponseObject : Type := mkResponse {
  truth_value : bool;
  status_code : Z
}.

(** What one pass through the [try] body meets: a decoded body, or the
    exception, named by the handler that catches it. *)
Inductive Outcome : Type :=
| Responds (data : GeoJSON)
| RaisesTimeout (msg : string)
| RaisesHTTPError (response : option ResponseObject) (msg : string)
| RaisesRequestException (msg : string)
| RaisesValueError (msg : string).

(** ** Results *)

(** The dictionary [geocode_address] returns. *)
Inductive GeocodeResult : Type :=
| Success (latitude0 longitude0 : Q) (accuracy formatted_address : string)
    (confidence0 : Q) (layer0 : string)
| Failure (error : option string).

Definition success (r : GeocodeResult) : bool :=
  match r with
  | Success _ _ _ _ _ _ => true
  | Failure _ => false
  end.

(** ** The world *)

Inductive Event : Type :=
| EvRequest (text country : string) (timeout : Z)
| EvSleep (seconds : Z)
| EvCacheGet (key : string)
| EvCacheSet (key : string) (ttl : Z).

Record World : Type := mkWorld {
  cache : gmap string GeocodeResult;
  requests : nat;
  trace : list Event
}.

(** What the code takes from its platform: the MD5 digest, the HTTP
    exchange (the [n]-th [session.get] with its [raise_for_status] and
    [json]), the configured API key, and the text of a number inside an
    f-string. *)
Class Runtime : Type := {
  md5_hexdigest : string -> string;
  session_get : nat -> string -> string -> Z -> Outcome;
  OPENROUTESERVICE_API_KEY : option string;
  str_float : Q -> string
}.

Definition DEFAULT_TIMEOUT : Z := 10.
Definition DEFAULT_RETRIES : Z := 3.
Definition DEFAULT_RETRY_DELAY : Z := 1.
Definition CACHE_TIMEOUT : Z := 86400 * 7.

(** [x or default] on an optional [int]. *)
Definition or_default (x : option Z) (default : Z) : Z :=
  match x with
  | Some z => if (z =? 0)%Z then default else z
  | None => default
  end.

Definition emit (ev : Event) (w : World) : World :=
  mkWorld (cache w) (requests w) (trace w ++ [ev]).

(** [time.sleep] *)
Definition sleep (seconds : Z) (w : World) : World := emit (EvSleep seconds) w.

(** [GeocodingService._determine_accuracy] *)
Definition _determine_accuracy (props : Properties) : string :=
  let confidence := default_get (confidence props) (0 # 1)%Q in
  let layer := lower (default_get (layer props) EmptyString) in
  if str_in layer ["address"; "venue"] && Qle_bool (8 # 10) confidence
  then "high"
  else if String.eqb layer "street" || Qle_bool (5 # 10) confidence
  then "medium"
  else "low".

(** The accuracy rule in the specification's words, applied to the layer
    tag exactly as it is given. *)
Definition spec_accuracy (layer0 : string) (confidence0 : Q) : string :=
  if (String.eqb layer0 "address" || String.eqb layer0 "venue")
     && Qle_bool (8 # 10) confidence0
  then "high"
  else if String.eqb layer0 "street" || Qle_bool (5 # 10) confidence0
  then "medium"
  else "low".

Section geocoding.
Context `{Runtime}.

(** [GeocodingService._parse_geocoding_response] *)
Definition _parse_geocoding_response (data : GeoJSON)
  (original_address : string) : GeocodeResult :=
  match data with
  | [] => Failure (Some "No results found for address")
  | feature :: _ =>
      match feature_coordinates feature with
      | longitude0 :: latitude0 :: _ =>
          if negb (between (-90 # 1) latitude0 (90 # 1))
             || negb (between (-180 # 1) longitude0 (180 # 1))
          then Failure (Some ("Invalid coordinate ranges: lat="
                              +:+ str_float latitude0 +:+ ", lon="
                              +:+ str_float longitude0))
          else
            let props := properties feature in
            Success (float latitude0) (float longitude0)
              (_determine_accuracy props)
              (default_get (label props) original_address)
              (default_get (confidence props) (0 # 1)%Q)
              (default_get (layer props) "unknown")
      | _ => Failure (Some "Invalid coordinates in response")
      end
  end.

(** [GeocodingService._get_cache_key] *)
Definition _get_cache_key (address country : string) : string :=
  "geocoding:" +:+ md5_hexdigest (strip (lower address) +:+ ":" +:+ lower country).

(** [GeocodingService._get_cached_result] *)
Definition _get_cached_result (address country : string) (w : World)
  : option GeocodeResult * World :=
  let cache_key := _get_cache_key address country in
  (cache w !! cache_key, emit (EvCacheGet cache_key) w).

(** [GeocodingService._cache_result] *)
Definition _cache_result (address country : string) (result : GeocodeResult)
  (w : World) : World :=
  let cache_key := _get_cache_key address country in
  emit (EvCacheSet cache_key CACHE_TIMEOUT)
    (mkWorld (<[cache_key := result]> (cache w)) (requests w) (trace w)).

(** The [try] body up to [response.json()]. *)
Definition http_get (address country : string) (timeout : Z) (w : World)
  : Outcome * World :=
  (session_get (requests w) address country timeout,
   mkWorld (cache w) (S (requests w))
     (trace w ++ [EvRequest address country timeout])).

(** [hasattr(e, 'response') and e.response and
     e.response.status_code == 429] *)
Definition is_rate_limit (response : option ResponseObject) : bool :=
  match response with
  | Some r => truth_value r && (status_code r =? 429)%Z
  | None => false
  end.

(** [e.response.status_code if hasattr(e, 'response') and e.response
     else 'unknown'], as the f-string prints it. *)
Definition status_text (response : option ResponseObject) : string :=
  match response with
  | Some r => if truth_value r then str_int (status_code r) else "unknown"
  | None => "unknown"
  end.

(** The wait at the foot of the loop body. *)
Definition wait_before_retry (attempt : nat) (retries : Z) (w : World)
  : World :=
  if (Z.of_nat attempt <? retries)%Z then sleep DEFAULT_RETRY_DELAY w else w.

(** How the [for] loop ends: a [return] from its body, or control reaching
    the statements after it (exhaustion or [break]) with [last_error]. *)
Inductive LoopExit : Type :=
| Returned (result : GeocodeResult)
| Fell (last_error : option string).

(** The loop [for attempt in range(retries + 1)] of [geocode_address]. *)
Fixpoint attempt_loop (address country : string) (timeout retries : Z)
  (use_cache : bool) (rng : list nat) (last_error : option string)
  (w : World) : LoopExit * World :=
  match rng with
  | [] => (Fell last_error, w)
  | attempt :: rest =>
      let (outcome, w1) := http_get address country timeout w in
      match outcome with
      | Responds data =>
          let result := _parse_geocoding_response data address in
          (Returned result,
           if success result && use_cache
           then _cache_result address country result w1
           else w1)
      | RaisesTimeout msg =>
          attempt_loop address country timeout retries use_cache rest
            (Some ("Request timeout: " +:+ msg))
            (wait_before_retry attempt retries w1)
      | RaisesHTTPError response msg =>
          if is_rate_limit response
          then
            if (Z.of_nat attempt <? retries)%Z
            then
              attempt_loop address country timeout retries use_cache rest
                (Some "Rate limit exceeded")
                (sleep (DEFAULT_RETRY_DELAY * (Z.of_nat attempt + 1)) w1)
            else
              attempt_loop address country timeout retries use_cache rest
                (Some "Rate limit exceeded")
                (wait_before_retry attempt retries w1)
          else
            (Fell (Some ("HTTP error " +:+ status_text response +:+ ": " +:+ msg)),
             w1)
      | RaisesRequestException msg =>
          attempt_loop address country timeout retries use_cache rest
            (Some ("Request error: " +:+ msg))
            (wait_before_retry attempt retries w1)
      | RaisesValueError msg =>
          (Fell (Some ("Response parsing error: " +:+ msg)), w1)
      end
  end.

(** [f"{last_error}"] *)
Definition str_last_error (last_error : option string) : string :=
  default_get last_error "None".

(** [GeocodingService.geocode_address] *)
Definition geocode_address (address country : string)
  (timeout retries : option Z) (use_cache : bool) (w : World)
  : GeocodeResult * World :=
  if negb (truthy address) || negb (truthy (strip address))
  then (Failure (Some "Address cannot be empty"), w)
  else
    let address := strip address in
    let timeout := or_default timeout DEFAULT_TIMEOUT in
    let retries := or_default retries DEFAULT_RETRIES in
    let (cached_result, w0) :=
      if use_cache then _get_cached_result address country w else (None, w) in
    match cached_result with
    | Some result => (result, w0)
    | None =>
        match attempt_loop address country timeout retries use_cache
                (range (retries + 1)) None w0 with
        | (Returned result, w1) => (result, w1)
        | (Fell last_error, w1) =>
            (Failure (Some ("Geocoding failed after " +:+ str_int (retries + 1)
                            +:+ " attempts: " +:+ str_last_error last_error)),
             w1)
        end
    end.

(** The events a call appended to the trace. *)
Definition events_since (w w' : World) : list Event :=
  drop (length (trace w)) (trace w').

(** Every request among [evs] was issued with timeout [t]. *)
Definition requests_use_timeout (t : Z) (evs : list Event) : Prop :=
  forall (text country : string) (t' : Z),
    In (EvRequest text country t') evs -> t' = t.

(** The [last_error] an outcome leaves when the loop goes on after it. *)
Definition cause (o : Outcome) : option string :=
  match o with
  | RaisesTimeout msg => Some ("Request timeout: " +:+ msg)
  | RaisesRequestException msg => Some ("Request error: " +:+ msg)
  | RaisesHTTPError response msg =>
      if is_rate_limit response then Some "Rate limit exceeded" else None
  | Responds _ => None
  | RaisesValueError _ => None
  end.

End geocoding.

(** ** ChurchDataService *)

(** [str(e)]; the rendering of a [ValidationError] is cut down to its
    message. *)
Definition str_exc (e : Exception) : string :=
  match e with
  | ValueError msg => msg
  | ValidationError msg => msg
  | MultipleObjectsReturned => "get() returned more than one Church"
  | GeocodingError msg => msg
  end.

Record GeocodingService : Type := mkGeocodingService {
  api_key : string
}.

Record ChurchDataService : Type := mkChurchDataService {
  geocoding_service : option GeocodingService
}.

(** The dictionary [geocode_church] returns; [skipped] is the presence of
    that key, [geocoded] the three keys of the successful case. *)
Record ChurchResult : Type := mkChurchResult {
  result_success : bool;
  message : string;
  skipped : bool;
  geocoded : option (Q * Q * string)
}.

(** One input dictionary of [import_church_data]; an absent key is [None]. *)
Record Row : Type := mkRow {
  row_name : option string;
  row_street_address : option string;
  row_city : option string;
  row_state : option string;
  row_zip_code : option string;
  row_phone : option string;
  row_website : option string;
  row_email : option string;
  row_service_times : option string;
  row_is_active : option bool
}.

Record FailedRecord : Type := mkFailedRecord {
  index : nat;
  data : Row;
  error : string
}.

(** The summary [import_church_data] returns. *)
Record ImportSummary : Type := mkImportSummary {
  import_success : bool;
  import_message : string;
  total : nat;
  created : nat;
  updated : nat;
  failed : nat;
  failed_records : list FailedRecord
}.

(** The locals of the import loop, and the table. *)
Record ImportState : Type := mkImportState {
  st_created : nat;
  st_updated : nat;
  st_failed : nat;
  st_failed_records : list FailedRecord;
  st_db : DB
}.

Section church_data.
Context `{Django} `{Runtime}.

(** [GeocodingService.__init__] *)
Definition GeocodingService_init (key : option string)
  : Except GeocodingService :=
  let key :=
    match key with
    | Some k => if truthy k then Some k else OPENROUTESERVICE_API_KEY
    | None => OPENROUTESERVICE_API_KEY
    end in
  match key with
  | Some k =>
      if truthy k then Return (mkGeocodingService k)
      else Raise (GeocodingError
        "OpenRouteService API key is required. Set OPENROUTESERVICE_API_KEY in settings.")
  | None =>
      Raise (GeocodingError
        "OpenRouteService API key is required. Set OPENROUTESERVICE_API_KEY in settings.")
  end.

(** [if not self.geocoding_service:
        self.geocoding_service = GeocodingService()] *)
Definition obtain_service (self : ChurchDataService)
  : Except GeocodingService :=
  match geocoding_service self with
  | Some s => mret s
  | None => GeocodingService_init None
  end.

Definition skipped_result : ChurchResult :=
  mkChurchResult true "Church already has coordinates" true None.

Definition failed_result (msg : string) : ChurchResult :=
  mkChurchResult false msg false None.

(** [ChurchDataService.geocode_church].  Returns the result, the service
    object, the church instance as the call leaves it, the table and the
    world. *)
Definition geocode_church (self : ChurchDataService) (church : Church)
  (force_update : bool) (db : DB) (w : World)
  : Except (ChurchResult * ChurchDataService * Church * DB * World) :=
  if has_coordinates church && negb force_update
  then mret (skipped_result, self, church, db, w)
  else
    service ← obtain_service self;
    let self := mkChurchDataService (Some service) in
    let (result, w1) :=
      geocode_address (full_address church) "US" None None true w in
    match result with
    | Success latitude0 longitude0 accuracy _ _ _ =>
        match set_coordinates church latitude0 longitude0 accuracy with
        | Raise e =>
            mret (failed_result ("Error saving coordinates: " +:+ str_exc e),
                  self, church, db, w1)
        | Return church1 =>
            match save church1 db with
            | Raise e =>
                mret (failed_result
                        ("Error saving coordinates: " +:+ str_exc e),
                      self, church1, db, w1)
            | Return (church2, db2) =>
                mret (mkChurchResult true
                        ("Successfully geocoded to (" +:+ str_float latitude0
                         +:+ ", " +:+ str_float longitude0 +:+ ")")
                        false (Some (latitude0, longitude0, accuracy)),
                      self, church2, db2, w1)
            end
        end
    | Failure error =>
        mret (failed_result
                ("Geocoding failed: " +:+ default_get error "Unknown error"),
              self, church, db, w1)
    end.

(** The stored rows equal to the lookup on the four key columns. *)
Definition lookup (name0 street_address0 city0 state0 : string) (db : DB)
  : list Church :=
  List.filter
    (fun c =>
       String.eqb (name c) name0
       && String.eqb (street_address c) street_address0
       && String.eqb (city c) city0 && String.eqb (state c) state0)
    db.

(** The instance [get_or_create] builds from the lookup and [defaults]. *)
Definition new_church (name0 street_address0 city0 state0 : string)
  (defaults : Row) : Church :=
  mkChurch None name0 street_address0 city0 state0
    (default_get (row_zip_code defaults) EmptyString)
    None None
    (default_get (row_phone defaults) EmptyString)
    (default_get (row_website defaults) EmptyString)
    (default_get (row_email defaults) EmptyString)
    (default_get (row_service_times defaults) EmptyString)
    "medium"
    (default_get (row_is_active defaults) true).

(** [Church.objects.get_or_create] on the four key columns. *)
Definition get_or_create (name0 street_address0 city0 state0 : string)
  (defaults : Row) (db : DB) : Except (Church * bool * DB) :=
  match lookup name0 street_address0 city0 state0 db with
  | [] =>
      '(church, db1) ←
        save (new_church name0 street_address0 city0 state0 defaults) db;
      mret (church, true, db1)
  | [church] => mret (church, false, db)
  | _ => Raise MultipleObjectsReturned
  end.

Definition record_failure (i : nat) (data0 : Row) (err : string)
  (st : ImportState) : ImportState :=
  mkImportState (st_created st) (st_updated st) (S (st_failed st))
    (st_failed_records st ++ [mkFailedRecord i data0 err])
    (st_db st).

(** The [try] block of the import loop, after the required-field check. *)
Definition upsert (name0 street_address0 city0 state0 : string) (data0 : Row)
  (st : ImportState) : Except ImportState :=
  '(church, was_created, db1) ←
    get_or_create name0 street_address0 city0 state0 data0 (st_db st);
  if (was_created : bool)
  then mret (mkImportState (S (st_created st)) (st_updated st) (st_failed st)
               (st_failed_records st) db1)
  else
    let church1 :=
      mkChurch (id church) (name church) (street_address church)
        (city church) (state church)
        (default_get (row_zip_code data0) (zip_code church))
        (latitude church) (longitude church)
        (default_get (row_phone data0) (phone church))
        (default_get (row_website data0) (website church))
        (default_get (row_email data0) (email church))
        (default_get (row_service_times data0) (service_times church))
        (geocoding_accuracy church)
        (default_get (row_is_active data0) (is_active church)) in
    '(_, db2) ← save church1 db1;
    mret (mkImportState (st_created st) (S (st_updated st)) (st_failed st)
            (st_failed_records st) db2).

(** The body of [for i, data in enumerate(church_data, 1)]. *)
Definition import_row (i : nat) (data0 : Row) (st : ImportState)
  : ImportState :=
  let name0 := strip (default_get (row_name data0) EmptyString) in
  let street_address0 := strip (default_get (row_street_address data0) EmptyString) in
  let city0 := strip (default_get (row_city data0) EmptyString) in
  let state0 := strip (default_get (row_state data0) EmptyString) in
  if negb (forallb truthy [name0; street_address0; city0; state0])
  then record_failure i data0
         "Missing required fields (name, street_address, city, state)" st
  else
    match upsert name0 street_address0 city0 state0 data0 st with
    | Return st1 => st1
    | Raise e => record_failure i data0 (str_exc e) st
    end.

Fixpoint import_loop (i : nat) (church_data : list Row) (st : ImportState)
  : ImportState :=
  match church_data with
  | [] => st
  | data0 :: rest => import_loop (S i) rest (import_row i data0 st)
  end.

Definition str_nat (n : nat) : string := str_int (Z.of_nat n).

(** [ChurchDataService.import_church_data] *)
Definition import_church_data (church_data : list Row) (db : DB)
  : ImportSummary * DB :=
  match church_data with
  | [] => (mkImportSummary false "No church data provided" 0 0 0 0 [], db)
  | _ :: _ =>
      let st := import_loop 1 church_data (mkImportState 0 0 0 [] db) in
      (mkImportSummary true
         ("Import completed: " +:+ str_nat (st_created st) +:+ " created, "
          +:+ str_nat (st_updated st) +:+ " updated, "
          +:+ str_nat (st_failed st) +:+ " failed")
         (length church_data) (st_created st) (st_updated st) (st_failed st)
         (st_failed_records st),
       st_db st)
  end.

(** The rows the loop has accounted for. *)
Definition processed (st : ImportState) : nat :=
  (st_created st + st_updated st + st_failed st)%nat.

(** A required field of the row is empty after trimming. *)
Definition missing_required (r : Row) : Prop :=
  strip (default_get (row_name r) EmptyString) = EmptyString
  \/ strip (default_get (row_street_address r) EmptyString) = EmptyString
  \/ strip (default_get (row_city r) EmptyString) = EmptyString
  \/ strip (default_get (row_state r) EmptyString) = EmptyString.

Definition missing_fields_error : string :=
  "Missing required fields (name, street_address, city, state)".

(** The church a row with all required fields stands for. *)
Definition church_of_row (r : Row) : Church :=
  new_church (strip (default_get (row_name r) EmptyString))
    (strip (default_get (row_street_address r) EmptyString))
    (strip (default_get (row_city r) EmptyString))
    (strip (default_get (row_state r) EmptyString)) r.

End church_data.

(** ** Vocabulary for the effects of a call *)

Definition is_cache_event (ev : Event) : bool :=
  match ev with
  | EvCacheGet _ => true
  | EvCacheSet _ _ => true
  | _ => false
  end.

Definition is_request (ev : Event) : bool :=
  match ev with
  | EvRequest _ _ _ => true
  | _ => false
  end.

(** No event of [evs] reads or writes the cache. *)
Definition no_cache_events (evs : list Event) : Prop :=
  forall ev : Event, In ev evs -> is_cache_event ev = false.

(** A timeout or a generic request error: the outcomes followed by the
    fixed wait. *)
Definition transient (o : Outcome) : bool :=
  match o with
  | RaisesTimeout _ => true
  | RaisesRequestException _ => true
  | _ => false
  end.

(** One request per attempt of [range(retries + 1)], each but the last
    followed by a wait of [DEFAULT_RETRY_DELAY] seconds. *)
Definition retry_schedule (request : Event) (retries : Z) (rng : list nat)
  : list Event :=
  flat_map
    (fun attempt =>
       request
       :: (if (Z.of_nat attempt <? retries)%Z
           then [EvSleep DEFAULT_RETRY_DELAY]
           else []))
    rng.

(** ** Bulk operations *)

(** A [time.sleep] of a fractional number of seconds taken by a bulk
    operation, with the length of the trace at the moment it is taken. *)
Definition Pause : Type := (nat * Q)%type.

Definition pause (seconds : Q) (w : World) (pauses : list Pause)
  : list Pause :=
  pauses ++ [(length (trace w), seconds)].

(** The summary [geocode_all_churches] returns; [summary_failed_churches]
    pairs [str(church)] with the error, and is [None] when the key is
    absent. *)
Record GeocodeSummary : Type := mkGeocodeSummary {
  summary_success : bool;
  summary_message : string;
  summary_total : nat;
  summary_successful : nat;
  summary_failed : nat;
  summary_skipped : nat;
  summary_failed_churches : option (list (string * string))
}.

(** The locals of the loop of [geocode_all_churches], with the service
    object, the table, the world and the pauses taken. *)
Record BulkState : Type := mkBulkState {
  bulk_successful : nat;
  bulk_failed : nat;
  bulk_skipped : nat;
  bulk_failed_churches : list (string * string);
  bulk_self : ChurchDataService;
  bulk_db : DB;
  bulk_world : World;
  bulk_pauses : list Pause
}.

Section bulk.
Context `{Django} `{Runtime} `{Ordering}.

(** The loop of [geocode_batch]; [count] is [len(addresses)]. *)
Fixpoint batch_loop (country : string) (delay_between_requests : Q)
  (count : nat) (i : nat) (addresses : list string)
  (results : list GeocodeResult) (w : World) (pauses : list Pause)
  : list GeocodeResult * World * list Pause :=
  match addresses with
  | [] => (results, w, pauses)
  | address :: rest =>
      let (result, w1) := geocode_address address country None None true w in
      batch_loop country delay_between_requests count (S i) rest
        (results ++ [result]) w1
        (if (Z.of_nat i <? Z.of_nat count - 1)%Z
            && negb (Qle_bool delay_between_requests 0)
         then pause delay_between_requests w1 pauses
         else pauses)
  end.

(** [GeocodingService.geocode_batch] *)
Definition geocode_batch (addresses : list string) (country : string)
  (delay_between_requests : Q) (w : World)
  : list GeocodeResult * World * list Pause :=
  batch_loop country delay_between_requests (length addresses) 0 addresses
    [] w [].

(** The rows the query of [geocode_all_churches] selects; [churches.count()]
    is their number. *)
Definition churches_to_geocode (force_update : bool) (db : DB)
  : list Church :=
  if force_update
  then List.filter is_active db
  else List.filter
         (fun c =>
            is_active c && is_None (latitude c) && is_None (longitude c))
         db.

(** The body of [for i, church in enumerate(churches, 1)]. *)
Definition geocode_step (force_update : bool) (total_churches : nat)
  (i : nat) (church : Church) (st : BulkState) : Except BulkState :=
  '(result, self1, _, db1, w1) ←
    geocode_church (bulk_self st) church force_update (bulk_db st)
      (bulk_world st);
  let pauses1 :=
    if (i <? total_churches)%nat
    then pause (1 # 10) w1 (bulk_pauses st)
    else bulk_pauses st in
  if result_success result
  then
    if skipped result
    then mret (mkBulkState (bulk_successful st) (bulk_failed st)
                 (S (bulk_skipped st)) (bulk_failed_churches st)
                 self1 db1 w1 pauses1)
    else mret (mkBulkState (S (bulk_successful st)) (bulk_failed st)
                 (bulk_skipped st) (bulk_failed_churches st)
                 self1 db1 w1 pauses1)
  else mret (mkBulkState (bulk_successful st) (S (bulk_failed st))
               (bulk_skipped st)
               (bulk_failed_churches st ++ [(__str__ church, message result)])
               self1 db1 w1 pauses1).

Fixpoint geocode_loop (force_update : bool) (total_churches : nat) (i : nat)
  (churches : list Church) (st : BulkState) : Except BulkState :=
  match churches with
  | [] => mret st
  | church :: rest =>
      st1 ← geocode_step force_update total_churches i church st;
      geocode_loop force_update total_churches (S i) rest st1
  end.

(** [ChurchDataService.geocode_all_churches] *)
Definition geocode_all_churches (self : ChurchDataService)
  (force_update : bool) (db : DB) (w : World)
  : Except (GeocodeSummary * BulkState) :=
  let churches := churches_to_geocode force_update db in
  let total_churches := length churches in
  if (total_churches =? 0)%nat
  then mret (mkGeocodeSummary true "No churches need geocoding" 0 0 0 0 None,
             mkBulkState 0 0 0 [] self db w [])
  else
    st ← geocode_loop force_update total_churches 1 (order_by churches)
           (mkBulkState 0 0 0 [] self db w []);
    mret (mkGeocodeSummary true
            ("Geocoding completed: " +:+ str_nat (bulk_successful st)
             +:+ " successful, " +:+ str_nat (bulk_failed st)
             +:+ " failed, " +:+ str_nat (bulk_skipped st) +:+ " skipped")
            total_churches (bulk_successful st) (bulk_failed st)
            (bulk_skipped st) (Some (bulk_failed_churches st)),
          st).

End bulk.


(** Every stored row has a key, and no two rows share one. *)
Definition well_keyed (db : DB) : Prop :=
  Forall (fun c => id c <> None) db /\ NoDup (map id db).

(** A result [set_coordinates] accepts: a failure, or a success whose
    coordinates are in range and whose accuracy is one of the levels. *)
Definition storable (r : GeocodeResult) : Prop :=
  match r with
  | Success latitude0 longitude0 accuracy _ _ _ =>
      ((-90 # 1) <= latitude0 <= (90 # 1))%Q
      /\ ((-180 # 1) <= longitude0 <= (180 # 1))%Q
      /\ In accuracy accuracy_levels
  | Failure _ => True
  end.

(** Every cached value is a storable success. *)
Definition cache_sound (w : World) : Prop :=
  forall (k : string) (v : GeocodeResult),
    cache w !! k = Some v -> success v = true /\ storable v.

(** [c'] is the row [c] with its key, its lookup columns, its coordinates
    and its accuracy as they were. *)
Definition same_place (c c' : Church) : Prop :=
  id c' = id c /\ name c' = name c
  /\ street_address c' = street_address c /\ city c' = city c
  /\ state c' = state c /\ latitude c' = latitude c
  /\ longitude c' = longitude c
  /\ geocoding_accuracy c' = geocoding_accuracy c.

(** [c'] agrees with [c] on the key and on every data column; the
    timestamps [created_at] and [updated_at], which a save rewrites, are
    not compared. *)
Definition same_columns (c c' : Church) : Prop :=
  same_place c c'
  /\ zip_code c' = zip_code c /\ phone c' = phone c
  /\ website c' = website c /\ email c' = email c
  /\ service_times c' = service_times c /\ is_active c' = is_active c.

(** A row without coordinates, at the default accuracy. *)
Definition unlocated (c : Church) : Prop :=
  latitude c = None /\ longitude c = None /\ geocoding_accuracy c = "medium".

End Services.

(* ===================================================================== *)
(** * churches/views.py *)
(* ===================================================================== *)

Module Views.
Import Py Models Services.

(** [request.query_params]; an absent parameter is [None]. *)
Record QueryParams : Type := mkQueryParams {
  q : option string;
  lat : option string;
  lng : option string;
  radius : option string
}.

(** The records of the view's logger. *)
Inductive LogRecord : Type :=
| InvalidCoordinates (lat0 lng0 : string)
| GeocodingFailed (query : string) (error : option string)
| GeocodingServiceError (query : string) (msg : string).

(** A church of the result with its [distance] attribute ([None] when the
    attribute is unset or holds [None]). *)
Definition Annotated : Type := (Church * option R)%type.

(** [float(s)] on a query string: [None] when it raises [ValueError]. *)
Class RequestParsing : Type := {
  float_of_str : string -> option Q
}.

(** The case folding of SQLite's [LIKE], the operator behind
    [icontains]: the letters A..Z only. *)
Definition like_fold_char (c : ascii) : ascii :=
  let n := nat_of_ascii c in
  if ((65 <=? n) && (n <=? 90))%nat then ascii_of_nat (n + 32) else c.

Fixpoint like_fold (s : string) : string :=
  match s with
  | EmptyString => EmptyString
  | String c s' => String (like_fold_char c) (like_fold s')
  end.

Section search.
Context `{Runtime} `{RequestParsing}.

(** [Q(column__icontains=query)]: [column LIKE '%query%'] with the
    wildcards of the query escaped. *)
Definition icontains (column query : string) : bool :=
  contains (like_fold column) (like_fold query).

(** [Church.find_nearby] followed by the loop that sets [church.distance]. *)
Definition nearby_with_distance (lat0 lng0 radius0 : R) (db : DB)
  : list Annotated :=
  map (fun church => (church, distance_to_point church lat0 lng0))
    (find_nearby lat0 lng0 radius0 db).

(** The text branch of [get_queryset]. *)
Definition text_search (query : string) (radius0 : R) (db : DB) (w : World)
  : list Annotated * list LogRecord * World :=
  let text_results :=
    List.filter
      (fun c =>
         is_active c
         && (icontains (name c) query || icontains (city c) query
             || icontains (state c) query
             || icontains (street_address c) query))
      db in
  match text_results with
  | _ :: _ => (map (fun c => (c, None)) text_results, [], w)
  | [] =>
      match GeocodingService_init None with
      | Raise e => ([], [GeocodingServiceError query (str_exc e)], w)
      | Return _ =>
          let (geocode_result, w1) :=
            geocode_address query "US" None None true w in
          match geocode_result with
          | Success lat0 lng0 _ _ _ _ =>
              (nearby_with_distance (Q2R lat0) (Q2R lng0) radius0 db, [], w1)
          | Failure error0 => ([], [GeocodingFailed query error0], w1)
          end
      end
  end.

(** Truth value of a query parameter: present and non-empty. *)
Definition given (v : option string) : bool :=
  match v with
  | Some s => truthy s
  | None => false
  end.

(** [radius = float(query_params.get('radius', 50))], 50 when that raises. *)
Definition parsed_radius (params : QueryParams) : Q :=
  match radius params with
  | Some s => default_get (float_of_str s) (50 # 1)%Q
  | None => (50 # 1)%Q
  end.

(** [ChurchSearchAPIView.get_queryset] *)
Definition get_queryset (params : QueryParams) (db : DB) (w : World)
  : list Annotated * list LogRecord * World :=
  let query := default_get (q params) EmptyString in
  let radius0 := parsed_radius params in
  if given (lat params) && given (lng params)
  then
    let lat0 := default_get (lat params) EmptyString in
    let lng0 := default_get (lng params) EmptyString in
    match float_of_str lat0, float_of_str lng0 with
    | Some lat1, Some lng1 =>
        (nearby_with_distance (Q2R lat1) (Q2R lng1) (Q2R radius0) db, [], w)
    | _, _ => ([], [InvalidCoordinates lat0 lng0], w)
    end
  else if truthy query then text_search query (Q2R radius0) db w
  else ([], [], w).

(** One of [lat], [lng] is absent or empty. *)
Definition incomplete_coordinates (params : QueryParams) : Prop :=
  lat params = None \/ lat params = Some EmptyString
  \/ lng params = None \/ lng params = Some EmptyString.

(** The bounding box of a search: within [radius0 / 111.32] degrees of the
    latitude and [radius0 / (111.32 cos lat0)] degrees of the longitude. *)
Definition in_bounding_box (lat0 lng0 radius0 : R) (la lo : Q) : Prop :=
  (lat0 - radius0 / 111.32 <= Q2R la <= lat0 + radius0 / 111.32)%R
  /\ (lng0 - radius0 / (111.32 * cos (radians lat0)) <= Q2R lo
      <= lng0 + radius0 / (111.32 * cos (radians lat0)))%R.

End search.

(** ** The list and map views *)

(** The query parameters of [ChurchListAPIView]. *)
Record ListParams : Type := mkListParams {
  state_param : option string;
  city_param : option string;
  has_coordinates_param : option string
}.

Section listing.
Context `{Ordering}.

(** [ChurchListAPIView.get_queryset]: the filters accumulate in one query,
    which is ordered when it is evaluated. *)
Definition ChurchListAPIView_get_queryset (params : ListParams) (db : DB)
  : list Church :=
  let queryset := fun c : Church => is_active c in
  let state0 := state_param params in
  let queryset :=
    if given state0
    then fun c : Church =>
           queryset c && icontains (state c) (default_get state0 EmptyString)
    else queryset in
  let city0 := city_param params in
  let queryset :=
    if given city0
    then fun c : Church =>
           queryset c && icontains (city c) (default_get city0 EmptyString)
    else queryset in
  let has_coordinates0 := has_coordinates_param params in
  let queryset :=
    if given has_coordinates0
       && String.eqb (lower (default_get has_coordinates0 EmptyString)) "true"
    then fun c : Church =>
           queryset c && negb (is_None (latitude c))
           && negb (is_None (longitude c))
    else queryset in
  order_by (List.filter queryset db).

(** [ChurchMapAPIView.get_queryset] *)
Definition ChurchMapAPIView_get_queryset (db : DB) : list Church :=
  order_by
    (List.filter
       (fun c : Church =>
          is_active c && negb (is_None (latitude c))
          && negb (is_None (longitude c)))
       db).

End listing.

(** ** The geocoding endpoint *)

(** A value of the request body: a string, or anything else JSON allows
    (null, a number, a boolean, a list, an object). *)
Inductive Json : Type :=
| JString (s : string)
| JOther.

(** [request.data]: a mapping with the keys [address] and [country]
    (absent is [None]), or a body that is no mapping. *)
Inductive RequestData : Type :=
| NotAMapping
| Mapping (address country : option Json).

(** The three shapes of the response body. *)
Inductive ResponseBody : Type :=
| ErrorBody (error : string)
| FailureBody (error : string)
| GeocodedBody (latitude longitude : Q) (accuracy formatted_address : string)
    (confidence : Q).

Record Response : Type := mkApiResponse {
  status : Z;
  body : ResponseBody
}.

(** The [except Exception] handler. *)
Definition internal_server_error : Response :=
  mkApiResponse 500 (ErrorBody "Internal server error").

Section endpoints.
Context `{Runtime}.

(** The body of [geocoding_api], once the throttle has let the request
    through.  A value that is no string has neither [strip] nor [lower]:
    the [AttributeError] is caught by the handler, for the address at once,
    for the country when the cache key is computed. *)
Definition geocoding_api (data : RequestData) (w : World)
  : Response * World :=
  match data with
  | NotAMapping => (internal_server_error, w)
  | Mapping address0 country0 =>
      match default_get address0 (JString EmptyString) with
      | JOther => (internal_server_error, w)
      | JString a =>
          let address := strip a in
          let country := default_get country0 (JString "US") in
          if negb (truthy address)
          then (mkApiResponse 400 (ErrorBody "Address is required"), w)
          else
            match GeocodingService_init None with
            | Raise _ => (internal_server_error, w)
            | Return _ =>
                match country with
                | JOther => (internal_server_error, w)
                | JString country =>
                    let (result, w1) :=
                      geocode_address address country None None true w in
                    match result with
                    | Success latitude0 longitude0 accuracy formatted_address0
                        confidence0 _ =>
                        (mkApiResponse 200
                           (GeocodedBody latitude0 longitude0 accuracy
                              formatted_address0 confidence0),
                         w1)
                    | Failure (Some error0) =>
                        (mkApiResponse 400 (FailureBody error0), w1)
                    | Failure None => (internal_server_error, w1)
                    end
                end
            end
      end
  end.

End endpoints.

End Views.

(* ===================================================================== *)
(** * Sample environments and data *)
(* ===================================================================== *)

Module Samples.
Import Py Models Services Views.

(** Field validation that accepts every record. *)
Definition permissive : Django := {| clean_fields := fun _ => None |}.

(** A platform whose [n]-th HTTP exchange is [script n]. *)
Definition scripted (script : nat -> Outcome) : Runtime :=
  {| md5_hexdigest := fun s => s;
     session_get := fun n _ _ _ => script n;
     OPENROUTESERVICE_API_KEY := Some "test_api_key_12345";
     str_float := fun _ => "?" |}.

(** The same platform with no [OPENROUTESERVICE_API_KEY] in the settings. *)
Definition without_key (script : nat -> Outcome) : Runtime :=
  {| md5_hexdigest := fun s => s;
     session_get := fun n _ _ _ => script n;
     OPENROUTESERVICE_API_KEY := None;
     str_float := fun _ => "?" |}.

Definition empty_world : World := mkWorld ∅ 0 [].

(** The error [raise_for_status] raises for a 429 reply: its [response] is
    the reply itself, whose truth value is that of [ok], false from status
    400 on. *)
Definition too_many_requests : Outcome :=
  RaisesHTTPError (Some (mkResponse false 429))
    "429 Client Error: Too Many Requests".

(** The same error carrying a stand-in response whose truth value is
    true, as the test suite builds it. *)
Definition too_many_requests_double : Outcome :=
  RaisesHTTPError (Some (mkResponse true 429)) EmptyString.

Definition new_york_reply : Outcome :=
  Responds
    [mkFeature [(-740060 # 10000)%Q; (407128 # 10000)%Q]
       (mkProperties (Some (9 # 10)%Q) (Some "address")
          (Some "123 Main St, New York, NY, USA"))].

(** First a rate-limit error, then a successful reply. *)
Definition rate_limit_then_reply (n : nat) : Outcome :=
  match n with
  | O => too_many_requests
  | S _ => new_york_reply
  end.

Definition double_then_reply (n : nat) : Outcome :=
  match n with
  | O => too_many_requests_double
  | S _ => new_york_reply
  end.

Definition always_timeout (n : nat) : Outcome :=
  RaisesTimeout "Request timed out".

(** [float] on the three literals of the sample search. *)
Definition sample_parsing : RequestParsing :=
  {| float_of_str := fun s =>
       if String.eqb s "40.7128" then Some (407128 # 10000)%Q
       else if String.eqb s "-74.0060" then Some (-740060 # 10000)%Q
       else if String.eqb s "10" then Some (10 # 1)%Q
       else None |}.

(** [?lat=40.7128&lng=-74.0060&radius=10] *)
Definition sample_search : QueryParams :=
  mkQueryParams None (Some "40.7128") (Some "-74.0060") (Some "10").

(** A stored church at 40.8026, -73.9162: inside the 10 km bounding box
    around 40.7128, -74.0060, towards its north-east corner. *)
Definition corner_church : Church :=
  mkChurch (Some 1%nat) "Corner Church" "1 Corner St" "Fort Lee" "NJ" EmptyString
    (Some (408026 # 10000)%Q) (Some (-739162 # 10000)%Q)
    EmptyString EmptyString EmptyString EmptyString "medium" true.

(** A record with a latitude and no longitude. *)
Definition lone_latitude_church : Church :=
  mkChurch None "Test Church" "123 Main St" "Test City" "Test State" "12345"
    (Some (407128 # 10000)%Q) None
    EmptyString EmptyString EmptyString EmptyString "medium" true.

(** A record without coordinates. *)
Definition unlocated_church : Church :=
  mkChurch (Some 2%nat) "Test Church" "123 Nonexistent St" "Nowhere" "NoState"
    EmptyString None None EmptyString EmptyString EmptyString EmptyString "medium" true.

Definition valid_row : Row :=
  mkRow (Some "Valid Church") (Some "123 Main St") (Some "Test City")
    (Some "Test State") None None None None None None.

Definition empty_name_row : Row :=
  mkRow (Some EmptyString) (Some "456 Oak Ave") (Some "Test City")
    (Some "Test State") None None None None None None.

(** A stored church at 40.80268, -74.0060: due north of 40.7128, -74.0060,
    0.08988 degrees away. *)
Definition north_church : Church :=
  mkChurch (Some 3%nat) "North Church" "1 North St" "Union City" "NJ"
    EmptyString
    (Some (4080268 # 100000)%Q) (Some (-740060 # 10000)%Q)
    EmptyString EmptyString EmptyString EmptyString "medium" true.

(** A database that orders by the bytes of state, city and name and keeps
    rows equal on all three in table order. *)
Definition location_leb (a b : Church) : bool :=
  match String.compare (state a) (state b) with
  | Lt => true
  | Gt => false
  | Eq =>
      match String.compare (city a) (city b) with
      | Lt => true
      | Gt => false
      | Eq =>
          match String.compare (name a) (name b) with
          | Gt => false
          | _ => true
          end
      end
  end.

Fixpoint insert_by_location (c : Church) (rows : list Church)
  : list Church :=
  match rows with
  | [] => [c]
  | r :: rest =>
      if location_leb c r then c :: rows
      else r :: insert_by_location c rest
  end.

Definition sort_by_location (rows : list Church) : list Church :=
  fold_right insert_by_location [] rows.

Definition by_location : Ordering.
Proof.
  refine {| order_by := sort_by_location |}.
  assert (Hins : forall (rows : list Church) (c : Church),
            Permutation (insert_by_location c rows) (c :: rows)).
  { induction rows as [| r rest IH]; intros c; simpl.
    - apply Permutation_refl.
    - destruct (location_leb c r); [apply Permutation_refl |].
      eapply Permutation_trans;
        [apply perm_skip, IH | apply Permutation_swap]. }
  induction rows as [| r rest IH]; simpl; [apply Permutation_refl |].
  eapply Permutation_trans; [apply Hins | apply perm_skip, IH].
Defined.

End Samples.

(* ===================================================================== *)
(** * Properties of the model *)
(* ===================================================================== *)

Module PySpec.
Import Py.

Lemma lstrip_head (s : string) :
  lstrip s = EmptyString \/ exists c t, lstrip s = String c t /\ isspace c = false.
Proof.
  induction s as [| c s IH]; simpl; [left; reflexivity |].
  destruct (isspace c) eqn:Hc; [exact IH |].
  right. exists c, s. split; [reflexivity | exact Hc].
Qed.

Lemma rstrip_idempotent (s : string) : rstrip (rstrip s) = rstrip s.
Proof.
  induction s as [| c s IH]; simpl; [reflexivity |].
  destruct (rstrip s) as [| d r] eqn:Hr.
  - destruct (isspace c) eqn:Hc; simpl; [reflexivity |].
    rewrite Hc. reflexivity.
  - change (rstrip (String c (String d r)))
      with (match rstrip (String d r) with
            | EmptyString =>
                if isspace c then EmptyString else String c EmptyString
            | String a b => String c (String a b)
            end).
    rewrite IH. reflexivity.
Qed.

Lemma rstrip_keeps_head (c : ascii) (t : string) :
  isspace c = false -> exists r, rstrip (String c t) = String c r.
Proof.
  intros Hc. simpl. destruct (rstrip t) as [| d r].
  - rewrite Hc. eexists. reflexivity.
  - eexists. reflexivity.
Qed.

(** Trimming a trimmed string changes nothing. *)
Lemma strip_idempotent (s : string) : strip (strip s) = strip s.
Proof.
  unfold strip.
  destruct (lstrip_head s) as [He | (c & t & He & Hc)]; rewrite He.
  - reflexivity.
  - destruct (rstrip_keeps_head c t Hc) as (r & Hr).
    rewrite Hr. simpl lstrip. rewrite Hc. rewrite <- Hr.
    apply rstrip_idempotent.
Qed.

Lemma truthy_false (s : string) : truthy s = false <-> s = EmptyString.
Proof. destruct s; simpl; split; intros; congruence. Qed.

End PySpec.

Module ModelsSpec.
Import Py Models Samples.

Local Open Scope R_scope.

Lemma sin_half_sqr_opp (x : R) : sin (- x / 2) ^ 2 = sin (x / 2) ^ 2.
Proof.
  replace (- x / 2) with (- (x / 2)) by lra.
  rewrite sin_neg. lra.
Qed.

(** C8.  The great-circle distance, computed with Earth radius 6371 km, does
    not depend on the order of its two points, and the distance from a
    point to itself is 0. *)
Theorem haversine_symmetric_and_zero_on_diagonal :
  (forall lat1 lon1 lat2 lon2 : R,
      _haversine_distance lat1 lon1 lat2 lon2
      = _haversine_distance lat2 lon2 lat1 lon1)
  /\ (forall lat0 lon0 : R, _haversine_distance lat0 lon0 lat0 lon0 = 0)
  /\ (forall lat1 lon1 lat2 lon2 : R,
         _haversine_distance lat1 lon1 lat2 lon2 <= PI * 6371).
Proof.
  split; [| split].
  - intros lat1 lon1 lat2 lon2. unfold _haversine_distance. cbv zeta.
    replace (radians lat1 - radians lat2)
      with (- (radians lat2 - radians lat1)) by lra.
    replace (radians lon1 - radians lon2)
      with (- (radians lon2 - radians lon1)) by lra.
    rewrite !sin_half_sqr_opp.
    rewrite (Rmult_comm (cos (radians lat2)) (cos (radians lat1))).
    reflexivity.
  - intros lat0 lon0. unfold _haversine_distance. cbv zeta.
    replace ((radians lat0 - radians lat0) / 2) with 0 by lra.
    replace ((radians lon0 - radians lon0) / 2) with 0 by lra.
    rewrite sin_0.
    replace (0 ^ 2 + cos (radians lat0) * cos (radians lat0) * 0 ^ 2)
      with 0 by lra.
    rewrite sqrt_0, asin_0. lra.
  - intros. unfold _haversine_distance. cbv zeta.
    match goal with |- 2 * asin ?x * _ <= _ => pose proof (asin_bound x) end.
    lra.
Qed.

Section validation.
Context `{Django}.

Ltac run_checks :=
  repeat match goal with
         | |- context [raise_if ?b _] => destruct b eqn:?; simpl
         end.

Lemma clean_pair_error_iff (c : Church) :
  clean c = Raise pair_error <-> ~ paired c.
Proof.
  unfold clean, paired, pair_error.
  destruct (latitude c), (longitude c); simpl;
    unfold mbind, Except_bind; simpl; run_checks;
    split; intros; try discriminate; try congruence; try reflexivity.
Qed.

Lemma clean_ok_invariant (c : Church) :
  clean c = Return tt -> coordinate_invariant c.
Proof.
  unfold clean, coordinate_invariant, float.
  destruct (latitude c) as [la|], (longitude c) as [lo|]; simpl;
    unfold mbind, Except_bind; simpl; try discriminate.
  - destruct (between (-90 # 1) la (90 # 1)) eqn:Hla; simpl;
      [| discriminate].
    destruct (between (-180 # 1) lo (180 # 1)) eqn:Hlo; simpl;
      [| discriminate].
    intros _. right. exists la, lo.
    unfold between in Hla, Hlo.
    apply andb_prop in Hla as [? ?]. apply andb_prop in Hlo as [? ?].
    repeat split; try reflexivity; apply Qle_bool_iff; assumption.
  - intros _. left. split; reflexivity.
Qed.

Lemma save_ok_clean (c c' : Church) (db db' : DB) :
  save c db = Return (c', db') ->
  clean c = Return tt /\ (c', db') = store c db.
Proof.
  unfold save, full_clean.
  destruct (clean_fields c); simpl; [discriminate |].
  unfold mbind, Except_bind, mret, Except_ret.
  destruct (clean c) as [[]|e]; simpl; [| discriminate].
  intros [= Hst]. split; [reflexivity |]. symmetry. exact Hst.
Qed.

Lemma invariant_with_id (i : nat) (c : Church) :
  coordinate_invariant c -> coordinate_invariant (with_id i c).
Proof. intros Hc. exact Hc. Qed.

Lemma store_invariant (c : Church) (db : DB) :
  coordinate_invariant c ->
  coordinate_invariant (fst (store c db))
  /\ In (fst (store c db)) (snd (store c db))
  /\ (Forall coordinate_invariant db ->
      Forall coordinate_invariant (snd (store c db))).
Proof.
  intros Hc. unfold store.
  destruct (id c) as [i|] eqn:Hid.
  - destruct (existsb (has_id i) db) eqn:Hex; simpl.
    + split; [exact Hc |]. split.
      * apply existsb_exists in Hex as (r & Hr & Hri).
        apply in_map_iff. exists r. rewrite Hri. split; [reflexivity | exact Hr].
      * intros Hdb. apply List.Forall_forall. intros x Hx.
        apply in_map_iff in Hx as (r & <- & Hr).
        destruct (has_id i r); [exact Hc |].
        rewrite List.Forall_forall in Hdb. apply Hdb, Hr.
    + split; [exact Hc |]. split.
      * apply in_or_app. right. left. reflexivity.
      * intros Hdb. apply List.Forall_app. split; [exact Hdb |].
        constructor; [exact Hc | constructor].
  - simpl. split; [apply invariant_with_id, Hc |]. split.
    + apply in_or_app. right. left. reflexivity.
    + intros Hdb. apply List.Forall_app. split; [exact Hdb |].
      constructor; [apply invariant_with_id, Hc | constructor].
Qed.

Lemma clean_accepts (c : Church) :
  coordinate_invariant c ->
  truthy (strip (name c)) = true ->
  truthy (strip (street_address c)) = true ->
  truthy (strip (city c)) = true ->
  truthy (strip (state c)) = true ->
  clean c = Return tt.
Proof.
  intros Hinv Hn Hs Hc Hst. unfold clean, float.
  destruct Hinv as [[Hla Hlo] | (la & lo & Hla & Hlo & Hra & Hro)];
    rewrite Hla, Hlo; simpl; unfold mbind, Except_bind; simpl.
  - rewrite Hn, Hs, Hc, Hst. reflexivity.
  - unfold between.
    destruct Hra as [Hr1 Hr2]. destruct Hro as [Hr3 Hr4].
    apply Qle_bool_iff in Hr1, Hr2, Hr3, Hr4.
    rewrite Hr1, Hr2, Hr3, Hr4. simpl.
    rewrite Hn, Hs, Hc, Hst. reflexivity.
Qed.

(** C4.  [clean] lets the coordinate pair through exactly when latitude and
    longitude are both present or both absent; with only one of them the
    record fails [clean], [full_clean] and [save]; with both absent, or both
    present and in range, and the four required fields non-blank, [clean]
    passes; and a [save] that succeeds stores a record whose pair is absent
    or present within -90..90 and -180..180, and keeps that true of every
    stored row. *)
Theorem clean_coordinate_pair_invariant :
  (forall c : Church, clean c <> Raise pair_error <-> paired c)
  /\ (forall c : Church, ~ paired c ->
        clean c = Raise pair_error
        /\ full_clean c <> Return tt
        /\ forall db : DB, exists e, save c db = Raise e)
  /\ (forall c : Church,
        coordinate_invariant c ->
        truthy (strip (name c)) = true ->
        truthy (strip (street_address c)) = true ->
        truthy (strip (city c)) = true ->
        truthy (strip (state c)) = true ->
        clean c = Return tt)
  /\ (forall (c c' : Church) (db db' : DB),
        save c db = Return (c', db') ->
        coordinate_invariant c'
        /\ In c' db'
        /\ (Forall coordinate_invariant db -> Forall coordinate_invariant db')).
Proof.
  split; [| split; [| split]].
  - intros c. split.
    + intros Hne. destruct (paired_dec c) as [Hp|Hp]; [exact Hp |].
      exfalso. apply Hne. apply clean_pair_error_iff. exact Hp.
    + intros Hp Hc. apply clean_pair_error_iff in Hc. contradiction.
  - intros c Hp. apply clean_pair_error_iff in Hp as Hc.
    split; [exact Hc |]. split.
    + unfold full_clean. destruct (clean_fields c); [discriminate |].
      rewrite Hc. discriminate.
    + intros db. unfold save, full_clean.
      destruct (clean_fields c); simpl; [eexists; reflexivity |].
      rewrite Hc. eexists. reflexivity.
  - intros c Hinv Hn Hs Hc Hst. apply clean_accepts; assumption.
  - intros c c' db db' Hsave.
    apply save_ok_clean in Hsave as [Hclean Hstore].
    apply clean_ok_invariant in Hclean.
    pose proof (store_invariant c db Hclean) as Hst.
    rewrite <- Hstore in Hst. exact Hst.
Qed.

End validation.

Lemma no_postgis : HAS_POSTGIS = false.
Proof. reflexivity. Qed.

Lemma clean_coordinate_pair_invariant_witness :
  (~ paired lone_latitude_church
   /\ clean lone_latitude_church = Raise pair_error)
  /\ (@save permissive corner_church [] = Return (corner_church, [corner_church])
      /\ coordinate_invariant corner_church).
Proof.
  destruct (@clean_coordinate_pair_invariant permissive)
    as (_ & Hone & _ & Hsave).
  assert (Hp : ~ paired lone_latitude_church)
    by (unfold paired; simpl; discriminate).
  assert (Hs : @save permissive corner_church []
               = Return (corner_church, [corner_church]))
    by reflexivity.
  split.
  - split; [exact Hp | exact (proj1 (Hone lone_latitude_church Hp))].
  - split; [exact Hs | exact (proj1 (Hsave _ _ _ _ Hs))].
Defined.

End ModelsSpec.

Module ServicesSpec.
Import Py Models Services Samples.

(** ** Accuracy classification *)

Lemma str_in_two (s a b : string) :
  str_in s [a; b] = String.eqb s a || String.eqb s b.
Proof. unfold str_in. simpl. rewrite orb_false_r. reflexivity. Qed.

Lemma determine_accuracy_lowercased (l : string) (c : Q) (lbl : option string) :
  _determine_accuracy (mkProperties (Some c) (Some l) lbl)
  = spec_accuracy (lower l) c.
Proof.
  unfold _determine_accuracy, spec_accuracy. cbn [default_get confidence layer].
  rewrite str_in_two. reflexivity.
Qed.

(** C1, as stated, fails: the layer tag is lowercased before it is
    compared, so ["Address"] with confidence 0.9 is classified ["high"],
    where the rule applied to the tag as given yields ["medium"]. *)
Lemma determine_accuracy_mixed_case_layer :
  ~ (forall (l : string) (c : Q) (lbl : option string),
        _determine_accuracy (mkProperties (Some c) (Some l) lbl)
        = spec_accuracy l c).
Proof.
  intros Hall. specialize (Hall "Address" (9 # 10)%Q None).
  vm_compute in Hall. discriminate.
Qed.

(** C1, amended.  On the lowercased layer tag: ["high"] when the tag is
    ["address"] or ["venue"] and the confidence is at least 0.8; otherwise
    ["medium"] when the tag is ["street"] or the confidence is at least 0.5;
    otherwise ["low"].  The high tier is tried first: a venue with
    confidence exactly 0.8 is ["high"]. *)
Theorem determine_accuracy_tiers
  (l : string) (c : Q) (lbl : option string) :
  let r := _determine_accuracy (mkProperties (Some c) (Some l) lbl) in
  let high_tier :=
    (lower l = "address" \/ lower l = "venue") /\ ((8 # 10) <= c)%Q in
  let medium_tier := lower l = "street" \/ ((5 # 10) <= c)%Q in
  (high_tier -> r = "high")
  /\ (~ high_tier -> medium_tier -> r = "medium")
  /\ (~ high_tier -> ~ medium_tier -> r = "low")
  /\ _determine_accuracy
       (mkProperties (Some (8 # 10)%Q) (Some "venue") lbl) = "high".
Proof.
  cbv zeta. rewrite determine_accuracy_lowercased. unfold spec_accuracy.
  assert (Ha : String.eqb (lower l) "address" = true <-> lower l = "address")
    by apply String.eqb_eq.
  assert (Hv : String.eqb (lower l) "venue" = true <-> lower l = "venue")
    by apply String.eqb_eq.
  assert (Hs : String.eqb (lower l) "street" = true <-> lower l = "street")
    by apply String.eqb_eq.
  pose proof (Qle_bool_iff (8 # 10) c) as H8.
  pose proof (Qle_bool_iff (5 # 10) c) as H5.
  destruct (String.eqb (lower l) "address"), (String.eqb (lower l) "venue"),
    (String.eqb (lower l) "street"), (Qle_bool (8 # 10) c),
    (Qle_bool (5 # 10) c); simpl;
    (split; [| split; [| split]]); try reflexivity; intros;
    try reflexivity; exfalso; intuition congruence.
Qed.

Lemma determine_accuracy_tiers_witness :
  ((lower "address" = "address" \/ lower "address" = "venue")
   /\ ((8 # 10) <= (9 # 10))%Q)
  /\ _determine_accuracy
       (mkProperties (Some (9 # 10)%Q) (Some "address") None) = "high".
Proof.
  assert (Hh : (lower "address" = "address" \/ lower "address" = "venue")
               /\ ((8 # 10) <= (9 # 10))%Q).
  { split; [left; reflexivity |]. unfold Qle. simpl. lia. }
  split; [exact Hh |].
  pose proof (determine_accuracy_tiers "address" (9 # 10)%Q None) as T.
  cbv zeta in T. destruct T as [T _]. exact (T Hh).
Defined.

(** ** geocode_address *)

Section geocode_address_facts.
Context `{Runtime}.

Lemma lstrip_all_isspace (s : string) :
  all_isspace s = true -> lstrip s = EmptyString.
Proof.
  induction s as [| c s IH]; simpl; [reflexivity |].
  intros Hs. apply andb_prop in Hs as [Hc Hs]. rewrite Hc. apply IH, Hs.
Qed.

Lemma strip_all_isspace (s : string) : all_isspace s = true -> strip s = EmptyString.
Proof. intros Hs. unfold strip. rewrite lstrip_all_isspace; auto. Qed.

(** C7.  An address that is empty or made of whitespace only is refused at
    once: the result is the failure ["Address cannot be empty"] and the
    world is returned untouched, so no request was issued and the cache was
    neither read nor written. *)
Theorem geocode_blank_address_fails_without_effects
  (address country : string) (timeout retries : option Z) (use_cache : bool)
  (w : World) :
  all_isspace address = true ->
  geocode_address address country timeout retries use_cache w
  = (Failure (Some "Address cannot be empty"), w).
Proof.
  intros Hs. unfold geocode_address.
  rewrite (strip_all_isspace _ Hs). simpl.
  rewrite orb_true_r. reflexivity.
Qed.

(** *** The attempt loop, branch by branch *)

Lemma loop_timeout (address country : string) (timeout retries : Z)
  (use_cache : bool) (attempt : nat) (rest : list nat)
  (last_error : option string) (w : World) (msg : string) :
  session_get (requests w) address country timeout = RaisesTimeout msg ->
  attempt_loop address country timeout retries use_cache (attempt :: rest)
    last_error w
  = attempt_loop address country timeout retries use_cache rest
      (Some ("Request timeout: " +:+ msg))
      (wait_before_retry attempt retries
         (snd (http_get address country timeout w))).
Proof. intros Ho. simpl. rewrite Ho. reflexivity. Qed.

Lemma loop_request_error (address country : string) (timeout retries : Z)
  (use_cache : bool) (attempt : nat) (rest : list nat)
  (last_error : option string) (w : World) (msg : string) :
  session_get (requests w) address country timeout
  = RaisesRequestException msg ->
  attempt_loop address country timeout retries use_cache (attempt :: rest)
    last_error w
  = attempt_loop address country timeout retries use_cache rest
      (Some ("Request error: " +:+ msg))
      (wait_before_retry attempt retries
         (snd (http_get address country timeout w))).
Proof. intros Ho. simpl. rewrite Ho. reflexivity. Qed.

(** A rate-limit error that passes the guard is retried after
    [DEFAULT_RETRY_DELAY * (attempt + 1)] seconds. *)
Lemma loop_rate_limit_backoff (address country : string)
  (timeout retries : Z) (use_cache : bool) (attempt : nat) (rest : list nat)
  (last_error : option string) (w : World) (r : ResponseObject)
  (msg : string) :
  session_get (requests w) address country timeout
  = RaisesHTTPError (Some r) msg ->
  truth_value r = true -> status_code r = 429%Z ->
  (Z.of_nat attempt < retries)%Z ->
  attempt_loop address country timeout retries use_cache (attempt :: rest)
    last_error w
  = attempt_loop address country timeout retries use_cache rest
      (Some "Rate limit exceeded")
      (sleep (1 * (Z.of_nat attempt + 1))
         (snd (http_get address country timeout w))).
Proof.
  intros Ho Ht Hs Hlt. simpl. rewrite Ho. simpl. rewrite Ht, Hs. simpl.
  apply Z.ltb_lt in Hlt. rewrite Hlt. reflexivity.
Qed.

(** Any other HTTP error leaves the loop at once. *)
Lemma loop_http_error_breaks (address country : string)
  (timeout retries : Z) (use_cache : bool) (attempt : nat) (rest : list nat)
  (last_error : option string) (w : World)
  (response : option ResponseObject) (msg : string) :
  session_get (requests w) address country timeout
  = RaisesHTTPError response msg ->
  is_rate_limit response = false ->
  attempt_loop address country timeout retries use_cache (attempt :: rest)
    last_error w
  = (Fell (Some ("HTTP error " +:+ status_text response +:+ ": " +:+ msg)),
     snd (http_get address country timeout w)).
Proof. intros Ho Hr. simpl. rewrite Ho, Hr. reflexivity. Qed.

(** A reply that cannot be decoded leaves the loop at once. *)
Lemma loop_parse_error_breaks (address country : string)
  (timeout retries : Z) (use_cache : bool) (attempt : nat) (rest : list nat)
  (last_error : option string) (w : World) (msg : string) :
  session_get (requests w) address country timeout = RaisesValueError msg ->
  attempt_loop address country timeout retries use_cache (attempt :: rest)
    last_error w
  = (Fell (Some ("Response parsing error: " +:+ msg)),
     snd (http_get address country timeout w)).
Proof. intros Ho. simpl. rewrite Ho. reflexivity. Qed.

Lemma requests_wait (attempt : nat) (retries : Z) (w : World) :
  requests (wait_before_retry attempt retries w) = requests w.
Proof. unfold wait_before_retry. destruct (_ <? _)%Z; reflexivity. Qed.

(** When every attempt ends in an outcome the loop goes on after, the loop
    runs through the whole range, one request per attempt, and falls out
    with the cause of the last attempt. *)
Lemma loop_exhausted (address country : string) (timeout retries : Z)
  (use_cache : bool) (rng : list nat) (last_error : option string)
  (w : World) :
  (forall k : nat, (k < length rng)%nat ->
     cause (session_get (requests w + k) address country timeout) <> None) ->
  let out :=
    attempt_loop address country timeout retries use_cache rng last_error w in
  fst out
  = Fell (match rng with
          | [] => last_error
          | _ :: _ =>
              cause (session_get (requests w + (length rng - 1))
                       address country timeout)
          end)
  /\ requests (snd out) = (requests w + length rng)%nat.
Proof.
  revert last_error w.
  induction rng as [| attempt rest IH]; intros last_error w Hall; cbv zeta.
  - simpl. split; [reflexivity | lia].
  - assert (H0 := Hall 0%nat ltac:(simpl; lia)).
    rewrite Nat.add_0_r in H0.
    assert (Hrest : forall w1 : World, requests w1 = S (requests w) ->
              forall k : nat, (k < length rest)%nat ->
              cause (session_get (requests w1 + k) address country timeout)
              <> None).
    { intros w1 Hw1 k Hk. rewrite Hw1.
      replace (S (requests w) + k)%nat with (requests w + S k)%nat by lia.
      apply Hall. simpl. lia. }
    assert (Hlast : forall (w1 : World) (e : option string),
              requests w1 = S (requests w) ->
              cause (session_get (requests w) address country timeout) = e ->
              match rest with
              | [] => e
              | _ :: _ =>
                  cause (session_get (requests w1 + (length rest - 1))
                           address country timeout)
              end
              = cause (session_get (requests w + (length (attempt :: rest) - 1))
                         address country timeout)).
    { intros w1 e Hw1 He. destruct rest as [| b rest'].
      - simpl. rewrite Nat.add_0_r. symmetry. exact He.
      - rewrite Hw1. simpl length. f_equal. f_equal. lia. }
    simpl attempt_loop.
    destruct (session_get (requests w) address country timeout)
      as [data0 | msg | response msg | msg | msg] eqn:Ho;
      simpl in H0; try congruence.
    + match goal with
      | |- context [attempt_loop _ _ _ _ _ rest ?e ?w1] =>
          assert (Hw1 : requests w1 = S (requests w))
            by (rewrite requests_wait; reflexivity);
          destruct (IH e w1 (Hrest w1 Hw1)) as [Hf Hr];
          split;
          [ rewrite Hf, (Hlast w1 e Hw1 eq_refl); reflexivity
          | rewrite Hr, Hw1; simpl; lia ]
      end.
    + destruct (is_rate_limit response) eqn:Hrl; [| congruence].
      assert (Hc : cause (RaisesHTTPError response msg)
                   = Some "Rate limit exceeded")
        by (simpl; rewrite Hrl; reflexivity).
      destruct (Z.of_nat attempt <? retries)%Z;
        match goal with
        | |- context [attempt_loop _ _ _ _ _ rest ?e ?w1] =>
            assert (Hw1 : requests w1 = S (requests w))
              by (try rewrite requests_wait; reflexivity);
            destruct (IH e w1 (Hrest w1 Hw1)) as [Hf Hr];
            split;
            [ rewrite Hf, (Hlast w1 e Hw1 Hc); reflexivity
            | rewrite Hr, Hw1; simpl; lia ]
        end.
    + match goal with
      | |- context [attempt_loop _ _ _ _ _ rest ?e ?w1] =>
          assert (Hw1 : requests w1 = S (requests w))
            by (rewrite requests_wait; reflexivity);
          destruct (IH e w1 (Hrest w1 Hw1)) as [Hf Hr];
          split;
          [ rewrite Hf, (Hlast w1 e Hw1 eq_refl); reflexivity
          | rewrite Hr, Hw1; simpl; lia ]
      end.
Qed.

Lemma trace_wait (attempt : nat) (retries : Z) (w : World) :
  exists evs : list Event,
    trace (wait_before_retry attempt retries w) = trace w ++ evs
    /\ forall (text country : string) (t : Z),
         ~ In (EvRequest text country t) evs.
Proof.
  unfold wait_before_retry. destruct (_ <? _)%Z.
  - exists [EvSleep DEFAULT_RETRY_DELAY]. split; [reflexivity |].
    intros ? ? ? [Hin | []]. discriminate.
  - exists []. split; [symmetry; apply app_nil_r |]. intros ? ? ? [].
Qed.

(** The loop only appends to the trace, every request it issues carries the
    timeout it was given, and it issues at most one request per attempt. *)
Lemma loop_trace (address country : string) (timeout retries : Z)
  (use_cache : bool) (rng : list nat) (last_error : option string)
  (w : World) :
  let w' :=
    snd (attempt_loop address country timeout retries use_cache rng
           last_error w) in
  (exists evs : list Event,
      trace w' = trace w ++ evs /\ requests_use_timeout timeout evs)
  /\ (requests w' <= requests w + length rng)%nat.
Proof.
  revert last_error w.
  induction rng as [| attempt rest IH]; intros last_error w; cbv zeta.
  - simpl. split; [| lia]. exists []. split; [symmetry; apply app_nil_r |].
    intros ? ? ? [].
  - assert (Hgo : forall (e : option string) (w1 : World) (evs1 : list Event),
              requests w1 = S (requests w) ->
              trace w1 = (trace w ++ [EvRequest address country timeout])
                         ++ evs1 ->
              (forall (text country0 : string) (t : Z),
                  ~ In (EvRequest text country0 t) evs1) ->
              let w' := snd (attempt_loop address country timeout retries
                               use_cache rest e w1) in
              (exists evs : list Event,
                  trace w' = trace w ++ evs
                  /\ requests_use_timeout timeout evs)
              /\ (requests w' <= requests w + length (attempt :: rest))%nat).
    { intros e w1 evs1 Hreq Htr Hno. cbv zeta.
      destruct (IH e w1) as [(evs & Hevs & Hto) Hle]. split.
      - exists ([EvRequest address country timeout] ++ evs1 ++ evs). split.
        + rewrite Hevs, Htr. rewrite <- !app_assoc. reflexivity.
        + intros text country0 t' Hin.
          apply in_app_or in Hin as [[Heq | []] | Hin];
            [congruence |].
          apply in_app_or in Hin as [Hin | Hin];
            [exfalso; eapply Hno; exact Hin | eapply Hto; exact Hin].
      - rewrite Hreq in Hle. simpl. lia. }
    assert (Hstop : forall w1 : World,
              requests w1 = S (requests w) ->
              (exists evs1 : list Event,
                 trace w1 = (trace w ++ [EvRequest address country timeout])
                            ++ evs1
                 /\ forall (text country0 : string) (t : Z),
                      ~ In (EvRequest text country0 t) evs1) ->
              (exists evs : list Event,
                  trace w1 = trace w ++ evs
                  /\ requests_use_timeout timeout evs)
              /\ (requests w1 <= requests w + length (attempt :: rest))%nat).
    { intros w1 Hreq (evs1 & Htr & Hno). split; [| simpl; lia].
      exists ([EvRequest address country timeout] ++ evs1). split.
      - rewrite Htr, <- app_assoc. reflexivity.
      - intros text country0 t' Hin.
        apply in_app_or in Hin as [[Heq | []] | Hin]; [congruence |].
        exfalso. eapply Hno. exact Hin. }
    simpl attempt_loop.
    destruct (session_get (requests w) address country timeout)
      as [data0 | msg | response msg | msg | msg].
    + simpl snd. destruct (success _ && use_cache).
      * apply Hstop; [reflexivity |].
        eexists [EvCacheSet _ _]. split; [reflexivity |].
        intros ? ? ? [Hin | []]. discriminate.
      * apply Hstop; [reflexivity |].
        exists []. split; [symmetry; apply app_nil_r |]. intros ? ? ? [].
    + match goal with
      | |- context [wait_before_retry attempt retries ?w0] =>
          destruct (trace_wait attempt retries w0) as (evs1 & Htr & Hno)
      end.
      eapply Hgo; [rewrite requests_wait; reflexivity | exact Htr | exact Hno].
    + destruct (is_rate_limit response).
      * destruct (Z.of_nat attempt <? retries)%Z.
        -- eapply (Hgo _ _ [EvSleep _]); [reflexivity | reflexivity |].
           intros ? ? ? [Hin | []]. discriminate.
        -- match goal with
           | |- context [wait_before_retry attempt retries ?w0] =>
               destruct (trace_wait attempt retries w0) as (evs1 & Htr & Hno)
           end.
           eapply Hgo;
             [rewrite requests_wait; reflexivity | exact Htr | exact Hno].
      * simpl snd. apply Hstop; [reflexivity |].
        exists []. split; [symmetry; apply app_nil_r |]. intros ? ? ? [].
    + match goal with
      | |- context [wait_before_retry attempt retries ?w0] =>
          destruct (trace_wait attempt retries w0) as (evs1 & Htr & Hno)
      end.
      eapply Hgo; [rewrite requests_wait; reflexivity | exact Htr | exact Hno].
    + simpl snd. apply Hstop; [reflexivity |].
      exists []. split; [symmetry; apply app_nil_r |]. intros ? ? ? [].
Qed.

(** One call: the trace grows by events whose requests all carry the
    effective timeout, and at most [retries + 1] requests are issued. *)
Lemma geocode_address_effects (address country : string)
  (timeout retries : option Z) (use_cache : bool) (w : World) :
  let w' :=
    snd (geocode_address address country timeout retries use_cache w) in
  (exists evs : list Event,
      trace w' = trace w ++ evs
      /\ requests_use_timeout (or_default timeout DEFAULT_TIMEOUT) evs)
  /\ (requests w'
      <= requests w
         + Z.to_nat (or_default retries DEFAULT_RETRIES + 1))%nat.
Proof.
  cbv zeta. unfold geocode_address.
  destruct (negb (truthy address) || negb (truthy (strip address))).
  { simpl. split; [| lia]. exists []. split; [symmetry; apply app_nil_r |].
    intros ? ? ? []. }
  set (t := or_default timeout DEFAULT_TIMEOUT).
  set (r := or_default retries DEFAULT_RETRIES).
  destruct use_cache.
  - unfold _get_cached_result.
    destruct (cache w !! _get_cache_key (strip address) country).
    + simpl. split; [| lia]. eexists [EvCacheGet _]. split; [reflexivity |].
      intros ? ? ? [Hin | []]. discriminate.
    + match goal with
      | |- context [attempt_loop ?a ?c ?t0 ?r0 ?u ?rng ?e ?w0] =>
          pose proof (loop_trace a c t0 r0 u rng e w0) as Hl;
          destruct (attempt_loop a c t0 r0 u rng e w0) as [[res | le] w1]
      end; cbv zeta in Hl; simpl in Hl; simpl;
        destruct Hl as [(evs & Hevs & Hto) Hle];
        (split;
         [ eexists (EvCacheGet _ :: evs); split;
           [ rewrite Hevs, <- app_assoc; reflexivity
           | intros ? ? ? [Hin | Hin];
             [discriminate | eapply Hto; exact Hin] ]
         | unfold range in Hle; rewrite length_seq in Hle; exact Hle ]).
  - match goal with
    | |- context [attempt_loop ?a ?c ?t0 ?r0 ?u ?rng ?e ?w0] =>
        pose proof (loop_trace a c t0 r0 u rng e w0) as Hl;
        destruct (attempt_loop a c t0 r0 u rng e w0) as [[res | le] w1]
    end; cbv zeta in Hl; simpl in Hl; simpl;
      destruct Hl as [(evs & Hevs & Hto) Hle];
      (split;
       [ exists evs; split; [exact Hevs | exact Hto]
       | unfold range in Hle; rewrite length_seq in Hle; exact Hle ]).
Qed.

(** C9.  An explicit 0 for [timeout] or [retries] is replaced by the
    default: the call behaves exactly as with no value and as with 10
    seconds, respectively 3 retries; every request of a call made with
    [timeout=0] carries timeout 10; a call made with [retries=0] issues at
    most 4 requests, and issues 4 when every exchange times out. *)
Theorem explicit_zero_falls_back_to_defaults
  (address country : string) (timeout retries : option Z) (use_cache : bool)
  (w : World) :
  geocode_address address country (Some 0%Z) retries use_cache w
  = geocode_address address country None retries use_cache w
  /\ geocode_address address country (Some 0%Z) retries use_cache w
     = geocode_address address country (Some 10%Z) retries use_cache w
  /\ geocode_address address country timeout (Some 0%Z) use_cache w
     = geocode_address address country timeout None use_cache w
  /\ geocode_address address country timeout (Some 0%Z) use_cache w
     = geocode_address address country timeout (Some 3%Z) use_cache w
  /\ requests_use_timeout 10
       (events_since w
          (snd (geocode_address address country (Some 0%Z) retries
                  use_cache w)))
  /\ (requests
        (snd (geocode_address address country timeout (Some 0%Z)
                use_cache w))
      <= requests w + 4)%nat
  /\ requests
       (snd (@geocode_address (scripted always_timeout)
               "123 Main St" "US" None (Some 0%Z) false empty_world))
     = 4%nat.
Proof.
  split; [reflexivity |]. split; [reflexivity |].
  split; [reflexivity |]. split; [reflexivity |].
  split; [| split].
  - destruct (geocode_address_effects address country (Some 0%Z) retries
                use_cache w) as [(evs & Hevs & Hto) _].
    unfold events_since. rewrite Hevs, drop_app_length. exact Hto.
  - destruct (geocode_address_effects address country timeout (Some 0%Z)
                use_cache w) as [_ Hle].
    exact Hle.
  - vm_compute. reflexivity.
Qed.

End geocode_address_facts.

Lemma geocode_blank_address_fails_without_effects_witness :
  all_isspace "   " = true
  /\ @geocode_address (scripted always_timeout) "   " "US" None None true
       empty_world
     = (Failure (Some "Address cannot be empty"), empty_world).
Proof.
  split; [reflexivity |].
  apply (@geocode_blank_address_fails_without_effects
           (scripted always_timeout)).
  reflexivity.
Defined.

(** C2, the rate-limit branch.  The guard of that branch tests the truth
    value of [e.response] before its status code.  When the first exchange
    of a call raises the HTTP error of a 429 reply, whose response object is
    false as a truth value, the call does not sleep and does not try again,
    whatever the later exchanges would bring: it issues one request and
    fails with the generic HTTP-error message. *)
Theorem rate_limit_reply_is_not_retried `{Runtime}
  (address country : string) (timeout retries : option Z) (use_cache : bool)
  (w : World) (r : ResponseObject) (msg : string) :
  truthy (strip address) = true ->
  (use_cache = true ->
   cache w !! _get_cache_key (strip address) country = None) ->
  (0 <= or_default retries DEFAULT_RETRIES)%Z ->
  session_get
    (requests w) (strip address) country (or_default timeout DEFAULT_TIMEOUT)
  = RaisesHTTPError (Some r) msg ->
  status_code r = 429%Z -> truth_value r = false ->
  let out := geocode_address address country timeout retries use_cache w in
  fst out
  = Failure
      (Some ("Geocoding failed after "
             +:+ str_int (or_default retries DEFAULT_RETRIES + 1)
             +:+ " attempts: HTTP error unknown: " +:+ msg))
  /\ requests (snd out) = S (requests w)
  /\ forall seconds : Z, ~ In (EvSleep seconds) (events_since w (snd out)).
Proof.
  intros Hnb Hmiss Hret Ho Hs Ht. cbv zeta. unfold geocode_address.
  assert (Haddr : truthy address = true).
  { destruct address; [discriminate Hnb | reflexivity]. }
  rewrite Haddr, Hnb. cbn [negb orb].
  set (t := or_default timeout DEFAULT_TIMEOUT) in *.
  set (n := or_default retries DEFAULT_RETRIES) in *.
  assert (Hrng : range (n + 1) = 0%nat :: seq 1 (Z.to_nat n)).
  { unfold range. rewrite Z.add_1_r, Z2Nat.inj_succ by exact Hret.
    reflexivity. }
  rewrite Hrng.
  destruct use_cache.
  - unfold _get_cached_result. rewrite (Hmiss eq_refl).
    cbn [attempt_loop http_get emit requests cache trace].
    rewrite Ho. unfold is_rate_limit, status_text. rewrite Ht.
    cbn [andb fst snd requests trace str_last_error default_get].
    split; [reflexivity |]. split; [reflexivity |].
    unfold events_since. cbn [trace]. rewrite <- app_assoc, drop_app_length.
    intros seconds [Hin | [Hin | []]]; discriminate.
  - cbn [attempt_loop http_get emit requests cache trace].
    rewrite Ho. unfold is_rate_limit, status_text. rewrite Ht.
    cbn [andb fst snd requests trace str_last_error default_get].
    split; [reflexivity |]. split; [reflexivity |].
    unfold events_since. cbn [trace]. rewrite drop_app_length.
    intros seconds [Hin | []]. discriminate.
Qed.

(** With retries=2, a 429 reply first and a reply that would succeed next:
    one request, then failure. *)
Lemma rate_limit_reply_is_not_retried_witness :
  (truthy (strip "123 Main St") = true
   /\ @session_get (scripted rate_limit_then_reply) 0 "123 Main St" "US" 10
      = RaisesHTTPError (Some (mkResponse false 429))
          "429 Client Error: Too Many Requests")
  /\ @geocode_address (scripted rate_limit_then_reply)
       "123 Main St" "US" None (Some 2%Z) false empty_world
     = (Failure
          (Some
             "Geocoding failed after 3 attempts: HTTP error unknown: 429 Client Error: Too Many Requests"),
        mkWorld ∅ 1 [EvRequest "123 Main St" "US" 10]).
Proof.
  split; [split; reflexivity |].
  pose proof (@rate_limit_reply_is_not_retried
                (scripted rate_limit_then_reply)
                "123 Main St" "US" None (Some 2%Z) false empty_world
                (mkResponse false 429)
                "429 Client Error: Too Many Requests"
                eq_refl ltac:(discriminate) ltac:(vm_compute; discriminate)
                eq_refl eq_refl eq_refl) as [Hres _].
  cbv zeta in Hres.
  rewrite (surjective_pairing
             (@geocode_address (scripted rate_limit_then_reply)
                "123 Main St" "US" None (Some 2%Z) false empty_world)).
  rewrite Hres. f_equal; vm_compute; reflexivity.
Defined.

(** The same run with a response object that is true as a truth value:
    one second of sleep, a second request, success. *)
Lemma rate_limit_double_is_retried :
  @geocode_address (scripted double_then_reply)
    "123 Main St" "US" None (Some 2%Z) false empty_world
  = (Success (407128 # 10000) (-740060 # 10000) "high"
       "123 Main St, New York, NY, USA" (9 # 10) "address",
     mkWorld ∅ 2
       [EvRequest "123 Main St" "US" 10; EvSleep 1;
        EvRequest "123 Main St" "US" 10]).
Proof. vm_compute. reflexivity. Qed.

(** ** ChurchDataService *)

Section church_data_facts.
Context `{Django} `{Runtime}.

(** C6.  A church that has both coordinates, geocoded with
    [force_update=False], yields success with [skipped] set; the world is
    returned as it was (no request, no cache access) and so are the service,
    the church and the table.  When geocoding is carried out and the
    geocoding result is a failure, the church and the table are returned as
    they were, and the result is a failure whose message carries the
    error.  Whenever the call reports a failure the table is the one it was
    given. *)
Theorem geocode_church_skip_and_failure_leave_record :
  (forall (self : ChurchDataService) (church : Church) (db : DB) (w : World)
          (la lo : Q),
      latitude church = Some la -> longitude church = Some lo ->
      geocode_church self church false db w
      = Return (mkChurchResult true "Church already has coordinates" true None,
                self, church, db, w))
  /\ (forall (self : ChurchDataService) (church : Church)
             (force_update : bool) (db : DB) (w w1 : World)
             (service : GeocodingService) (error0 : option string),
        has_coordinates church && negb force_update = false ->
        obtain_service self = Return service ->
        geocode_address (full_address church) "US" None None true w
        = (Failure error0, w1) ->
        geocode_church self church force_update db w
        = Return (mkChurchResult false
                    ("Geocoding failed: "
                     +:+ default_get error0 "Unknown error")
                    false None,
                  mkChurchDataService (Some service), church, db, w1))
  /\ (forall (self self' : ChurchDataService) (church church' : Church)
             (force_update : bool) (db db' : DB) (w w' : World)
             (res : ChurchResult),
        geocode_church self church force_update db w
        = Return (res, self', church', db', w') ->
        result_success res = false ->
        db' = db
        /\ exists reason : string,
            message res = "Geocoding failed: " +:+ reason
            \/ message res = "Error saving coordinates: " +:+ reason).
Proof.
  split; [| split].
  - intros self church db w la lo Hla Hlo. unfold geocode_church.
    unfold has_coordinates, coordinates. rewrite Hla, Hlo. reflexivity.
  - intros self church force_update db w w1 service error0 Hgo Hsvc Hgeo.
    unfold geocode_church. rewrite Hgo, Hsvc. simpl.
    unfold mbind, Except_bind. simpl. rewrite Hgeo. reflexivity.
  - intros self self' church church' force_update db db' w w' res.
    unfold geocode_church.
    destruct (has_coordinates church && negb force_update).
    { intros [= <- _ _ _ _]. discriminate. }
    unfold mbind, Except_bind.
    destruct (obtain_service self) as [service | e]; simpl; [| discriminate].
    destruct (geocode_address (full_address church) "US" None None true w)
      as [[la lo acc fa cf ly | error0] w1].
    + destruct (set_coordinates church la lo acc) as [church1 | e].
      * destruct (save church1 db) as [[church2 db2] | e].
        -- intros [= <- _ _ _ _]. discriminate.
        -- intros [= <- _ _ <- _] _. split; [reflexivity |].
           eexists. right. reflexivity.
      * intros [= <- _ _ <- _] _. split; [reflexivity |].
        eexists. right. reflexivity.
    + intros [= <- _ _ <- _] _. split; [reflexivity |].
      eexists. left. reflexivity.
Qed.

(** *** import_church_data *)

Lemma required_check (a b c d : string) :
  negb (forallb truthy [a; b; c; d]) = true
  <-> a = EmptyString \/ b = EmptyString \/ c = EmptyString \/ d = EmptyString.
Proof.
  destruct a, b, c, d; simpl; split; intros; try reflexivity;
    try discriminate; intuition (auto; discriminate).
Qed.

Lemma import_row_missing (i : nat) (row : Row) (st : ImportState) :
  missing_required row ->
  import_row i row st = record_failure i row missing_fields_error st.
Proof.
  intros Hm. unfold import_row.
  apply required_check in Hm. rewrite Hm. reflexivity.
Qed.

Lemma import_row_present (i : nat) (row : Row) (st : ImportState) :
  ~ missing_required row ->
  import_row i row st
  = match upsert (strip (default_get (row_name row) EmptyString))
            (strip (default_get (row_street_address row) EmptyString))
            (strip (default_get (row_city row) EmptyString))
            (strip (default_get (row_state row) EmptyString)) row st with
    | Return st1 => st1
    | Raise e => record_failure i row (str_exc e) st
    end.
Proof.
  intros Hm. unfold import_row.
  destruct (negb (forallb truthy _)) eqn:Hc; [| reflexivity].
  apply required_check in Hc. contradiction.
Qed.

Lemma upsert_effect (n s c t : string) (row : Row) (st st1 : ImportState) :
  upsert n s c t row st = Return st1 ->
  processed st1 = S (processed st)
  /\ st_failed_records st1 = st_failed_records st.
Proof.
  unfold upsert, processed. unfold mbind, Except_bind.
  destruct (get_or_create n s c t row (st_db st))
    as [[[church was_created] db1] | e]; simpl; [| discriminate].
  destruct was_created.
  - intros [= <-]. simpl. split; [lia | reflexivity].
  - destruct (save _ db1) as [[c2 db2] | e]; simpl; [| discriminate].
    intros [= <-]. simpl. split; [lia | reflexivity].
Qed.

(** Each row moves exactly one counter, and the failure list only grows at
    its end. *)
Lemma import_row_effect (i : nat) (row : Row) (st : ImportState) :
  processed (import_row i row st) = S (processed st)
  /\ exists new : list FailedRecord,
      st_failed_records (import_row i row st) = st_failed_records st ++ new.
Proof.
  unfold import_row.
  destruct (negb (forallb truthy _)).
  - unfold processed. simpl. split; [lia |]. eexists. reflexivity.
  - destruct (upsert _ _ _ _ row st) as [st1 | e] eqn:Hu.
    + apply upsert_effect in Hu as [Hp Hf]. split; [exact Hp |].
      exists []. rewrite Hf. symmetry. apply app_nil_r.
    + unfold processed. simpl. split; [lia |]. eexists. reflexivity.
Qed.

Lemma import_loop_effect (rows : list Row) (i : nat) (st : ImportState) :
  processed (import_loop i rows st) = (processed st + length rows)%nat
  /\ (exists new : list FailedRecord,
        st_failed_records (import_loop i rows st)
        = st_failed_records st ++ new)
  /\ forall (k : nat) (row : Row),
       nth_error rows k = Some row -> missing_required row ->
       In (mkFailedRecord (i + k) row missing_fields_error)
          (st_failed_records (import_loop i rows st)).
Proof.
  revert i st. induction rows as [| r rows IH]; intros i st; simpl.
  - split; [lia |]. split.
    + exists []. symmetry. apply app_nil_r.
    + intros k row Hk. destruct k; discriminate.
  - destruct (IH (S i) (import_row i r st)) as (Hp & (new & Hnew) & Hin).
    destruct (import_row_effect i r st) as (Hp1 & new1 & Hnew1).
    split; [rewrite Hp, Hp1; lia |]. split.
    + exists (new1 ++ new). rewrite Hnew, Hnew1, app_assoc. reflexivity.
    + intros k row Hk Hm. destruct k as [| k].
      * injection Hk as ->. rewrite Hnew.
        rewrite (import_row_missing i row st Hm). simpl.
        rewrite Nat.add_0_r.
        apply in_or_app. left. apply in_or_app. right. left. reflexivity.
      * replace (i + S k)%nat with (S i + k)%nat by lia.
        apply Hin; assumption.
Qed.

Lemma church_of_row_clean (row : Row) :
  ~ missing_required row -> clean (church_of_row row) = Return tt.
Proof.
  intros Hm. unfold missing_required in Hm.
  apply ModelsSpec.clean_accepts; simpl.
  - left. split; reflexivity.
  - rewrite PySpec.strip_idempotent.
    destruct (truthy _) eqn:Ht; [reflexivity |].
    apply PySpec.truthy_false in Ht. tauto.
  - rewrite PySpec.strip_idempotent.
    destruct (truthy _) eqn:Ht; [reflexivity |].
    apply PySpec.truthy_false in Ht. tauto.
  - rewrite PySpec.strip_idempotent.
    destruct (truthy _) eqn:Ht; [reflexivity |].
    apply PySpec.truthy_false in Ht. tauto.
  - rewrite PySpec.strip_idempotent.
    destruct (truthy _) eqn:Ht; [reflexivity |].
    apply PySpec.truthy_false in Ht. tauto.
Qed.

(** A row with all required fields, unknown to the table and accepted by
    field validation, is created. *)
Lemma import_row_creates (i : nat) (row : Row) (st : ImportState) :
  ~ missing_required row ->
  lookup (name (church_of_row row)) (street_address (church_of_row row))
    (city (church_of_row row)) (state (church_of_row row)) (st_db st) = [] ->
  clean_fields (church_of_row row) = None ->
  import_row i row st
  = mkImportState (S (st_created st)) (st_updated st) (st_failed st)
      (st_failed_records st)
      (snd (store (church_of_row row) (st_db st))).
Proof.
  intros Hm Hl Hf. rewrite (import_row_present i row st Hm).
  unfold upsert, get_or_create. simpl in Hl. rewrite Hl.
  fold (church_of_row row).
  unfold save, full_clean. rewrite Hf.
  rewrite (church_of_row_clean row Hm).
  unfold mbind, Except_bind, mret, Except_ret. simpl.
  reflexivity.
Qed.

(** A row either fails, and then all it changes is the failure count and
    list, or it does not touch the failure count. *)
Lemma import_row_fails_or_not (i : nat) (row : Row) (st : ImportState) :
  (st_failed (import_row i row st) = S (st_failed st)
   /\ st_created (import_row i row st) = st_created st
   /\ st_updated (import_row i row st) = st_updated st
   /\ st_db (import_row i row st) = st_db st)
  \/ st_failed (import_row i row st) = st_failed st.
Proof.
  unfold import_row.
  destruct (negb (forallb truthy _));
    [left; repeat split |].
  destruct (upsert _ _ _ _ row st) as [st1 | e] eqn:Hu;
    [| left; repeat split].
  right. revert Hu. unfold upsert, mbind, Except_bind, bind.
  destruct (get_or_create _ _ _ _ row (st_db st))
    as [[[church was_created] db1] | e]; [| discriminate].
  destruct was_created.
  - intros [= <-]. reflexivity.
  - destruct (save _ db1) as [[c2 db2] | e]; [| discriminate].
    intros [= <-]. reflexivity.
Qed.

(** What a row does to the counts and the table depends on the row and the
    table only: not on its position, nor on the failures before it. *)
Lemma import_row_continue (i j : nat) (row : Row) (st st' : ImportState) :
  st_created st = st_created st' -> st_updated st = st_updated st' ->
  st_db st = st_db st' ->
  st_created (import_row i row st) = st_created (import_row j row st')
  /\ st_updated (import_row i row st) = st_updated (import_row j row st')
  /\ st_db (import_row i row st) = st_db (import_row j row st')
  /\ (st_failed (import_row i row st) + st_failed st'
      = st_failed (import_row j row st') + st_failed st)%nat.
Proof.
  intros Hc Hu Hdb. unfold import_row.
  destruct (negb (forallb truthy _)).
  { cbn [record_failure st_created st_updated st_db st_failed].
    repeat split; try assumption. lia. }
  unfold upsert, mbind, Except_bind, bind. rewrite <- Hdb.
  destruct (get_or_create _ _ _ _ row (st_db st))
    as [[[church was_created] db1] | e].
  2:{ cbn [record_failure st_created st_updated st_db st_failed].
      repeat split; try assumption. lia. }
  destruct was_created.
  { cbn [mret Except_ret st_created st_updated st_db st_failed].
    repeat split; try congruence. lia. }
  destruct (save _ db1) as [[c2 db2] | e].
  - cbn [mret Except_ret st_created st_updated st_db st_failed].
    repeat split; try congruence. lia.
  - cbn [record_failure st_created st_updated st_db st_failed].
    repeat split; try assumption. lia.
Qed.

Lemma import_loop_continue (rows : list Row) (i j : nat)
  (st st' : ImportState) :
  st_created st = st_created st' -> st_updated st = st_updated st' ->
  st_db st = st_db st' ->
  st_created (import_loop i rows st) = st_created (import_loop j rows st')
  /\ st_updated (import_loop i rows st) = st_updated (import_loop j rows st')
  /\ st_db (import_loop i rows st) = st_db (import_loop j rows st')
  /\ (st_failed (import_loop i rows st) + st_failed st'
      = st_failed (import_loop j rows st') + st_failed st)%nat.
Proof.
  revert i j st st'. induction rows as [| row rows IH];
    intros i j st st' Hc Hu Hdb.
  - cbn [import_loop]. repeat split; try assumption. lia.
  - cbn [import_loop].
    destruct (import_row_continue i j row st st' Hc Hu Hdb)
      as (Hc1 & Hu1 & Hdb1 & Hf1).
    destruct (IH (S i) (S j) _ _ Hc1 Hu1 Hdb1) as (Hc2 & Hu2 & Hdb2 & Hf2).
    repeat split; try assumption. lia.
Qed.

Lemma import_loop_app (rows1 rows2 : list Row) (i : nat) (st : ImportState) :
  import_loop i (rows1 ++ rows2) st
  = import_loop (i + length rows1) rows2 (import_loop i rows1 st).
Proof.
  revert i st. induction rows1 as [| row rows1 IH]; intros i st.
  - cbn [app length import_loop]. rewrite Nat.add_0_r. reflexivity.
  - cbn [app length import_loop]. rewrite IH.
    replace (S i + length rows1)%nat with (i + S (length rows1))%nat by lia.
    reflexivity.
Qed.

(** The counts and the table of a summary are those of the loop, also for
    the empty list. *)
Lemma import_church_data_loop (rows : list Row) (db : DB) :
  let st := import_loop 1 rows (mkImportState 0 0 0 [] db) in
  created (fst (import_church_data rows db)) = st_created st
  /\ updated (fst (import_church_data rows db)) = st_updated st
  /\ failed (fst (import_church_data rows db)) = st_failed st
  /\ snd (import_church_data rows db) = st_db st.
Proof.
  cbv zeta. unfold import_church_data.
  destruct rows; cbn [fst snd created updated failed import_loop st_created
    st_updated st_failed st_db]; repeat split.
Qed.

(** Taking a failing row out of the input changes nothing but the failure
    count. *)
Lemma failing_row_is_passed_over (rows1 rows2 : list Row) (row : Row)
  (db : DB) :
  failed (fst (import_church_data (rows1 ++ [row]) db))
  = S (failed (fst (import_church_data rows1 db))) ->
  let s := fst (import_church_data (rows1 ++ row :: rows2) db) in
  let s' := fst (import_church_data (rows1 ++ rows2) db) in
  created s = created s' /\ updated s = updated s'
  /\ failed s = S (failed s')
  /\ snd (import_church_data (rows1 ++ row :: rows2) db)
     = snd (import_church_data (rows1 ++ rows2) db).
Proof.
  intros Hfail. cbv zeta.
  destruct (import_church_data_loop (rows1 ++ row :: rows2) db)
    as (-> & -> & -> & ->).
  destruct (import_church_data_loop (rows1 ++ rows2) db)
    as (-> & -> & -> & ->).
  destruct (import_church_data_loop (rows1 ++ [row]) db) as (_ & _ & Hf1 & _).
  destruct (import_church_data_loop rows1 db) as (_ & _ & Hf0 & _).
  rewrite Hf1, Hf0 in Hfail. clear Hf1 Hf0.
  rewrite !import_loop_app in *. cbn [import_loop] in *.
  set (st1 := import_loop 1 rows1 (mkImportState 0 0 0 [] db)) in *.
  destruct (import_row_fails_or_not (1 + length rows1) row st1)
    as [(Hf & Hc & Hu & Hdb) | Hsame]; [| lia].
  destruct (import_loop_continue rows2 (S (1 + length rows1))
              (1 + length rows1) _ st1 Hc Hu Hdb)
    as (Hc2 & Hu2 & Hdb2 & Hf2).
  repeat split; try assumption. lia.
Qed.

(** C5.  An empty list is refused: success is false, the message says that
    no data was provided and every count is zero.  For a non-empty list the
    summary reports success; every row is counted once as created, updated
    or failed; and each row lacking a required field after trimming is in
    the failure list under its 1-based position.  Processing continues
    after a failure: a row lacking a required field, and more generally any
    row that is counted as failed, leaves the rows before and after it to
    be imported exactly as if it were not in the list, with the same
    created and updated counts and the same table, and one more failure.
    A row with all required fields that is new to the table and passes
    field validation, together with a row with an empty name, in either
    order, gives created=1, failed=1 and success. *)
Theorem import_church_data_per_row_failures :
  (forall db : DB,
      import_church_data [] db
      = (mkImportSummary false "No church data provided" 0 0 0 0 [], db))
  /\ (forall (rows : list Row) (db : DB),
        rows <> [] ->
        let s := fst (import_church_data rows db) in
        import_success s = true
        /\ total s = length rows
        /\ (created s + updated s + failed s)%nat = length rows
        /\ forall (k : nat) (row : Row),
             nth_error rows k = Some row -> missing_required row ->
             In (mkFailedRecord (S k) row missing_fields_error)
                (failed_records s))
  /\ (forall (db : DB) (good bad : Row),
        ~ missing_required good ->
        lookup (name (church_of_row good))
          (street_address (church_of_row good))
          (city (church_of_row good)) (state (church_of_row good)) db = [] ->
        clean_fields (church_of_row good) = None ->
        strip (default_get (row_name bad) EmptyString) = EmptyString ->
        let s := fst (import_church_data [good; bad] db) in
        import_success s = true
        /\ total s = 2%nat /\ created s = 1%nat
        /\ updated s = 0%nat /\ failed s = 1%nat
        /\ failed_records s = [mkFailedRecord 2 bad missing_fields_error])
  /\ (forall (rows1 rows2 : list Row) (bad : Row) (db : DB),
        missing_required bad ->
        let s := fst (import_church_data (rows1 ++ bad :: rows2) db) in
        let s' := fst (import_church_data (rows1 ++ rows2) db) in
        created s = created s' /\ updated s = updated s'
        /\ failed s = S (failed s')
        /\ snd (import_church_data (rows1 ++ bad :: rows2) db)
           = snd (import_church_data (rows1 ++ rows2) db))
  /\ (forall (rows1 rows2 : list Row) (row : Row) (db : DB),
        failed (fst (import_church_data (rows1 ++ [row]) db))
        = S (failed (fst (import_church_data rows1 db))) ->
        let s := fst (import_church_data (rows1 ++ row :: rows2) db) in
        let s' := fst (import_church_data (rows1 ++ rows2) db) in
        created s = created s' /\ updated s = updated s'
        /\ failed s = S (failed s')
        /\ snd (import_church_data (rows1 ++ row :: rows2) db)
           = snd (import_church_data (rows1 ++ rows2) db))
  /\ (forall (db : DB) (good bad : Row),
        ~ missing_required good ->
        lookup (name (church_of_row good))
          (street_address (church_of_row good))
          (city (church_of_row good)) (state (church_of_row good)) db = [] ->
        clean_fields (church_of_row good) = None ->
        strip (default_get (row_name bad) EmptyString) = EmptyString ->
        let s := fst (import_church_data [bad; good] db) in
        import_success s = true
        /\ total s = 2%nat /\ created s = 1%nat
        /\ updated s = 0%nat /\ failed s = 1%nat
        /\ failed_records s = [mkFailedRecord 1 bad missing_fields_error]).
Proof.
  split; [| split; [| split; [| split; [| split]]]].
  - intros db. reflexivity.
  - intros rows db Hne. destruct rows as [| r rows]; [contradiction |].
    cbv zeta. unfold import_church_data. cbn [fst import_success total
      created updated failed failed_records].
    destruct (import_loop_effect (r :: rows) 1
                (mkImportState 0 0 0 [] db)) as (Hp & _ & Hin).
    split; [reflexivity |]. split; [reflexivity |]. split.
    + unfold processed in Hp. simpl in Hp. simpl. lia.
    + intros k row Hk Hm. apply (Hin k row Hk Hm).
  - intros db good bad Hg Hl Hf Hb. cbv zeta.
    unfold import_church_data. cbn [fst import_success total
      created updated failed failed_records length].
    cbn [import_loop].
    rewrite (import_row_creates 1 good (mkImportState 0 0 0 [] db) Hg Hl Hf).
    rewrite import_row_missing by (left; exact Hb).
    simpl. repeat split; reflexivity.
  - intros rows1 rows2 bad db Hm.
    apply failing_row_is_passed_over.
    destruct (import_church_data_loop (rows1 ++ [bad]) db)
      as (_ & _ & -> & _).
    destruct (import_church_data_loop rows1 db) as (_ & _ & -> & _).
    rewrite import_loop_app. cbn [import_loop].
    rewrite (import_row_missing _ bad _ Hm). reflexivity.
  - intros rows1 rows2 row db Hfail.
    apply failing_row_is_passed_over. exact Hfail.
  - intros db good bad Hg Hl Hf Hb. cbv zeta.
    unfold import_church_data. cbn [fst import_success total
      created updated failed failed_records length].
    cbn [import_loop].
    rewrite (import_row_missing 1 bad (mkImportState 0 0 0 [] db))
      by (left; exact Hb).
    rewrite (import_row_creates 2 good
               (record_failure 1 bad missing_fields_error
                  (mkImportState 0 0 0 [] db)) Hg Hl Hf).
    simpl. repeat split; reflexivity.
Qed.

End church_data_facts.

Lemma geocode_church_skip_and_failure_leave_record_witness :
  (latitude corner_church = Some (408026 # 10000)%Q
   /\ longitude corner_church = Some (-739162 # 10000)%Q
   /\ @geocode_church permissive (scripted always_timeout)
        (mkChurchDataService None) corner_church false [corner_church]
        empty_world
      = Return (mkChurchResult true "Church already has coordinates" true None,
                mkChurchDataService None, corner_church, [corner_church],
                empty_world))
  /\ (has_coordinates unlocated_church && negb false = false
      /\ result_success
           (fst (fst (fst (fst
              (match @geocode_church permissive (scripted always_timeout)
                       (mkChurchDataService None) unlocated_church false
                       [unlocated_church] empty_world with
               | Return out => out
               | Raise _ =>
                   (skipped_result, mkChurchDataService None,
                    corner_church, [], empty_world)
               end)))))
         = false).
Proof.
  destruct (@geocode_church_skip_and_failure_leave_record permissive
              (scripted always_timeout)) as (Hskip & Hfail & _).
  split.
  - split; [reflexivity |]. split; [reflexivity |].
    exact (Hskip (mkChurchDataService None) corner_church [corner_church]
             empty_world _ _ eq_refl eq_refl).
  - split; [reflexivity |].
    rewrite (Hfail (mkChurchDataService None) unlocated_church false
               [unlocated_church] empty_world
               (snd (@geocode_address (scripted always_timeout)
                       (full_address unlocated_church) "US" None None true
                       empty_world))
               (mkGeocodingService "test_api_key_12345")
               (Some
                  "Geocoding failed after 4 attempts: Request timeout: Request timed out")
               eq_refl eq_refl).
    + reflexivity.
    + vm_compute. reflexivity.
Defined.

Lemma import_church_data_per_row_failures_witness :
  (~ missing_required valid_row
   /\ strip (default_get (row_name empty_name_row) EmptyString) = EmptyString)
  /\ (let s := fst (@import_church_data permissive
                      [valid_row; empty_name_row] []) in
      import_success s = true /\ created s = 1%nat /\ failed s = 1%nat)
  /\ (let s := fst (@import_church_data permissive
                      [empty_name_row; valid_row] []) in
      import_success s = true /\ created s = 1%nat /\ failed s = 1%nat).
Proof.
  destruct (@import_church_data_per_row_failures permissive)
    as (_ & _ & Hex & _ & _ & Hrev).
  assert (Hg : ~ missing_required valid_row).
  { intros [Hm | [Hm | [Hm | Hm]]]; vm_compute in Hm; discriminate. }
  split; [split; [exact Hg | reflexivity] |].
  destruct (Hex [] valid_row empty_name_row Hg eq_refl eq_refl eq_refl)
    as (Hs & _ & Hc & _ & Hf & _).
  destruct (Hrev [] valid_row empty_name_row Hg eq_refl eq_refl eq_refl)
    as (Hs' & _ & Hc' & _ & Hf' & _).
  cbv zeta. split; [split; [exact Hs |]; split; [exact Hc | exact Hf] |].
  split; [exact Hs' |]. split; [exact Hc' | exact Hf'].
Defined.

End ServicesSpec.

Module ViewsSpec.
Import Py Models Services Views Samples.

Local Open Scope R_scope.

(** ** Real-number facts behind the distance of the sample church *)

Lemma sin_lower (x : R) :
  0 <= x -> x <= 1 -> x - x ^ 3 / 6 - x ^ 7 / 5040 <= sin x.
Proof.
  intros H0 H1.
  assert (Hpi : x <= PI) by (pose proof PI2_1; lra).
  destruct (SIN x H0 Hpi) as [Hlb _].
  unfold sin_lb, sin_approx, sin_term in Hlb.
  simpl sum_f_R0 in Hlb.
  unfold Rdiv in Hlb.
  replace (INR (fact (2 * 0 + 1))) with 1 in Hlb by (simpl; lra).
  replace (INR (fact (2 * 1 + 1))) with 6 in Hlb by (simpl; lra).
  replace (INR (fact (2 * 2 + 1))) with 120 in Hlb.
  2:{ change (2 * 2 + 1)%nat with 5%nat. unfold fact.
      rewrite !mult_INR. simpl. lra. }
  replace (INR (fact (2 * 3 + 1))) with 5040 in Hlb.
  2:{ change (2 * 3 + 1)%nat with 7%nat. unfold fact.
      rewrite !mult_INR. simpl. lra. }
  simpl in Hlb.
  assert (0 <= x ^ 5) by (apply pow_le; lra).
  nra.
Qed.

Lemma sin_small (x : R) : 0 <= x -> x <= 1 / 100 -> 99 / 100 * x <= sin x.
Proof.
  intros H0 H1.
  pose proof (sin_lower x H0 ltac:(lra)) as Hs.
  assert (Hx2 : x ^ 2 <= 1 / 10000) by nra.
  assert (Hx2' : 0 <= x ^ 2) by nra.
  assert (Hx3 : x ^ 3 <= x / 10000) by nra.
  assert (Hx6 : x ^ 6 <= 1).
  { rewrite <- (pow1 6). apply pow_incr. lra. }
  assert (Hx6' : 0 <= x ^ 6) by (apply pow_le; lra).
  assert (Hx7 : x ^ 7 <= x) by (replace (x ^ 7) with (x * x ^ 6) by ring; nra).
  lra.
Qed.

Lemma cos_half (x : R) : 0 <= x -> x <= PI / 3 -> 1 / 2 <= cos x.
Proof.
  intros H0 H1. rewrite <- cos_PI3.
  pose proof PI_RGT_0.
  apply cos_decr_1; lra.
Qed.

(** The sample church is more than 10 km from 40.7128, -74.0060. *)
Lemma corner_distance :
  10 < _haversine_distance (Q2R (408026 # 10000)) (Q2R (-739162 # 10000))
         (Q2R (407128 # 10000)) (Q2R (-740060 # 10000)).
Proof.
  unfold _haversine_distance, radians. cbv zeta.
  unfold Q2R. simpl Qnum. simpl Qden.
  set (d := 449 / 10000 * (PI / 180)).
  repeat match goal with
         | |- context [sin (?x / 2)] =>
             replace (x / 2) with (- d) by (unfold d; lra)
         end.
  rewrite sin_neg.
  replace ((- sin d) ^ 2) with (sin d ^ 2) by ring.
  pose proof PI2_3_2 as Hpi3. pose proof PI_4 as Hpi4.
  assert (Hd0 : 0 <= d) by (unfold d; lra).
  assert (Hd1 : d <= 1 / 1000) by (unfold d; lra).
  assert (Hdl : 748 / 1000000 <= d) by (unfold d; lra).
  pose proof (sin_small d Hd0 ltac:(lra)) as Hsl.
  assert (Hsu : sin d <= d).
  { destruct (Req_dec d 0) as [-> | Hne]; [rewrite sin_0; lra |].
    left. apply sin_lt_x. lra. }
  match goal with
  | |- context [cos ?x * cos ?y * _] =>
      assert (Hc1 : 1 / 2 <= cos x) by (apply cos_half; lra);
      assert (Hc2 : 1 / 2 <= cos y) by (apply cos_half; lra);
      pose proof (COS_bound x) as [_ Hb1];
      pose proof (COS_bound y) as [_ Hb2];
      set (c1 := cos x) in *; set (c2 := cos y) in *
  end.
  set (s := sin d) in *.
  set (a := s ^ 2 + c1 * c2 * s ^ 2).
  assert (Hs0 : 0 <= s) by lra.
  assert (Hcc : 1 / 4 <= c1 * c2) by nra.
  assert (Hcc1 : c1 * c2 <= 1) by nra.
  assert (Hs2 : 0 <= s ^ 2) by nra.
  assert (Hs2l : (99 / 100 * (748 / 1000000)) ^ 2 <= s ^ 2) by nra.
  assert (Hs2u : s ^ 2 <= 1 / 1000000) by nra.
  assert (Ha_lo : (10 / 12742) ^ 2 < a) by (unfold a; nra).
  assert (Ha_hi : a <= 1) by (unfold a; nra).
  assert (Ha0 : 0 <= a) by (unfold a; nra).
  destruct (Rlt_le_dec 10 (2 * asin (sqrt a) * 6371)) as [Hgt | Hle];
    [exact Hgt | exfalso].
  assert (Hq0 : 0 <= sqrt a) by apply sqrt_pos.
  assert (Hq1 : sqrt a <= 1).
  { rewrite <- sqrt_1. apply sqrt_le_1_alt. exact Ha_hi. }
  pose proof (asin_bound (sqrt a)) as [Hab1 Hab2].
  assert (Hasin : asin (sqrt a) <= 10 / 12742) by lra.
  assert (Hsin : sin (asin (sqrt a)) <= sin (10 / 12742)).
  { apply sin_incr_1; lra. }
  rewrite sin_asin in Hsin by lra.
  assert (Ht : sin (10 / 12742) < 10 / 12742) by (apply sin_lt_x; lra).
  assert (Hqa : sqrt a * sqrt a = a) by (apply sqrt_sqrt; exact Ha0).
  nra.
Qed.

Lemma Rle_bool_true (x y : R) : x <= y -> Rle_bool x y = true.
Proof. intros Hxy. unfold Rle_bool. destruct (Rle_dec x y); tauto. Qed.

Lemma Rle_bool_spec (x y : R) : Rle_bool x y = true -> x <= y.
Proof. unfold Rle_bool. destruct (Rle_dec x y); [tauto | discriminate]. Qed.

(** The sample church lies inside the bounding box of the 10 km search. *)
Lemma corner_in_box :
  find_nearby (Q2R (407128 # 10000)) (Q2R (-740060 # 10000)) (Q2R (10 # 1))
    [corner_church]
  = [corner_church].
Proof.
  unfold find_nearby. cbv zeta.
  assert (Hc : 0 < cos (radians (Q2R (407128 # 10000))) <= 1).
  { split; [| apply COS_bound].
    pose proof PI_RGT_0.
    apply cos_gt_0; unfold radians, Q2R; cbn [Qnum Qden]; lra. }
  set (c := cos (radians (Q2R (407128 # 10000)))) in *.
  assert (Hr : Q2R (10 # 1) = 10) by (unfold Q2R; cbn [Qnum Qden]; lra).
  rewrite Hr.
  assert (Hd : 10 / 111.32 <= 10 / (111.32 * c)).
  { apply Rmult_le_compat_l; [lra |].
    apply Rinv_le_contravar; nra. }
  assert (Hv : 0.0898 <= 10 / 111.32).
  { apply Rmult_le_reg_r with 111.32; [lra |]. field_simplify; lra. }
  set (t := 10 / 111.32) in *.
  set (t2 := 10 / (111.32 * c)) in *.
  unfold corner_church. cbn [List.filter latitude longitude is_active].
  unfold column_range, Q2R. cbn [Qnum Qden].
  rewrite !Rle_bool_true; [reflexivity | lra | lra | lra | lra].
Qed.

Section search_facts.
Context `{Runtime} `{RequestParsing}.

(** What a proximity search returns, for any centre and radius: active
    stored churches inside the bounding box, each with its great-circle
    distance to the centre. *)
Lemma nearby_with_distance_spec (lat0 lng0 radius0 : R) (db : DB)
  (r : Church) (d : option R) :
  In (r, d) (nearby_with_distance lat0 lng0 radius0 db) ->
  In r db /\ is_active r = true
  /\ exists la lo : Q,
      latitude r = Some la /\ longitude r = Some lo
      /\ in_bounding_box lat0 lng0 radius0 la lo
      /\ d = Some (_haversine_distance (Q2R la) (Q2R lo) lat0 lng0).
Proof.
  unfold nearby_with_distance, find_nearby. intros Hin.
  apply in_map_iff in Hin as (c & [= <- <-] & Hc).
  apply filter_In in Hc as (Hdb & Hf).
  apply andb_prop in Hf as [Hf Hact]. apply andb_prop in Hf as [Hla Hlo].
  split; [exact Hdb |]. split; [exact Hact |].
  unfold column_range in Hla, Hlo. unfold distance_to_point.
  destruct (latitude c) as [la |]; [| discriminate].
  destruct (longitude c) as [lo |]; [| discriminate].
  apply andb_prop in Hla as [Hla1 Hla2]. apply andb_prop in Hlo as [Hlo1 Hlo2].
  apply Rle_bool_spec in Hla1, Hla2, Hlo1, Hlo2.
  exists la, lo. unfold in_bounding_box. repeat split; assumption.
Qed.

Lemma get_queryset_by_coordinates (params : QueryParams) (db : DB)
  (w : World) (lat0 lng0 : string) (lat1 lng1 : Q) :
  lat params = Some lat0 -> lng params = Some lng0 ->
  float_of_str lat0 = Some lat1 -> float_of_str lng0 = Some lng1 ->
  truthy lat0 = true -> truthy lng0 = true ->
  get_queryset params db w
  = (nearby_with_distance (Q2R lat1) (Q2R lng1)
       (Q2R (parsed_radius params)) db, [], w).
Proof.
  intros Hlat Hlng Hf1 Hf2 Ht1 Ht2. unfold get_queryset, given.
  rewrite Hlat, Hlng, Ht1, Ht2. simpl. rewrite Hf1, Hf2. reflexivity.
Qed.

(** C3, amended.  For [lat=40.7128], [lng=-74.0060], [radius=10], every
    record of the result is an active stored church whose coordinates lie
    inside the bounding box (within 10/111.32 degrees of the latitude and
    10/(111.32 cos lat) degrees of the longitude), and it carries a
    distance, the great-circle distance to the centre; the search touches
    neither the log nor the world. *)
Theorem proximity_search_returns_bounding_box
  (params : QueryParams) (db : DB) (w : World) (r : Church) (d : option R) :
  lat params = Some "40.7128" -> lng params = Some "-74.0060" ->
  radius params = Some "10" ->
  float_of_str "40.7128" = Some (407128 # 10000)%Q ->
  float_of_str "-74.0060" = Some (-740060 # 10000)%Q ->
  float_of_str "10" = Some (10 # 1)%Q ->
  In (r, d) (fst (fst (get_queryset params db w))) ->
  snd (get_queryset params db w) = w
  /\ snd (fst (get_queryset params db w)) = []
  /\ In r db /\ is_active r = true
  /\ exists (la lo : Q) (x : R),
      latitude r = Some la /\ longitude r = Some lo
      /\ in_bounding_box (Q2R (407128 # 10000)) (Q2R (-740060 # 10000))
           (Q2R (10 # 1)) la lo
      /\ d = Some x
      /\ x = _haversine_distance (Q2R la) (Q2R lo)
               (Q2R (407128 # 10000)) (Q2R (-740060 # 10000)).
Proof.
  intros Hlat Hlng Hrad Hf1 Hf2 Hf3.
  rewrite (get_queryset_by_coordinates params db w _ _ _ _
             Hlat Hlng Hf1 Hf2 eq_refl eq_refl).
  unfold parsed_radius. rewrite Hrad, Hf3. simpl.
  intros Hin. apply nearby_with_distance_spec in Hin
    as (Hdb & Hact & la & lo & Hla & Hlo & Hbox & Hd).
  split; [reflexivity |]. split; [reflexivity |].
  split; [exact Hdb |]. split; [exact Hact |].
  exists la, lo. eexists. repeat split; try eassumption; apply Hbox.
Qed.

Lemma given_false (v : option string) :
  given v = false <-> v = None \/ v = Some EmptyString.
Proof.
  destruct v as [[| c s] |]; simpl; split; intros Hv; try reflexivity;
    try discriminate; auto; destruct Hv; discriminate.
Qed.

Lemma incomplete_not_given (params : QueryParams) :
  incomplete_coordinates params ->
  given (lat params) && given (lng params) = false.
Proof.
  unfold incomplete_coordinates. intros Hi.
  apply andb_false_iff. rewrite !given_false. tauto.
Qed.

Lemma text_search_log (query : string) (radius0 : R) (db : DB) (w : World)
  (a b : string) :
  ~ In (InvalidCoordinates a b) (snd (fst (text_search query radius0 db w))).
Proof.
  unfold text_search.
  destruct (List.filter _ db); simpl; [| tauto].
  destruct (GeocodingService_init None); simpl.
  - destruct (geocode_address query "US" None None true w) as [[] w1];
      simpl; [tauto |]. intros [Hin | []]. discriminate.
  - intros [Hin | []]. discriminate.
Qed.

(** C10.  When one of [lat], [lng] is absent or empty, the coordinate
    branch is not entered: the search is the one made with neither
    coordinate; it is the text search when [q] is non-empty and the empty
    result, with nothing logged and the world untouched, otherwise; and no
    invalid-coordinates record is logged. *)
Theorem incomplete_coordinates_are_ignored
  (params : QueryParams) (db : DB) (w : World) :
  incomplete_coordinates params ->
  get_queryset params db w
  = get_queryset (mkQueryParams (q params) None None (radius params)) db w
  /\ (truthy (default_get (q params) EmptyString) = true ->
      get_queryset params db w
      = text_search (default_get (q params) EmptyString)
          (Q2R (parsed_radius params)) db w)
  /\ (truthy (default_get (q params) EmptyString) = false ->
      get_queryset params db w = ([], [], w))
  /\ forall a b : string,
       ~ In (InvalidCoordinates a b) (snd (fst (get_queryset params db w))).
Proof.
  intros Hi. apply incomplete_not_given in Hi.
  unfold get_queryset. rewrite Hi. simpl.
  split; [reflexivity |]. split; [| split].
  - intros Hq. rewrite Hq. reflexivity.
  - intros Hq. rewrite Hq. reflexivity.
  - intros a b. destruct (truthy (default_get (q params) EmptyString)).
    + apply text_search_log.
    + simpl. tauto.
Qed.

End search_facts.

Lemma proximity_search_returns_bounding_box_witness :
  In (corner_church,
      Some (_haversine_distance (Q2R (408026 # 10000)) (Q2R (-739162 # 10000))
              (Q2R (407128 # 10000)) (Q2R (-740060 # 10000))))
     (fst (fst (@get_queryset (scripted always_timeout) sample_parsing
                  sample_search [corner_church] empty_world)))
  /\ In corner_church [corner_church]
  /\ is_active corner_church = true.
Proof.
  assert (Hin :
    In (corner_church,
        Some (_haversine_distance (Q2R (408026 # 10000))
                (Q2R (-739162 # 10000))
                (Q2R (407128 # 10000)) (Q2R (-740060 # 10000))))
       (fst (fst (@get_queryset (scripted always_timeout) sample_parsing
                    sample_search [corner_church] empty_world)))).
  { rewrite (@get_queryset_by_coordinates
               (scripted always_timeout) sample_parsing sample_search
               [corner_church] empty_world "40.7128" "-74.0060"
               (407128 # 10000)%Q (-740060 # 10000)%Q
               eq_refl eq_refl eq_refl eq_refl eq_refl eq_refl).
    change (parsed_radius sample_search) with (10 # 1)%Q.
    unfold nearby_with_distance. cbn [fst]. rewrite corner_in_box.
    left. reflexivity. }
  split; [exact Hin |].
  destruct (@proximity_search_returns_bounding_box
              (scripted always_timeout) sample_parsing sample_search
              [corner_church] empty_world corner_church _
              eq_refl eq_refl eq_refl eq_refl eq_refl eq_refl Hin)
    as (_ & _ & Hdb & Hact & _).
  split; [exact Hdb | exact Hact].
Defined.

Lemma incomplete_coordinates_are_ignored_witness :
  incomplete_coordinates
    (mkQueryParams None (Some "40.7128") None None)
  /\ @get_queryset (scripted always_timeout) sample_parsing
       (mkQueryParams None (Some "40.7128") None None) [corner_church]
       empty_world
     = ([], [], empty_world).
Proof.
  assert (Hi : incomplete_coordinates
                 (mkQueryParams None (Some "40.7128") None None))
    by (right; right; left; reflexivity).
  split; [exact Hi |].
  destruct (@incomplete_coordinates_are_ignored
              (scripted always_timeout) sample_parsing
              (mkQueryParams None (Some "40.7128") None None)
              [corner_church] empty_world Hi) as (_ & _ & Hempty & _).
  apply Hempty. reflexivity.
Defined.

(** C3, as stated, fails: with only the sample church stored, the search
    at [lat=40.7128], [lng=-74.0060], [radius=10] returns it, annotated
    with a distance greater than 10 km. *)
Lemma proximity_result_beyond_radius :
  exists x : R,
    In (corner_church, Some x)
       (fst (fst (@get_queryset (scripted always_timeout) sample_parsing
                    sample_search [corner_church] empty_world)))
    /\ 10 < x.
Proof.
  eexists. split.
  - rewrite (@get_queryset_by_coordinates
               (scripted always_timeout) sample_parsing sample_search
               [corner_church] empty_world "40.7128" "-74.0060"
               (407128 # 10000)%Q (-740060 # 10000)%Q
               eq_refl eq_refl eq_refl eq_refl eq_refl eq_refl).
    change (parsed_radius sample_search) with (10 # 1)%Q.
    unfold nearby_with_distance. cbn [fst]. rewrite corner_in_box.
    left. reflexivity.
  - apply corner_distance.
Qed.

End ViewsSpec.

(* ===================================================================== *)
(** * Further properties: churches/models.py *)
(* ===================================================================== *)

Module ModelsFacts.
Import Py Models Samples.

(** ** Rounding to seven places *)

Local Open Scope Q_scope.

Lemma round_half_even_cases (x : Q) :
  exists f : Q,
    inject_Z (Qfloor x) = f /\ f <= x /\ x < f + 1
    /\ ((x - f <= 1 # 2 /\ round_half_even x = Qfloor x)
        \/ (1 # 2 <= x - f /\ round_half_even x = (Qfloor x + 1)%Z)).
Proof.
  exists (inject_Z (Qfloor x)).
  pose proof (Qfloor_le x) as Hlo. pose proof (Qlt_floor x) as Hhi.
  rewrite inject_Z_plus in Hhi. change (inject_Z 1) with 1 in Hhi.
  split; [reflexivity |]. split; [exact Hlo |]. split; [exact Hhi |].
  unfold round_half_even. cbv zeta.
  generalize dependent (inject_Z (Qfloor x)). intros f Hlo Hhi.
  destruct (Qcompare_spec (x - f) (1 # 2)) as [He | Hl | Hg].
  - destruct (Z.even (Qfloor x)).
    + left. split; [Lqa.lra | reflexivity].
    + right. split; [Lqa.lra | reflexivity].
  - left. split; [Lqa.lra | reflexivity].
  - right. split; [Lqa.lra | reflexivity].
Qed.

Lemma round_half_even_near (x : Q) :
  x - (1 # 2) <= inject_Z (round_half_even x) <= x + (1 # 2).
Proof.
  destruct (round_half_even_cases x)
    as (f & Hf & Hlo & Hhi & [[Hr ->] | [Hr ->]]).
  - rewrite Hf. split; Lqa.lra.
  - rewrite inject_Z_plus, Hf. change (inject_Z 1) with 1. split; Lqa.lra.
Qed.

Lemma round_half_even_bounds (x : Q) (lo hi : Z) :
  inject_Z lo <= x <= inject_Z hi ->
  (lo <= round_half_even x <= hi)%Z.
Proof.
  intros [Hl Hh].
  assert (Hf1 : (lo <= Qfloor x)%Z).
  { rewrite <- (Qfloor_Z lo). apply Qfloor_resp_le. exact Hl. }
  assert (Hf2 : (Qfloor x <= hi)%Z).
  { rewrite <- (Qfloor_Z hi). apply Qfloor_resp_le. exact Hh. }
  destruct (round_half_even_cases x)
    as (f & Hf & Hlo & Hhi & [[Hr ->] | [Hr ->]]).
  - lia.
  - split; [lia |].
    assert (Hlt : inject_Z (Qfloor x) < inject_Z hi).
    { rewrite Hf. generalize dependent (inject_Z hi). intros h Hh. Lqa.lra. }
    rewrite <- Zlt_Qlt in Hlt. lia.
Qed.

Lemma round_half_even_Z (n : Z) (x : Q) :
  x == inject_Z n -> round_half_even x = n.
Proof.
  intros Hx.
  assert (Hfl : Qfloor x = n).
  { rewrite (Qfloor_comp _ _ Hx). apply Qfloor_Z. }
  destruct (round_half_even_cases x)
    as (f & Hf & Hlo & Hhi & [[Hr ->] | [Hr ->]]).
  - exact Hfl.
  - exfalso. rewrite Hfl in Hf. rewrite Hf in Hx. Lqa.lra.
Qed.

Lemma quantize7_scaled (x : Q) :
  quantize7 x * (10000000 # 1)
  == inject_Z (round_half_even (x * (10000000 # 1))).
Proof. unfold quantize7, Qeq, Qmult, inject_Z. simpl. lia. Qed.

Lemma quantize7_near (x : Q) : Qabs (quantize7 x - x) <= 1 # 20000000.
Proof.
  pose proof (quantize7_scaled x) as Hs.
  pose proof (round_half_even_near (x * (10000000 # 1))) as [H1 H2].
  apply Qabs_Qle_condition. split; Lqa.lra.
Qed.

Lemma quantize7_idempotent (x : Q) : quantize7 (quantize7 x) = quantize7 x.
Proof.
  unfold quantize7 at 1 3. f_equal.
  apply round_half_even_Z. apply quantize7_scaled.
Qed.

Lemma quantize7_range (x : Q) (b : Z) :
  inject_Z (- b) <= x <= inject_Z b ->
  inject_Z (- b) <= quantize7 x <= inject_Z b.
Proof.
  intros [Hl Hh].
  pose proof (quantize7_scaled x) as Hs.
  assert (Hb : (- b * 10000000 <= round_half_even (x * (10000000 # 1))
                <= b * 10000000)%Z).
  { apply round_half_even_bounds. rewrite !inject_Z_mult.
    change (inject_Z 10000000) with (10000000 # 1). split; Lqa.nra. }
  destruct Hb as [Hb1 Hb2].
  rewrite Zle_Qle in Hb1, Hb2. rewrite !inject_Z_mult in Hb1, Hb2.
  change (inject_Z 10000000) with (10000000 # 1) in Hb1, Hb2.
  split; Lqa.lra.
Qed.

Lemma between_spec (lo x hi : Q) :
  between lo x hi = true <-> lo <= x <= hi.
Proof.
  unfold between. rewrite andb_true_iff, !Qle_bool_iff. tauto.
Qed.

Lemma str_in_spec (s : string) (l : list string) :
  str_in s l = true <-> In s l.
Proof.
  unfold str_in. rewrite existsb_exists. split.
  - intros (x & Hx & He). apply String.eqb_eq in He. subst. exact Hx.
  - intros Hs. exists s. split; [exact Hs | apply String.eqb_refl].
Qed.

Lemma set_coordinates_run (self : Church) (lat0 lon0 : Q) (acc : string) :
  set_coordinates self lat0 lon0 acc
  = if between (-90 # 1) lat0 (90 # 1)
    then if between (-180 # 1) lon0 (180 # 1)
         then if str_in acc accuracy_levels
              then Return
                     (mkChurch (id self) (name self) (street_address self)
                        (city self) (state self) (zip_code self)
                        (Some (quantize7 lat0)) (Some (quantize7 lon0))
                        (phone self) (website self) (email self)
                        (service_times self) acc (is_active self))
              else Raise
                     (ValueError "Accuracy must be 'high', 'medium', or 'low'.")
         else Raise
                (ValueError "Longitude must be between -180 and 180 degrees.")
    else Raise (ValueError "Latitude must be between -90 and 90 degrees.").
Proof.
  unfold set_coordinates, float, mbind, Except_bind, bind, raise_if.
  destruct (between (-90 # 1) lat0 (90 # 1)); cbn [negb]; [| reflexivity].
  destruct (between (-180 # 1) lon0 (180 # 1)); cbn [negb]; [| reflexivity].
  destruct (str_in acc accuracy_levels); reflexivity.
Qed.

(** X1.  [set_coordinates] succeeds exactly when the latitude is within -90..90,
    the longitude within -180..180 and the accuracy one of the three
    levels; otherwise it raises [ValueError].  On success the stored
    coordinates are within 0.00000005 of the arguments and inside their
    ranges, the accuracy is the one given, and no other column changes. *)
Theorem set_coordinates_validates_and_rounds
  (self : Church) (lat0 lon0 : Q) (acc : string) :
  ((exists c, set_coordinates self lat0 lon0 acc = Return c)
   <-> ((-90 # 1) <= lat0 <= (90 # 1)) /\ ((-180 # 1) <= lon0 <= (180 # 1))
       /\ In acc accuracy_levels)
  /\ (forall e, set_coordinates self lat0 lon0 acc = Raise e ->
        exists msg, e = ValueError msg)
  /\ (forall c, set_coordinates self lat0 lon0 acc = Return c ->
        (exists la lo : Q,
            latitude c = Some la /\ longitude c = Some lo
            /\ Qabs (la - lat0) <= 1 # 20000000
            /\ Qabs (lo - lon0) <= 1 # 20000000)
        /\ coordinate_invariant c
        /\ geocoding_accuracy c = acc
        /\ id c = id self /\ name c = name self
        /\ street_address c = street_address self
        /\ city c = city self /\ state c = state self
        /\ zip_code c = zip_code self /\ phone c = phone self
        /\ website c = website self /\ email c = email self
        /\ service_times c = service_times self
        /\ is_active c = is_active self).
Proof.
  rewrite set_coordinates_run.
  pose proof (between_spec (-90 # 1) lat0 (90 # 1)) as Hla.
  pose proof (between_spec (-180 # 1) lon0 (180 # 1)) as Hlo.
  pose proof (str_in_spec acc accuracy_levels) as Hacc.
  destruct (between (-90 # 1) lat0 (90 # 1));
    [| split; [split; [intros [c Hc]; discriminate
                      | intros (H1 & _); apply Hla in H1; discriminate]
              | split; [intros e [= <-]; eexists; reflexivity
                       | intros c Hc; discriminate]]].
  destruct (between (-180 # 1) lon0 (180 # 1));
    [| split; [split; [intros [c Hc]; discriminate
                      | intros (_ & H1 & _); apply Hlo in H1; discriminate]
              | split; [intros e [= <-]; eexists; reflexivity
                       | intros c Hc; discriminate]]].
  destruct (str_in acc accuracy_levels);
    [| split; [split; [intros [c Hc]; discriminate
                      | intros (_ & _ & H1); apply Hacc in H1; discriminate]
              | split; [intros e [= <-]; eexists; reflexivity
                       | intros c Hc; discriminate]]].
  assert (Hr1 : (-90 # 1) <= lat0 <= (90 # 1)) by (apply Hla; reflexivity).
  assert (Hr2 : (-180 # 1) <= lon0 <= (180 # 1)) by (apply Hlo; reflexivity).
  split; [| split].
  - split; [intros _ | intros _; eexists; reflexivity].
    split; [exact Hr1 |]. split; [exact Hr2 | apply Hacc; reflexivity].
  - intros e He. discriminate.
  - intros c [= <-]. cbn [latitude longitude geocoding_accuracy id name
      street_address city state zip_code phone website email service_times
      is_active].
    split.
    { exists (quantize7 lat0), (quantize7 lon0).
      split; [reflexivity |]. split; [reflexivity |].
      split; apply quantize7_near. }
    split.
    { right. exists (quantize7 lat0), (quantize7 lon0).
      split; [reflexivity |]. split; [reflexivity |]. split.
      - apply (quantize7_range lat0 90). exact Hr1.
      - apply (quantize7_range lon0 180). exact Hr2. }
    repeat split; reflexivity.
Qed.

Lemma set_coordinates_validates_and_rounds_witness :
  set_coordinates unlocated_church (407128 # 10000) (-740060 # 10000) "high"
  = Return
      (mkChurch (Some 2%nat) "Test Church" "123 Nonexistent St" "Nowhere"
         "NoState" EmptyString
         (Some (quantize7 (407128 # 10000)))
         (Some (quantize7 (-740060 # 10000)))
         EmptyString EmptyString EmptyString EmptyString "high" true)
  /\ coordinate_invariant
       (mkChurch (Some 2%nat) "Test Church" "123 Nonexistent St" "Nowhere"
          "NoState" EmptyString
          (Some (quantize7 (407128 # 10000)))
          (Some (quantize7 (-740060 # 10000)))
          EmptyString EmptyString EmptyString EmptyString "high" true).
Proof.
  assert (Hrun : set_coordinates unlocated_church (407128 # 10000)
                   (-740060 # 10000) "high"
                 = Return
                     (mkChurch (Some 2%nat) "Test Church" "123 Nonexistent St"
                        "Nowhere" "NoState" EmptyString
                        (Some (quantize7 (407128 # 10000)))
                        (Some (quantize7 (-740060 # 10000)))
                        EmptyString EmptyString EmptyString EmptyString
                        "high" true))
    by reflexivity.
  split; [exact Hrun |].
  destruct (set_coordinates_validates_and_rounds unlocated_church
              (407128 # 10000) (-740060 # 10000) "high") as (_ & _ & Hok).
  exact (proj1 (proj2 (Hok _ Hrun))).
Defined.

(** X2.  Coordinates written by [set_coordinates] survive being set again: the
    call succeeds and stores the same latitude and longitude. *)
Theorem set_coordinates_is_stable
  (self c1 : Church) (lat0 lon0 : Q) (acc acc' : string) :
  set_coordinates self lat0 lon0 acc = Return c1 ->
  In acc' accuracy_levels ->
  exists (la lo : Q) (c2 : Church),
    latitude c1 = Some la /\ longitude c1 = Some lo
    /\ set_coordinates c1 la lo acc' = Return c2
    /\ latitude c2 = Some la /\ longitude c2 = Some lo.
Proof.
  rewrite set_coordinates_run.
  pose proof (between_spec (-90 # 1) lat0 (90 # 1)) as Hla.
  pose proof (between_spec (-180 # 1) lon0 (180 # 1)) as Hlo.
  destruct (between (-90 # 1) lat0 (90 # 1)); [| discriminate].
  destruct (between (-180 # 1) lon0 (180 # 1)); [| discriminate].
  destruct (str_in acc accuracy_levels); [| discriminate].
  intros [= <-] Hacc.
  exists (quantize7 lat0), (quantize7 lon0).
  rewrite set_coordinates_run.
  assert (H1 : between (-90 # 1) (quantize7 lat0) (90 # 1) = true).
  { apply between_spec. apply (quantize7_range lat0 90). apply Hla.
    reflexivity. }
  assert (H2 : between (-180 # 1) (quantize7 lon0) (180 # 1) = true).
  { apply between_spec. apply (quantize7_range lon0 180). apply Hlo.
    reflexivity. }
  apply str_in_spec in Hacc. rewrite H1, H2, Hacc.
  eexists. cbn [latitude longitude].
  rewrite !quantize7_idempotent. repeat split; reflexivity.
Qed.

Lemma set_coordinates_is_stable_witness :
  In "low" accuracy_levels
  /\ exists (la lo : Q) (c2 : Church),
      set_coordinates
        (mkChurch (Some 2%nat) "Test Church" "123 Nonexistent St" "Nowhere"
           "NoState" EmptyString
           (Some (quantize7 (407128 # 10000)))
           (Some (quantize7 (-740060 # 10000)))
           EmptyString EmptyString EmptyString EmptyString "high" true)
        la lo "low" = Return c2
      /\ latitude c2 = Some la /\ longitude c2 = Some lo.
Proof.
  assert (Hin : In "low" accuracy_levels) by (right; right; left; reflexivity).
  split; [exact Hin |].
  destruct (set_coordinates_is_stable unlocated_church _
              (407128 # 10000) (-740060 # 10000) "high" "low" eq_refl Hin)
    as (la & lo & c2 & _ & _ & Hset & Hla & Hlo).
  exists la, lo, c2. split; [exact Hset |]. split; assumption.
Defined.

Close Scope Q_scope.

End ModelsFacts.

(* ===================================================================== *)
(** * Further properties: distances *)
(* ===================================================================== *)

Module DistanceFacts.
Import Py Models Samples.

Local Open Scope R_scope.

Lemma PI_upper : PI < 3.1431.
Proof.
  pose proof (PI_2_3_7_ineq 1) as [_ Hpi].
  unfold tg_alt, PI_2_3_7_tg, Ratan_seq in Hpi.
  simpl in Hpi. lra.
Qed.

Lemma asin_nonneg (x : R) : 0 <= x -> 0 <= asin x.
Proof.
  intros Hx. unfold asin.
  destruct (Rle_dec x (-1)); [lra |].
  destruct (Rle_dec 1 x); [pose proof PI_RGT_0; lra |].
  assert (Hs : 0 < sqrt (1 - x²)).
  { apply sqrt_lt_R0. unfold Rsqr. nra. }
  destruct (Req_dec x 0) as [-> | Hne].
  - unfold Rdiv. rewrite Rmult_0_l, atan_0. lra.
  - left. rewrite <- atan_0. apply atan_increasing.
    apply Rdiv_lt_0_compat; lra.
Qed.

Lemma haversine_nonneg (lat1 lon1 lat2 lon2 : R) :
  0 <= _haversine_distance lat1 lon1 lat2 lon2.
Proof.
  unfold _haversine_distance. cbv zeta.
  match goal with
  | |- 0 <= 2 * asin (sqrt ?a) * _ =>
      pose proof (asin_nonneg (sqrt a) (sqrt_pos a))
  end.
  lra.
Qed.

Lemma haversine_at_most (lat1 lon1 lat2 lon2 : R) :
  _haversine_distance lat1 lon1 lat2 lon2 <= PI * 6371.
Proof.
  unfold _haversine_distance. cbv zeta.
  match goal with |- 2 * asin ?x * _ <= _ => pose proof (asin_bound x) end.
  lra.
Qed.

Lemma haversine_swap (lat1 lon1 lat2 lon2 : R) :
  _haversine_distance lat1 lon1 lat2 lon2
  = _haversine_distance lat2 lon2 lat1 lon1.
Proof.
  unfold _haversine_distance. cbv zeta.
  replace ((radians lat1 - radians lat2) / 2)
    with (- ((radians lat2 - radians lat1) / 2)) by lra.
  replace ((radians lon1 - radians lon2) / 2)
    with (- ((radians lon2 - radians lon1) / 2)) by lra.
  rewrite !sin_neg.
  rewrite (Rmult_comm (cos (radians lat2)) (cos (radians lat1))).
  f_equal. f_equal. f_equal. f_equal. ring.
Qed.

Lemma haversine_same_point (lat0 lon0 : R) :
  _haversine_distance lat0 lon0 lat0 lon0 = 0.
Proof.
  unfold _haversine_distance. cbv zeta.
  replace ((radians lat0 - radians lat0) / 2) with 0 by lra.
  replace ((radians lon0 - radians lon0) / 2) with 0 by lra.
  rewrite sin_0.
  replace (0 ^ 2 + cos (radians lat0) * cos (radians lat0) * 0 ^ 2)
    with 0 by lra.
  rewrite sqrt_0, asin_0. lra.
Qed.

(** X3.  The distance from a church to a point is defined exactly when the
    church has coordinates, and is then between 0 and half the
    circumference of the sphere of radius 6371 km. *)
Theorem distance_to_point_defined_and_bounded
  (c : Church) (lat0 lng0 : R) :
  (distance_to_point c lat0 lng0 = None <-> has_coordinates c = false)
  /\ (forall d : R, distance_to_point c lat0 lng0 = Some d ->
        0 <= d <= PI * 6371).
Proof.
  unfold distance_to_point, has_coordinates, coordinates.
  destruct (latitude c) as [la |], (longitude c) as [lo |]; simpl;
    (split; [split; intros; try reflexivity; try discriminate |]);
    intros d Hd; try discriminate.
  injection Hd as <-. split; [apply haversine_nonneg | apply haversine_at_most].
Qed.

Lemma distance_to_point_defined_and_bounded_witness :
  distance_to_point corner_church 40.7128 (-74.0060)
  = Some (_haversine_distance (Q2R (408026 # 10000)) (Q2R (-739162 # 10000))
            40.7128 (-74.0060))
  /\ 0 <= _haversine_distance (Q2R (408026 # 10000))
            (Q2R (-739162 # 10000)) 40.7128 (-74.0060).
Proof.
  assert (Hd : distance_to_point corner_church 40.7128 (-74.0060)
               = Some (_haversine_distance (Q2R (408026 # 10000))
                         (Q2R (-739162 # 10000)) 40.7128 (-74.0060)))
    by reflexivity.
  split; [exact Hd |].
  exact (proj1 (proj2 (distance_to_point_defined_and_bounded
                         corner_church 40.7128 (-74.0060)) _ Hd)).
Defined.

(** X4.  [distance_to] does not depend on which of the two churches is asked,
    is [None] exactly when one of them lacks coordinates, is the distance
    from the first church to the coordinates of the second, and is 0 from a
    located church to itself. *)
Theorem distance_to_symmetric (a b : Church) :
  distance_to a b = distance_to b a
  /\ (distance_to a b = None
      <-> has_coordinates a = false \/ has_coordinates b = false)
  /\ distance_to a b
     = match coordinates b with
       | Some (la, lo) => distance_to_point a (Q2R la) (Q2R lo)
       | None => None
       end
  /\ (has_coordinates a = true -> distance_to a a = Some 0).
Proof.
  unfold distance_to, distance_to_point, has_coordinates, coordinates, float.
  destruct (latitude a) as [la1 |], (longitude a) as [lo1 |],
    (latitude b) as [la2 |], (longitude b) as [lo2 |]; cbn [is_None negb orb];
    (split; [| split; [| split]]);
    try reflexivity;
    try (split; [discriminate | intros [Hn | Hn]; discriminate]);
    try (split; [intros _; auto | reflexivity]);
    try (intros Hc; discriminate).
  all: try (f_equal; apply haversine_swap).
  all: intros _; f_equal; apply haversine_same_point.
Qed.

Lemma distance_to_symmetric_witness :
  has_coordinates corner_church = true
  /\ distance_to corner_church corner_church = Some 0.
Proof.
  split; [reflexivity |].
  exact (proj2 (proj2 (proj2 (distance_to_symmetric corner_church
                                corner_church))) eq_refl).
Defined.

(** ** The bounding box *)

End DistanceFacts.

(* ===================================================================== *)
(** * Further properties: GeocodingService *)
(* ===================================================================== *)

Module GeocodingFacts.
Import Py Models Services Samples.

Lemma determine_accuracy_levels (props : Properties) :
  In (_determine_accuracy props) accuracy_levels.
Proof.
  unfold _determine_accuracy, accuracy_levels. cbv zeta.
  destruct (_ && _); [left; reflexivity |].
  destruct (_ || _); [right; left; reflexivity |].
  right; right; left; reflexivity.
Qed.



Section geocoding_more.
Context `{Runtime}.


(** ** The cache *)

Lemma no_cache_events_nil : no_cache_events [].
Proof. intros ev []. Qed.

Lemma no_cache_events_app (evs1 evs2 : list Event) :
  no_cache_events evs1 -> no_cache_events evs2 ->
  no_cache_events (evs1 ++ evs2).
Proof.
  intros H1 H2 ev Hin. apply in_app_or in Hin as [Hin | Hin]; auto.
Qed.

Lemma wait_effect (attempt : nat) (retries : Z) (w : World) :
  exists evs : list Event,
    trace (wait_before_retry attempt retries w) = trace w ++ evs
    /\ no_cache_events evs
    /\ cache (wait_before_retry attempt retries w) = cache w.
Proof.
  unfold wait_before_retry. destruct (_ <? _)%Z.
  - exists [EvSleep DEFAULT_RETRY_DELAY]. split; [reflexivity |].
    split; [| reflexivity]. intros ev [<- | []]. reflexivity.
  - exists []. split; [symmetry; apply app_nil_r |].
    split; [apply no_cache_events_nil | reflexivity].
Qed.

(** What the loop does to the cache: nothing, unless it returns a
    successful result with [use_cache], in which case its last act is to
    store that result under the key of the address. *)
Lemma loop_cache (address country : string) (timeout retries : Z)
  (use_cache : bool) (rng : list nat) (last_error : option string)
  (w : World) :
  let out :=
    attempt_loop address country timeout retries use_cache rng last_error w in
  exists evs : list Event,
    trace (snd out) = trace w ++ evs
    /\ match fst out with
       | Returned res =>
           if success res && use_cache
           then exists evs0 : list Event,
               evs = evs0 ++ [EvCacheSet (_get_cache_key address country)
                                CACHE_TIMEOUT]
               /\ no_cache_events evs0
               /\ cache (snd out)
                  = <[_get_cache_key address country := res]> (cache w)
           else no_cache_events evs /\ cache (snd out) = cache w
       | Fell _ => no_cache_events evs /\ cache (snd out) = cache w
       end.
Proof.
  revert last_error w.
  induction rng as [| attempt rest IH]; intros last_error w; cbv zeta.
  - simpl. exists []. split; [symmetry; apply app_nil_r |].
    split; [apply no_cache_events_nil | reflexivity].
  - assert (Hreq : no_cache_events [EvRequest address country timeout]).
    { intros ev [<- | []]. reflexivity. }
    assert (Hgo : forall (e : option string) (w1 : World) (evs1 : list Event),
              trace w1 = (trace w ++ [EvRequest address country timeout])
                         ++ evs1 ->
              no_cache_events evs1 -> cache w1 = cache w ->
              let out := attempt_loop address country timeout retries
                           use_cache rest e w1 in
              exists evs : list Event,
                trace (snd out) = trace w ++ evs
                /\ match fst out with
                   | Returned res =>
                       if success res && use_cache
                       then exists evs0 : list Event,
                           evs = evs0 ++ [EvCacheSet
                                            (_get_cache_key address country)
                                            CACHE_TIMEOUT]
                           /\ no_cache_events evs0
                           /\ cache (snd out)
                              = <[_get_cache_key address country := res]>
                                  (cache w)
                       else no_cache_events evs /\ cache (snd out) = cache w
                   | Fell _ =>
                       no_cache_events evs /\ cache (snd out) = cache w
                   end).
    { intros e w1 evs1 Htr Hno Hca. cbv zeta.
      destruct (IH e w1) as (evs & Hevs & Hm).
      exists (([EvRequest address country timeout] ++ evs1) ++ evs).
      split; [rewrite Hevs, Htr, <- !app_assoc; reflexivity |].
      destruct (fst (attempt_loop address country timeout retries use_cache
                       rest e w1)) as [res | le].
      - destruct (success res && use_cache).
        + destruct Hm as (evs0 & -> & Hq & Hc).
          exists (([EvRequest address country timeout] ++ evs1) ++ evs0).
          split; [rewrite <- !app_assoc; reflexivity |].
          split; [| rewrite Hc, Hca; reflexivity].
          apply no_cache_events_app; [| exact Hq].
          apply no_cache_events_app; assumption.
        + destruct Hm as [Hq Hc]. split; [| rewrite Hc; exact Hca].
          apply no_cache_events_app; [| exact Hq].
          apply no_cache_events_app; assumption.
      - destruct Hm as [Hq Hc]. split; [| rewrite Hc; exact Hca].
        apply no_cache_events_app; [| exact Hq].
        apply no_cache_events_app; assumption. }
    simpl attempt_loop.
    destruct (session_get (requests w) address country timeout)
      as [data0 | msg | response msg | msg | msg].
    + cbn [fst snd].
      destruct (success (_parse_geocoding_response data0 address)
                && use_cache) eqn:Hs.
      * eexists ([EvRequest address country timeout] ++ [EvCacheSet _ _]).
        split; [unfold _cache_result, emit; cbn [trace];
                rewrite <- app_assoc; reflexivity |].
        exists [EvRequest address country timeout].
        split; [reflexivity |]. split; [exact Hreq | reflexivity].
      * exists [EvRequest address country timeout].
        split; [reflexivity |]. split; [exact Hreq | reflexivity].
    + match goal with
      | |- context [wait_before_retry attempt retries ?w0] =>
          destruct (wait_effect attempt retries w0) as (evs1 & Htr & Hno & Hca)
      end.
      eapply Hgo; [exact Htr | exact Hno | exact Hca].
    + destruct (is_rate_limit response).
      * destruct (Z.of_nat attempt <? retries)%Z.
        -- eapply (Hgo _ _ [EvSleep _]); [reflexivity | | reflexivity].
           intros ev [<- | []]. reflexivity.
        -- match goal with
           | |- context [wait_before_retry attempt retries ?w0] =>
               destruct (wait_effect attempt retries w0)
                 as (evs1 & Htr & Hno & Hca)
           end.
           eapply Hgo; [exact Htr | exact Hno | exact Hca].
      * cbn [fst snd]. exists [EvRequest address country timeout].
        split; [reflexivity |]. split; [exact Hreq | reflexivity].
    + match goal with
      | |- context [wait_before_retry attempt retries ?w0] =>
          destruct (wait_effect attempt retries w0) as (evs1 & Htr & Hno & Hca)
      end.
      eapply Hgo; [exact Htr | exact Hno | exact Hca].
    + cbn [fst snd]. exists [EvRequest address country timeout].
      split; [reflexivity |]. split; [exact Hreq | reflexivity].
Qed.

Lemma geocode_address_run (address country : string)
  (timeout retries : option Z) (use_cache : bool) (w : World) :
  truthy (strip address) = true ->
  geocode_address address country timeout retries use_cache w
  = let address1 := strip address in
    let timeout1 := or_default timeout DEFAULT_TIMEOUT in
    let retries1 := or_default retries DEFAULT_RETRIES in
    let (cached_result, w0) :=
      if use_cache then _get_cached_result address1 country w
      else (None, w) in
    match cached_result with
    | Some result => (result, w0)
    | None =>
        match attempt_loop address1 country timeout1 retries1 use_cache
                (range (retries1 + 1)) None w0 with
        | (Returned result, w1) => (result, w1)
        | (Fell last_error, w1) =>
            (Failure (Some ("Geocoding failed after "
                            +:+ str_int (retries1 + 1)
                            +:+ " attempts: " +:+ str_last_error last_error)),
             w1)
        end
    end.
Proof.
  intros Hnb. unfold geocode_address.
  assert (Ha : truthy address = true).
  { destruct address; [discriminate Hnb | reflexivity]. }
  rewrite Ha, Hnb. reflexivity.
Qed.

Lemma geocode_address_blank (address country : string)
  (timeout retries : option Z) (use_cache : bool) (w : World) :
  truthy (strip address) = false ->
  geocode_address address country timeout retries use_cache w
  = (Failure (Some "Address cannot be empty"), w).
Proof.
  intros Hb. unfold geocode_address. rewrite Hb.
  rewrite orb_true_r. reflexivity.
Qed.

(** X11.  A call never removes or replaces a cache entry; an entry it adds is
    the successful result it returns, under the key of the trimmed address,
    and only with [use_cache]; without [use_cache] the cache is neither
    read nor written. *)
Theorem geocode_address_cache_discipline
  (address country : string) (timeout retries : option Z) (use_cache : bool)
  (w : World) :
  let out := geocode_address address country timeout retries use_cache w in
  (forall (k : string) (v : GeocodeResult),
      cache w !! k = Some v -> cache (snd out) !! k = Some v)
  /\ (forall (k : string) (v : GeocodeResult),
        cache (snd out) !! k = Some v ->
        cache w !! k = Some v
        \/ (use_cache = true /\ k = _get_cache_key (strip address) country
            /\ v = fst out /\ success v = true))
  /\ (use_cache = false ->
      cache (snd out) = cache w
      /\ no_cache_events (events_since w (snd out))).
Proof.
  cbv zeta.
  destruct (truthy (strip address)) eqn:Hnb.
  2:{ rewrite geocode_address_blank by exact Hnb. cbn [fst snd].
      split; [auto |]. split; [auto |]. intros _. split; [reflexivity |].
      unfold events_since. rewrite drop_all. apply no_cache_events_nil. }
  rewrite geocode_address_run by exact Hnb. cbv zeta.
  set (a := strip address). set (t := or_default timeout DEFAULT_TIMEOUT).
  set (r := or_default retries DEFAULT_RETRIES).
  destruct use_cache.
  - unfold _get_cached_result.
    destruct (cache w !! _get_cache_key a country) as [hit |] eqn:Hhit.
    + cbn [fst snd emit cache]. split; [auto |]. split; [auto |].
      intros Hf. discriminate.
    + pose proof (loop_cache a country t r true (range (r + 1)) None
                    (emit (EvCacheGet (_get_cache_key a country)) w)) as Hl.
      cbv zeta in Hl.
      destruct (attempt_loop a country t r true (range (r + 1)) None
                  (emit (EvCacheGet (_get_cache_key a country)) w))
        as [[res | le] w1].
      * cbn [fst snd] in *. destruct Hl as (evs & _ & Hm).
        rewrite andb_true_r in Hm.
        destruct (success res) eqn:Hs.
        -- destruct Hm as (evs0 & _ & _ & Hc). cbn [emit cache] in Hc.
           rewrite Hc. split; [| split].
           ++ intros k v Hk.
              destruct (decide (_get_cache_key a country = k)) as [<- | Hne].
              ** rewrite Hhit in Hk. discriminate.
              ** rewrite lookup_insert_ne by exact Hne. exact Hk.
           ++ intros k v Hk.
              destruct (decide (_get_cache_key a country = k)) as [<- | Hne].
              ** rewrite lookup_insert_eq in Hk. injection Hk as <-.
                 right. repeat split; assumption || reflexivity.
              ** rewrite lookup_insert_ne in Hk by exact Hne. left. exact Hk.
           ++ intros Hf. discriminate.
        -- destruct Hm as [_ Hc]. cbn [emit cache] in Hc. rewrite Hc.
           split; [auto |]. split; [auto |]. intros Hf. discriminate.
      * cbn [fst snd] in *. destruct Hl as (evs & _ & _ & Hc).
        cbn [emit cache] in Hc. rewrite Hc.
        split; [auto |]. split; [auto |]. intros Hf. discriminate.
  - pose proof (loop_cache a country t r false (range (r + 1)) None w) as Hl.
    cbv zeta in Hl.
    destruct (attempt_loop a country t r false (range (r + 1)) None w)
      as [[res | le] w1]; cbn [fst snd] in *;
      destruct Hl as (evs & Hevs & Hm);
      try rewrite andb_false_r in Hm; destruct Hm as [Hq Hc]; rewrite Hc;
      (split; [auto |]); (split; [auto |]); intros _;
      (split; [reflexivity |]);
      unfold events_since; rewrite Hevs, drop_app_length; exact Hq.
Qed.

Lemma lower_empty (s : string) : lower s = EmptyString -> s = EmptyString.
Proof. destruct s; [reflexivity | discriminate]. Qed.

(** X12.  After a successful call with [use_cache], a call for any spelling of
    the address that differs only in letter case or in surrounding
    whitespace, and for the country code in any letter case, returns the
    same result from the cache: the only event is the cache read, and no
    request is issued. *)
Theorem geocode_address_reuses_cached_result
  (address address' country country' : string)
  (timeout retries timeout' retries' : option Z) (w : World) :
  success (fst (geocode_address address country timeout retries true w))
  = true ->
  lower (strip address') = lower (strip address) ->
  lower country' = lower country ->
  let out := geocode_address address country timeout retries true w in
  geocode_address address' country' timeout' retries' true (snd out)
  = (fst out,
     emit (EvCacheGet (_get_cache_key (strip address) country)) (snd out)).
Proof.
  intros Hs Ha Hc. cbv zeta.
  destruct (truthy (strip address)) eqn:Hnb.
  2:{ rewrite geocode_address_blank in Hs by exact Hnb. discriminate. }
  assert (Hnb' : truthy (strip address') = true).
  { destruct (strip address') eqn:E; [| reflexivity].
    simpl in Ha. symmetry in Ha. apply lower_empty in Ha.
    rewrite Ha in Hnb. discriminate. }
  assert (Hkey : _get_cache_key (strip address') country'
                 = _get_cache_key (strip address) country).
  { unfold _get_cache_key. rewrite Ha, Hc. reflexivity. }
  assert (Hcached : cache (snd (geocode_address address country timeout
                                  retries true w))
                    !! _get_cache_key (strip address) country
                    = Some (fst (geocode_address address country timeout
                                   retries true w))).
  { revert Hs. rewrite geocode_address_run by exact Hnb. cbv zeta.
    set (a := strip address). set (t := or_default timeout DEFAULT_TIMEOUT).
    set (r := or_default retries DEFAULT_RETRIES).
    unfold _get_cached_result.
    destruct (cache w !! _get_cache_key a country) as [hit |] eqn:Hhit.
    - cbn [fst snd emit cache]. intros _. exact Hhit.
    - pose proof (loop_cache a country t r true (range (r + 1)) None
                    (emit (EvCacheGet (_get_cache_key a country)) w)) as Hl.
      cbv zeta in Hl.
      destruct (attempt_loop a country t r true (range (r + 1)) None
                  (emit (EvCacheGet (_get_cache_key a country)) w))
        as [[res | le] w1]; cbn [fst snd] in *; [| discriminate].
      intros Hs. destruct Hl as (evs & _ & Hm).
      rewrite Hs in Hm. cbn [andb] in Hm.
      destruct Hm as (evs0 & _ & _ & Hca). rewrite Hca.
      apply lookup_insert_eq. }
  rewrite (geocode_address_run address' country' timeout' retries' true _
             Hnb').
  cbv zeta. unfold _get_cached_result. rewrite Hkey, Hcached. reflexivity.
Qed.

End geocoding_more.


Lemma geocode_address_reuses_cached_result_witness :
  (success
     (fst (@geocode_address (scripted (fun _ => new_york_reply))
             "123 Main St" "US" None None true empty_world)) = true
   /\ lower (strip "  123 MAIN ST ") = lower (strip "123 Main St"))
  /\ requests
       (snd (@geocode_address (scripted (fun _ => new_york_reply))
               "  123 MAIN ST " "us" None None true
               (snd (@geocode_address (scripted (fun _ => new_york_reply))
                       "123 Main St" "US" None None true empty_world))))
     = 1%nat.
Proof.
  assert (Hs : success
                 (fst (@geocode_address (scripted (fun _ => new_york_reply))
                         "123 Main St" "US" None None true empty_world))
               = true) by (vm_compute; reflexivity).
  assert (Ha : lower (strip "  123 MAIN ST ") = lower (strip "123 Main St"))
    by (vm_compute; reflexivity).
  split; [split; assumption |].
  rewrite (@geocode_address_reuses_cached_result
             (scripted (fun _ => new_york_reply))
             "123 Main St" "  123 MAIN ST " "US" "us" None None None None
             empty_world Hs Ha eq_refl).
  vm_compute. reflexivity.
Defined.

Lemma geocode_address_cache_discipline_witness :
  cache
    (snd (@geocode_address (scripted always_timeout)
            "123 Main St" "US" None None false empty_world))
  = cache empty_world.
Proof.
  destruct (@geocode_address_cache_discipline (scripted always_timeout)
              "123 Main St" "US" None None false empty_world)
    as (_ & _ & Hoff).
  exact (proj1 (Hoff eq_refl)).
Defined.

Section retries.
Context `{Runtime}.

Lemma transient_cause (o : Outcome) : transient o = true -> cause o <> None.
Proof. destruct o; simpl; intros Ht; discriminate. Qed.

(** When every attempt ends in a timeout or a request error, the loop
    appends exactly the retry schedule and leaves the cache alone. *)
Lemma loop_transient (address country : string) (timeout retries : Z)
  (use_cache : bool) (rng : list nat) (last_error : option string)
  (w : World) :
  (forall k : nat, (k < length rng)%nat ->
     transient (session_get (requests w + k) address country timeout)
     = true) ->
  let out :=
    attempt_loop address country timeout retries use_cache rng last_error w in
  trace (snd out)
  = trace w ++ retry_schedule (EvRequest address country timeout) retries rng
  /\ cache (snd out) = cache w.
Proof.
  revert last_error w.
  induction rng as [| attempt rest IH]; intros last_error w Hall; cbv zeta.
  - simpl. split; [symmetry; apply app_nil_r | reflexivity].
  - assert (H0 := Hall 0%nat ltac:(simpl; lia)).
    rewrite Nat.add_0_r in H0.
    assert (Hgo : forall (e : option string),
              let w1 := wait_before_retry attempt retries
                          (snd (http_get address country timeout w)) in
              let out := attempt_loop address country timeout retries
                           use_cache rest e w1 in
              trace (snd out)
              = trace w
                ++ retry_schedule (EvRequest address country timeout) retries
                     (attempt :: rest)
              /\ cache (snd out) = cache w).
    { intros e. cbv zeta.
      set (w1 := wait_before_retry attempt retries
                   (snd (http_get address country timeout w))).
      assert (Hr1 : requests w1 = S (requests w)).
      { unfold w1. rewrite ServicesSpec.requests_wait. reflexivity. }
      destruct (IH e w1) as [Htr Hca].
      { intros k Hk. rewrite Hr1.
        replace (S (requests w) + k)%nat with (requests w + S k)%nat by lia.
        apply Hall. simpl. lia. }
      rewrite Htr, Hca. unfold w1, wait_before_retry, retry_schedule.
      cbn [flat_map http_get snd].
      destruct (Z.of_nat attempt <? retries)%Z;
        cbn [sleep emit trace cache app];
        rewrite <- ?app_assoc; split; reflexivity. }
    simpl attempt_loop.
    destruct (session_get (requests w) address country timeout)
      as [data0 | msg | response msg | msg | msg]; try discriminate H0.
    + apply Hgo.
    + apply Hgo.
Qed.

(** X13.  A call whose every exchange ends in a timeout or a request error,
    made without the cache: the events are one request per attempt of
    [range(retries + 1)], each but the last followed by a wait of one
    second; [retries + 1] requests are issued; the cache is untouched; and
    the result is the failure naming the number of attempts and the cause
    of the last one.  With a negative [retries] there is no attempt at all
    and the message ends in [None]. *)
Theorem geocode_address_retry_schedule
  (address country : string) (timeout retries : option Z) (w : World) :
  let a := strip address in
  let t := or_default timeout DEFAULT_TIMEOUT in
  let r := or_default retries DEFAULT_RETRIES in
  let out := geocode_address address country timeout retries false w in
  truthy (strip address) = true ->
  (forall k : nat, (k < Z.to_nat (r + 1))%nat ->
     transient (session_get (requests w + k) a country t) = true) ->
  events_since w (snd out)
  = retry_schedule (EvRequest a country t) r (range (r + 1))
  /\ requests (snd out) = (requests w + Z.to_nat (r + 1))%nat
  /\ cache (snd out) = cache w
  /\ fst out
     = Failure
         (Some ("Geocoding failed after " +:+ str_int (r + 1)
                +:+ " attempts: "
                +:+ str_last_error
                      (if (0 <=? r)%Z
                       then cause (session_get (requests w + Z.to_nat r)
                                     a country t)
                       else None))).
Proof.
  cbv zeta. intros Hnb Hall.
  rewrite geocode_address_run by exact Hnb. cbv zeta.
  set (a := strip address) in *.
  set (t := or_default timeout DEFAULT_TIMEOUT) in *.
  set (r := or_default retries DEFAULT_RETRIES) in *.
  assert (Hlen : length (range (r + 1)) = Z.to_nat (r + 1)).
  { unfold range. apply length_seq. }
  destruct (loop_transient a country t r false (range (r + 1)) None w)
    as [Htr Hca].
  { rewrite Hlen. exact Hall. }
  destruct (ServicesSpec.loop_exhausted a country t r false (range (r + 1))
              None w) as [Hf Hr].
  { rewrite Hlen. intros k Hk. apply transient_cause, Hall, Hk. }
  destruct (attempt_loop a country t r false (range (r + 1)) None w)
    as [ex w1]. cbn [fst snd] in *. subst ex. rewrite Hlen in Hr.
  assert (Hlast : match range (r + 1) with
                  | [] => None
                  | _ :: _ =>
                      cause (session_get
                               (requests w + (length (range (r + 1)) - 1))
                               a country t)
                  end
                  = if (0 <=? r)%Z
                    then cause (session_get (requests w + Z.to_nat r)
                                  a country t)
                    else None).
  { destruct (0 <=? r)%Z eqn:Hr0.
    - apply Z.leb_le in Hr0.
      assert (Hn : Z.to_nat (r + 1) = S (Z.to_nat r)) by lia.
      rewrite Hlen. unfold range. rewrite Hn. cbn [seq].
      replace (S (Z.to_nat r) - 1)%nat with (Z.to_nat r) by lia.
      reflexivity.
    - apply Z.leb_gt in Hr0. unfold range.
      replace (Z.to_nat (r + 1)) with 0%nat by lia. reflexivity. }
  rewrite Hlast. cbn [fst snd].
  split; [unfold events_since; rewrite Htr, drop_app_length; reflexivity |].
  split; [exact Hr |]. split; [exact Hca | reflexivity].
Qed.

End retries.

Lemma geocode_address_retry_schedule_witness :
  events_since empty_world
    (snd (@geocode_address (scripted always_timeout)
            " 123 Main St " "US" None None false empty_world))
  = [EvRequest "123 Main St" "US" 10; EvSleep 1;
     EvRequest "123 Main St" "US" 10; EvSleep 1;
     EvRequest "123 Main St" "US" 10; EvSleep 1;
     EvRequest "123 Main St" "US" 10].
Proof.
  destruct (@geocode_address_retry_schedule (scripted always_timeout)
              " 123 Main St " "US" None None empty_world)
    as (Hev & _).
  - vm_compute. reflexivity.
  - intros k _. reflexivity.
  - rewrite Hev. vm_compute. reflexivity.
Defined.

End GeocodingFacts.

(* ===================================================================== *)
(** * Further properties: geocode_batch *)
(* ===================================================================== *)

Module BatchFacts.
Import Py Models Services Samples.

Section batch_facts.
Context `{Runtime}.

Lemma batch_loop_spec (country : string) (delay : Q) (count : nat)
  (addresses : list string) (i : nat) (results : list GeocodeResult)
  (w : World) (pauses : list Pause) :
  let out := batch_loop country delay count i addresses results w pauses in
  (exists new : list GeocodeResult,
      fst (fst out) = results ++ new
      /\ length new = length addresses
      /\ forall (k : nat) (a : string),
           nth_error addresses k = Some a -> all_isspace a = true ->
           nth_error new k = Some (Failure (Some "Address cannot be empty")))
  /\ (requests (snd (fst out))
      <= requests w + 4 * length addresses)%nat
  /\ (exists taken : list Pause,
        snd out = pauses ++ taken
        /\ Forall (fun p => snd p = delay) taken
        /\ length taken
           = if Qle_bool delay 0 then 0%nat
             else Nat.min (length addresses) (count - 1 - i)).
Proof.
  revert i results w pauses.
  induction addresses as [| a rest IH]; intros i results w pauses; cbv zeta.
  - cbn [batch_loop fst snd length]. split; [| split].
    + exists []. split; [symmetry; apply app_nil_r |].
      split; [reflexivity |]. intros k a Hk. destruct k; discriminate.
    + lia.
    + exists []. split; [symmetry; apply app_nil_r |].
      split; [constructor |]. destruct (Qle_bool delay 0); reflexivity.
  - cbn [batch_loop].
    pose proof (ServicesSpec.geocode_address_effects a country None None
                  true w) as [_ Hreq]. cbv zeta in Hreq.
    change (Z.to_nat (or_default None DEFAULT_RETRIES + 1)) with 4%nat
      in Hreq.
    assert (Hblank : all_isspace a = true ->
              fst (geocode_address a country None None true w)
              = Failure (Some "Address cannot be empty")).
    { intros Hs. unfold geocode_address.
      rewrite (ServicesSpec.strip_all_isspace _ Hs). cbn [truthy negb].
      rewrite orb_true_r. reflexivity. }
    destruct (geocode_address a country None None true w) as [result w1].
    cbn [fst snd] in Hreq, Hblank.
    match goal with
    | |- context [batch_loop country delay count (S i) rest ?rs w1 ?ps] =>
        destruct (IH (S i) rs w1 ps)
          as ((new & Hres & Hlen & Hbl) & Hrq & (taken & Hp & Hall & Hn));
        set (ps0 := ps) in *
    end.
    destruct (batch_loop country delay count (S i) rest (results ++ [result])
                w1 ps0) as [[res' w'] p'].
    cbn [fst snd] in *. split; [| split].
    + exists (result :: new). split; [rewrite Hres, <- app_assoc; reflexivity |].
      split; [cbn [length]; rewrite Hlen; reflexivity |].
      intros k b Hk Hs. destruct k as [| k].
      * injection Hk as <-. cbn [nth_error]. rewrite (Hblank Hs).
        reflexivity.
      * cbn [nth_error] in *. apply (Hbl k b Hk Hs).
    + cbn [length]. lia.
    + subst ps0. unfold pause in Hp.
      destruct (Qle_bool delay 0) eqn:Hd.
      * rewrite andb_false_r in Hp. exists taken.
        split; [exact Hp |]. split; [exact Hall | exact Hn].
      * rewrite andb_true_r in Hp.
        destruct (Z.of_nat i <? Z.of_nat count - 1)%Z eqn:Hi.
        -- apply Z.ltb_lt in Hi.
           exists ((length (trace w1), delay) :: taken).
           split; [rewrite Hp, <- app_assoc; reflexivity |].
           split; [constructor; [reflexivity | exact Hall] |].
           cbn [length]. rewrite Hn. lia.
        -- apply Z.ltb_ge in Hi. exists taken.
           split; [exact Hp |]. split; [exact Hall |].
           rewrite Hn. cbn [length]. lia.
Qed.

(** The results and the world of the loop, address by address: the
    [k]-th address is geocoded in the world the addresses before it have
    left. *)
Lemma batch_loop_results (country : string) (delay : Q) (count : nat)
  (addresses : list string) (i : nat) (results : list GeocodeResult)
  (w : World) (pauses : list Pause) :
  let step := fun (w0 : World) (a0 : string) =>
                snd (geocode_address a0 country None None true w0) in
  let out := batch_loop country delay count i addresses results w pauses in
  snd (fst out) = fold_left step addresses w
  /\ exists new : list GeocodeResult,
      fst (fst out) = results ++ new
      /\ forall (k : nat) (a : string),
           nth_error addresses k = Some a ->
           nth_error new k
           = Some (fst (geocode_address a country None None true
                          (fold_left step (firstn k addresses) w))).
Proof.
  cbv zeta. revert i results w pauses.
  induction addresses as [| a rest IH]; intros i results w pauses.
  - cbn [batch_loop fst snd fold_left]. split; [reflexivity |].
    exists []. split; [symmetry; apply app_nil_r |].
    intros k a Hk. destruct k; discriminate.
  - cbn [batch_loop fold_left].
    destruct (geocode_address a country None None true w) as [result w1]
      eqn:Hg.
    match goal with
    | |- context [batch_loop country delay count (S i) rest ?rs w1 ?ps] =>
        destruct (IH (S i) rs w1 ps) as (Hw & new & Hres & Hnth)
    end.
    cbn [snd]. split; [exact Hw |].
    exists (result :: new).
    split; [rewrite Hres, <- app_assoc; reflexivity |].
    intros k b Hk. destruct k as [| k].
    + injection Hk as <-. cbn [nth_error firstn fold_left].
      rewrite Hg. reflexivity.
    + cbn [nth_error firstn fold_left] in *. rewrite Hg. cbn [snd].
      apply (Hnth k b Hk).
Qed.

(** X16.  When [geocode_batch] returns, it returns one result per
    address, and the [k]-th result is what [geocode_address] gives for the
    [k]-th address, with the country of the batch, in the world left by
    geocoding the addresses before it in turn; the world afterwards is the
    one left by the last address.  So a blank address yields the
    empty-address failure at its own position; at most four requests are
    issued per address; and with a positive delay a pause of that length
    is taken between consecutive addresses, none after the last, none at
    all with a delay of zero or less. *)
Theorem geocode_batch_results
  (addresses : list string) (country : string) (delay : Q) (w w' : World)
  (results : list GeocodeResult) (pauses : list Pause) :
  geocode_batch addresses country delay w = (results, w', pauses) ->
  let step := fun (w0 : World) (a0 : string) =>
                snd (geocode_address a0 country None None true w0) in
  length results = length addresses
  /\ (forall (k : nat) (a : string),
        nth_error addresses k = Some a ->
        nth_error results k
        = Some (fst (geocode_address a country None None true
                       (fold_left step (firstn k addresses) w))))
  /\ w' = fold_left step addresses w
  /\ (forall (k : nat) (a : string),
        nth_error addresses k = Some a -> all_isspace a = true ->
        nth_error results k
        = Some (Failure (Some "Address cannot be empty")))
  /\ (requests w' <= requests w + 4 * length addresses)%nat
  /\ Forall (fun p => snd p = delay) pauses
  /\ length pauses
     = if Qle_bool delay 0 then 0%nat else (length addresses - 1)%nat.
Proof.
  unfold geocode_batch. intros Hrun. cbv zeta.
  destruct (batch_loop_spec country delay (length addresses) addresses 0 []
              w [])
    as ((new & Hres & Hlen & Hbl) & Hrq & (taken & Hp & Hall & Hn)).
  destruct (batch_loop_results country delay (length addresses) addresses 0
              [] w []) as (Hw & new' & Hres' & Hnth).
  rewrite Hrun in *. cbn [fst snd app] in *. subst results pauses.
  rewrite Hres' in *.
  split; [exact Hlen |]. split; [exact Hnth |]. split; [exact Hw |].
  split; [exact Hbl |]. split; [exact Hrq |].
  split; [exact Hall |]. rewrite Hn.
  destruct (Qle_bool delay 0); [reflexivity | lia].
Qed.

End batch_facts.

Lemma geocode_batch_results_witness :
  nth_error
    (fst (fst (@geocode_batch (scripted (fun _ => new_york_reply))
                 ["123 Main St"; "   "; "456 Oak Ave"] "US" (1 # 10)
                 empty_world))) 2
  = Some (fst (@geocode_address (scripted (fun _ => new_york_reply))
                 "456 Oak Ave" "US" None None true
                 (snd (@geocode_address (scripted (fun _ => new_york_reply))
                         "123 Main St" "US" None None true empty_world)))).
Proof.
  destruct (@geocode_batch (scripted (fun _ => new_york_reply))
              ["123 Main St"; "   "; "456 Oak Ave"] "US" (1 # 10)
              empty_world) as [[results w'] pauses] eqn:E.
  destruct (@geocode_batch_results (scripted (fun _ => new_york_reply))
              _ _ _ _ _ _ _ E) as (_ & Hnth & _).
  cbn [fst]. rewrite (Hnth 2%nat "456 Oak Ave" eq_refl).
  reflexivity.
Defined.

End BatchFacts.

(* ===================================================================== *)
(** * Further properties: addresses and single-church geocoding *)
(* ===================================================================== *)

Module ChurchFacts.
Import Py Models Services Samples.

(** ** Trimming *)

Lemma append_cons (c : ascii) (s t : string) :
  String c s +:+ t = String c (s +:+ t).
Proof. reflexivity. Qed.

Lemma append_empty_r (s : string) : s +:+ EmptyString = s.
Proof.
  induction s as [| c s IH]; [reflexivity |].
  rewrite append_cons. f_equal. exact IH.
Qed.

Lemma strip_nonempty (s : string) :
  truthy (strip s) = true ->
  exists (c : ascii) (t : string), strip s = String c t /\ isspace c = false.
Proof.
  unfold strip. destruct (PySpec.lstrip_head s) as [He | (c & t & He & Hc)];
    rewrite He; [discriminate |].
  intros _. destruct (PySpec.rstrip_keeps_head c t Hc) as (r & Hr).
  exists c, r. split; assumption.
Qed.

Lemma rstrip_append (a b : string) :
  truthy (rstrip b) = true -> rstrip (a +:+ b) = a +:+ rstrip b.
Proof.
  intros Hb. induction a as [| c a IH]; [reflexivity |].
  rewrite !append_cons. cbn [rstrip]. rewrite IH.
  destruct (a +:+ rstrip b) eqn:E; [| reflexivity].
  destruct a; [| discriminate E]. change (rstrip b = EmptyString) in E.
  rewrite E in Hb. discriminate.
Qed.

Lemma rstrip_strip (s : string) : rstrip (strip s) = strip s.
Proof. unfold strip. apply PySpec.rstrip_idempotent. Qed.

(** A non-empty trimmed string followed by a string that does not end in
    whitespace is itself trimmed. *)
Lemma strip_append (a b : string) :
  truthy (strip a) = true -> truthy (rstrip b) = true -> rstrip b = b ->
  strip (strip a +:+ b) = strip a +:+ b.
Proof.
  intros Ha Hb Hfix.
  destruct (strip_nonempty a Ha) as (c & t & He & Hc).
  unfold strip at 1. rewrite He, append_cons. cbn [lstrip]. rewrite Hc.
  rewrite <- append_cons.
  rewrite rstrip_append by exact Hb. rewrite Hfix. reflexivity.
Qed.

Lemma rstrip_separator (s : string) :
  truthy (strip s) = true ->
  truthy (rstrip (", " +:+ strip s)) = true
  /\ rstrip (", " +:+ strip s) = ", " +:+ strip s.
Proof.
  intros Hs. rewrite rstrip_append by (rewrite rstrip_strip; exact Hs).
  rewrite rstrip_strip. split; reflexivity.
Qed.

Lemma truthy_append (a b : string) :
  truthy b = true -> truthy (a +:+ b) = true.
Proof. intros Hb. destruct a; [exact Hb | reflexivity]. Qed.

Lemma tail_trimmed (x rest : string) :
  truthy (rstrip rest) = true -> rstrip rest = rest ->
  truthy (rstrip (", " +:+ x +:+ rest)) = true
  /\ rstrip (", " +:+ x +:+ rest) = ", " +:+ x +:+ rest.
Proof.
  intros Hb Hfix.
  assert (Hx : rstrip (x +:+ rest) = x +:+ rest).
  { rewrite (rstrip_append x rest Hb), Hfix. reflexivity. }
  assert (Hxt : truthy (rstrip (x +:+ rest)) = true).
  { rewrite Hx. apply truthy_append. rewrite <- Hfix. exact Hb. }
  rewrite (rstrip_append ", " (x +:+ rest) Hxt), Hx.
  split; reflexivity.
Qed.

Lemma clean_required (c : Church) :
  clean c = Return tt ->
  truthy (strip (name c)) = true
  /\ truthy (strip (street_address c)) = true
  /\ truthy (strip (city c)) = true
  /\ truthy (strip (state c)) = true.
Proof.
  unfold clean, raise_if.
  destruct (negb (Bool.eqb _ _)); [discriminate |].
  destruct (match latitude c with Some _ => _ | None => _ end);
    [discriminate |].
  destruct (match longitude c with Some _ => _ | None => _ end);
    [discriminate |].
  unfold mbind, Except_bind, bind.
  destruct (truthy (strip (name c))); [| discriminate].
  destruct (truthy (strip (street_address c))); [| discriminate].
  destruct (truthy (strip (city c))); [| discriminate].
  destruct (truthy (strip (state c))); [| discriminate].
  intros _. repeat split.
Qed.

Lemma strip_empty_arg (s : string) : truthy s = false -> truthy (strip s) = false.
Proof. destruct s; [reflexivity | discriminate]. Qed.

(** X7.  The address sent to the geocoder: the trimmed street, city, state and
    ZIP code, blank ones left out, joined by a comma and a space.  For a
    record that passes [clean] that is street, city and state, followed by
    the ZIP code when it is not blank; it is not blank and carries no
    whitespace at either end, so the geocoder receives it unchanged. *)
Theorem full_address_joins_trimmed_parts (c : Church) :
  full_address c
  = join ", "
      (List.filter truthy
         (map strip [street_address c; city c; state c; zip_code c]))
  /\ (clean c = Return tt ->
      full_address c
      = strip (street_address c) +:+ ", " +:+ strip (city c) +:+ ", "
        +:+ strip (state c)
        +:+ (if truthy (strip (zip_code c))
             then ", " +:+ strip (zip_code c) else EmptyString)
      /\ truthy (strip (full_address c)) = true
      /\ strip (full_address c) = full_address c).
Proof.
  assert (Hform : full_address c
                  = join ", "
                      (List.filter truthy
                         (map strip [street_address c; city c; state c;
                                     zip_code c]))).
  { unfold full_address. cbn [map List.filter app].
    destruct (truthy (zip_code c)) eqn:Hz.
    - cbn [app List.filter map].
      destruct (truthy (strip (street_address c)));
        destruct (truthy (strip (city c)));
        destruct (truthy (strip (state c)));
        destruct (truthy (strip (zip_code c))); reflexivity.
    - rewrite (strip_empty_arg _ Hz). cbn [app List.filter map].
      destruct (truthy (strip (street_address c)));
        destruct (truthy (strip (city c)));
        destruct (truthy (strip (state c))); reflexivity. }
  split; [exact Hform |].
  intros Hclean. apply clean_required in Hclean as (_ & Hs & Hc & Ht).
  assert (Hexp : full_address c
                 = strip (street_address c) +:+ ", " +:+ strip (city c)
                   +:+ ", " +:+ strip (state c)
                   +:+ (if truthy (strip (zip_code c))
                        then ", " +:+ strip (zip_code c) else EmptyString)).
  { rewrite Hform. cbn [map List.filter]. rewrite Hs, Hc, Ht.
    destruct (truthy (strip (zip_code c))); cbn [join].
    - reflexivity.
    - rewrite append_empty_r. reflexivity. }
  split; [exact Hexp |].
  assert (Hlast : truthy
                    (rstrip (", " +:+ strip (state c)
                             +:+ (if truthy (strip (zip_code c))
                                  then ", " +:+ strip (zip_code c)
                                  else EmptyString))) = true
                  /\ rstrip (", " +:+ strip (state c)
                             +:+ (if truthy (strip (zip_code c))
                                  then ", " +:+ strip (zip_code c)
                                  else EmptyString))
                     = ", " +:+ strip (state c)
                       +:+ (if truthy (strip (zip_code c))
                            then ", " +:+ strip (zip_code c)
                            else EmptyString)).
  { destruct (truthy (strip (zip_code c))) eqn:Hz.
    - destruct (rstrip_separator (zip_code c) Hz) as [Hz1 Hz2].
      apply tail_trimmed; assumption.
    - rewrite append_empty_r. apply rstrip_separator, Ht. }
  destruct Hlast as [Hl1 Hl2].
  destruct (tail_trimmed (strip (city c)) _ Hl1 Hl2) as [Ht1 Ht2].
  assert (Hfix : strip (full_address c) = full_address c).
  { rewrite Hexp. apply strip_append; assumption. }
  split; [| exact Hfix]. rewrite Hfix, Hexp.
  destruct (strip_nonempty _ Hs) as (ch & t & -> & _). reflexivity.
Qed.

Lemma full_address_joins_trimmed_parts_witness :
  clean north_church = Return tt
  /\ full_address north_church = "1 North St, Union City, NJ".
Proof.
  assert (Hc : clean north_church = Return tt) by (vm_compute; reflexivity).
  split; [exact Hc |].
  destruct (full_address_joins_trimmed_parts north_church) as [_ Hv].
  destruct (Hv Hc) as (-> & _). vm_compute. reflexivity.
Defined.

(** ** Results the geocoder hands over *)

Section results.
Context `{Runtime}.

Lemma parse_storable (data0 : GeoJSON) (original_address : string) :
  storable (_parse_geocoding_response data0 original_address).
Proof.
  unfold _parse_geocoding_response.
  destruct data0 as [| f rest]; [exact I |].
  destruct (feature_coordinates f) as [| lo [| la more]]; try exact I.
  destruct (between (-90 # 1) la (90 # 1)) eqn:Bla; cbn [negb orb];
    [| exact I].
  destruct (between (-180 # 1) lo (180 # 1)) eqn:Blo; cbn [negb];
    [| exact I].
  unfold storable, float.
  split; [apply ModelsFacts.between_spec, Bla |].
  split; [apply ModelsFacts.between_spec, Blo |].
  apply GeocodingFacts.determine_accuracy_levels.
Qed.

Lemma loop_returns_parse (address country : string) (timeout retries : Z)
  (use_cache : bool) (rng : list nat) (last_error : option string)
  (w : World) (res : GeocodeResult) :
  fst (attempt_loop address country timeout retries use_cache rng
         last_error w) = Returned res ->
  exists data0 : GeoJSON, res = _parse_geocoding_response data0 address.
Proof.
  revert last_error w.
  induction rng as [| attempt rest IH]; intros last_error w;
    [discriminate |].
  simpl attempt_loop.
  destruct (session_get (requests w) address country timeout)
    as [data0 | msg | response msg | msg | msg].
  - cbn [fst]. intros [= <-]. exists data0. reflexivity.
  - apply IH.
  - destruct (is_rate_limit response); [| discriminate].
    destruct (Z.of_nat attempt <? retries)%Z; apply IH.
  - apply IH.
  - discriminate.
Qed.

(** Where a result comes from and what the call does to the cache. *)
Lemma geocode_address_origin (address country : string)
  (timeout retries : option Z) (use_cache : bool) (w : World) :
  let out := geocode_address address country timeout retries use_cache w in
  ((exists k : string, cache w !! k = Some (fst out))
   \/ (exists data0 : GeoJSON,
         fst out = _parse_geocoding_response data0 (strip address))
   \/ success (fst out) = false)
  /\ (cache (snd out) = cache w
      \/ (success (fst out) = true
          /\ exists k : string,
              cache (snd out) = <[k := fst out]> (cache w))).
Proof.
  cbv zeta.
  destruct (truthy (strip address)) eqn:Hnb.
  2:{ rewrite GeocodingFacts.geocode_address_blank by exact Hnb.
      cbn [fst snd]. split; [right; right; reflexivity | left; reflexivity]. }
  rewrite GeocodingFacts.geocode_address_run by exact Hnb. cbv zeta.
  set (a := strip address). set (t := or_default timeout DEFAULT_TIMEOUT).
  set (r := or_default retries DEFAULT_RETRIES).
  assert (Hloop : forall w0 : World, cache w0 = cache w ->
            let out :=
              match attempt_loop a country t r use_cache (range (r + 1))
                      None w0 with
              | (Returned result, w1) => (result, w1)
              | (Fell last_error, w1) =>
                  (Failure (Some ("Geocoding failed after "
                                  +:+ str_int (r + 1) +:+ " attempts: "
                                  +:+ str_last_error last_error)), w1)
              end in
            ((exists k : string, cache w !! k = Some (fst out))
             \/ (exists data0 : GeoJSON,
                   fst out = _parse_geocoding_response data0 a)
             \/ success (fst out) = false)
            /\ (cache (snd out) = cache w
                \/ (success (fst out) = true
                    /\ exists k : string,
                        cache (snd out) = <[k := fst out]> (cache w)))).
  { intros w0 Hw0. cbv zeta.
    pose proof (GeocodingFacts.loop_cache a country t r use_cache
                  (range (r + 1)) None w0) as Hl.
    pose proof (loop_returns_parse a country t r use_cache (range (r + 1))
                  None w0) as Hp.
    cbv zeta in Hl.
    destruct (attempt_loop a country t r use_cache (range (r + 1)) None w0)
      as [[res | le] w1]; cbn [fst snd] in *.
    - destruct (Hp res eq_refl) as (data0 & Hd).
      split; [right; left; exists data0; exact Hd |].
      destruct Hl as (evs & _ & Hm).
      destruct (success res) eqn:Hs; cbn [andb] in Hm.
      + destruct use_cache.
        * destruct Hm as (evs0 & _ & _ & Hc). right.
          split; [reflexivity |]. eexists. rewrite Hc, Hw0. reflexivity.
        * destruct Hm as [_ Hc]. left. rewrite Hc. exact Hw0.
      + destruct Hm as [_ Hc]. left. rewrite Hc. exact Hw0.
    - split; [right; right; reflexivity |].
      destruct Hl as (evs & _ & _ & Hc). left. rewrite Hc. exact Hw0. }
  destruct use_cache.
  - unfold _get_cached_result.
    destruct (cache w !! _get_cache_key a country) as [hit |] eqn:Hhit.
    + cbn [fst snd emit cache].
      split; [left; eexists; exact Hhit | left; reflexivity].
    + apply Hloop. reflexivity.
  - apply Hloop. reflexivity.
Qed.

Lemma geocode_address_results_are_storable_aux
  (address country : string) (timeout retries : option Z) (use_cache : bool)
  (w : World) :
  cache_sound w ->
  let out := geocode_address address country timeout retries use_cache w in
  storable (fst out)
  /\ forall (c : Church) (la lo : Q) (acc fa : string) (cf : Q)
       (ly : string),
       fst out = Success la lo acc fa cf ly ->
       exists c' : Church, set_coordinates c la lo acc = Return c'.
Proof.
  intros Hw. cbv zeta.
  destruct (geocode_address_origin address country timeout retries use_cache
              w) as [Hres _]. cbv zeta in Hres.
  assert (Hst : storable
                  (fst (geocode_address address country timeout retries
                          use_cache w))).
  { destruct Hres as [(k & Hk) | [(data0 & ->) | Hf]].
    - apply (Hw k _ Hk).
    - apply parse_storable.
    - destruct (fst (geocode_address address country timeout retries
                       use_cache w)); [discriminate | exact I]. }
  split; [exact Hst |].
  intros c la lo acc fa cf ly He. rewrite He in Hst.
  destruct Hst as (Hla & Hlo & Hacc).
  rewrite ModelsFacts.set_coordinates_run.
  rewrite (proj2 (ModelsFacts.between_spec _ _ _) Hla).
  rewrite (proj2 (ModelsFacts.between_spec _ _ _) Hlo).
  rewrite (proj2 (ModelsFacts.str_in_spec _ _) Hacc).
  eexists. reflexivity.
Qed.

(** X15.  As long as the cache holds results of earlier calls only, every
    successful result (fresh or from the cache) has a latitude within
    -90..90, a longitude within -180..180 and one of the three accuracy
    levels, so [set_coordinates] accepts it; and the cache stays that way. *)
Theorem geocode_address_results_are_storable
  (address country : string) (timeout retries : option Z) (use_cache : bool)
  (w : World) :
  cache_sound w ->
  let out := geocode_address address country timeout retries use_cache w in
  storable (fst out)
  /\ cache_sound (snd out)
  /\ forall (c : Church) (la lo : Q) (acc fa : string) (cf : Q)
       (ly : string),
       fst out = Success la lo acc fa cf ly ->
       exists c' : Church, set_coordinates c la lo acc = Return c'.
Proof.
  intros Hw. cbv zeta.
  destruct (geocode_address_results_are_storable_aux address country timeout
              retries use_cache w Hw) as [Hst Hset].
  destruct (geocode_address_origin address country timeout retries use_cache
              w) as [_ Hca]. cbv zeta in Hca.
  split; [exact Hst |]. split; [| exact Hset].
  destruct Hca as [Hc | (Hs & k & Hc)]; intros k' v; rewrite Hc.
  - apply Hw.
  - destruct (decide (k = k')) as [<- | Hne].
    + rewrite lookup_insert_eq. intros [= <-]. split; assumption.
    + rewrite lookup_insert_ne by exact Hne. apply Hw.
Qed.

End results.

Lemma cache_sound_empty : cache_sound empty_world.
Proof. intros k v Hk. discriminate Hk. Qed.

Lemma geocode_address_results_are_storable_witness :
  cache_sound empty_world
  /\ storable
       (fst (@geocode_address (scripted (fun _ => new_york_reply))
               "123 Main St" "US" None None true empty_world)).
Proof.
  split; [exact cache_sound_empty |].
  exact (proj1 (@geocode_address_results_are_storable
                  (scripted (fun _ => new_york_reply))
                  "123 Main St" "US" None None true empty_world
                  cache_sound_empty)).
Defined.

(** ** Geocoding one church *)

Section one_church.
Context `{Django} `{Runtime}.

Lemma store_fields (c : Church) (db : DB) :
  let c' := fst (store c db) in
  id c' <> None
  /\ name c' = name c /\ street_address c' = street_address c
  /\ city c' = city c /\ state c' = state c /\ zip_code c' = zip_code c
  /\ latitude c' = latitude c /\ longitude c' = longitude c
  /\ phone c' = phone c /\ website c' = website c /\ email c' = email c
  /\ service_times c' = service_times c
  /\ geocoding_accuracy c' = geocoding_accuracy c
  /\ is_active c' = is_active c
  /\ In c' (snd (store c db)).
Proof.
  cbv zeta. unfold store. destruct (id c) as [i |] eqn:Hid.
  - destruct (existsb (has_id i) db) eqn:Hex; cbn [fst snd];
      rewrite ?Hid; repeat (split; [first [discriminate | reflexivity] |]).
    + apply existsb_exists in Hex as (r & Hr & Hri).
      apply in_map_iff. exists r. rewrite Hri. split; [reflexivity | exact Hr].
    + apply in_or_app. right. left. reflexivity.
  - cbn [fst snd with_id id name street_address city state zip_code latitude
           longitude phone website email service_times geocoding_accuracy
           is_active].
    repeat (split; [first [discriminate | reflexivity] |]).
    apply in_or_app. right. left. reflexivity.
Qed.

(** X17.  A call that reports success without [skipped]: the geocoder returned
    a success for the full address of the church; the result carries its
    coordinates and accuracy; the church is stored with those coordinates
    rounded to seven decimals and that accuracy, every other column as it
    was; the stored pair satisfies the coordinate invariant; and the same
    call made again without [force_update] is skipped, leaving everything
    as it is. *)
Theorem geocode_church_success_is_stored
  (self self' : ChurchDataService) (church church' : Church)
  (force_update : bool) (db db' : DB) (w w' : World) (res : ChurchResult) :
  geocode_church self church force_update db w
  = Return (res, self', church', db', w') ->
  result_success res = true -> skipped res = false ->
  exists (la lo : Q) (acc fa : string) (cf : Q) (ly : string),
    geocode_address (full_address church) "US" None None true w
    = (Success la lo acc fa cf ly, w')
    /\ geocoded res = Some (la, lo, acc)
    /\ latitude church' = Some (quantize7 la)
    /\ longitude church' = Some (quantize7 lo)
    /\ geocoding_accuracy church' = acc
    /\ (name church' = name church
        /\ street_address church' = street_address church
        /\ city church' = city church /\ state church' = state church
        /\ zip_code church' = zip_code church /\ phone church' = phone church
        /\ website church' = website church /\ email church' = email church
        /\ service_times church' = service_times church
        /\ is_active church' = is_active church)
    /\ coordinate_invariant church'
    /\ In church' db'
    /\ geocode_church self' church' false db' w'
       = Return (skipped_result, self', church', db', w').
Proof.
  unfold geocode_church at 1.
  destruct (has_coordinates church && negb force_update).
  { intros [= <- <- <- <- <-] _ Hsk. discriminate Hsk. }
  unfold mbind, Except_bind, bind, mret, Except_ret.
  destruct (obtain_service self) as [service | e]; [| discriminate].
  destruct (geocode_address (full_address church) "US" None None true w)
    as [[la lo acc fa cf ly | err] w1].
  2:{ intros [= <- <- <- <- <-] Hs. discriminate Hs. }
  destruct (set_coordinates church la lo acc) as [c1 | e] eqn:Hset.
  2:{ intros [= <- <- <- <- <-] Hs. discriminate Hs. }
  destruct (save c1 db) as [[c2 db2] | e] eqn:Hsave.
  2:{ intros [= <- <- <- <- <-] Hs. discriminate Hs. }
  intros [= <- <- <- <- <-] _ _.
  apply ModelsSpec.save_ok_clean in Hsave as [Hclean Hst].
  pose proof (store_fields c1 db) as Hf. cbv zeta in Hf.
  rewrite <- Hst in Hf. cbn [fst snd] in Hf.
  destruct Hf as (_ & Hn & Hsa & Hci & Hsta & Hz & Hla & Hlo & Hp & Hwe & He
                  & Hse & Hac & Hia & Hin).
  rewrite ModelsFacts.set_coordinates_run in Hset.
  destruct (between (-90 # 1) la (90 # 1)); [| discriminate].
  destruct (between (-180 # 1) lo (180 # 1)); [| discriminate].
  destruct (str_in acc accuracy_levels); [| discriminate].
  injection Hset as <-.
  cbn [name street_address city state zip_code latitude longitude phone
         website email service_times geocoding_accuracy is_active] in *.
  exists la, lo, acc, fa, cf, ly.
  split; [reflexivity |]. split; [reflexivity |].
  split; [exact Hla |]. split; [exact Hlo |]. split; [exact Hac |].
  split; [repeat split; assumption |].
  split.
  { apply ModelsSpec.clean_ok_invariant in Hclean.
    destruct Hclean as [[Hn1 _] | (la1 & lo1 & Hl1 & Hl2 & Hr1 & Hr2)].
    - discriminate Hn1.
    - right. exists la1, lo1. cbn [latitude longitude] in Hl1, Hl2.
      rewrite Hla, Hlo, Hl1, Hl2. repeat split; tauto. }
  split; [exact Hin |].
  unfold geocode_church, has_coordinates, coordinates.
  rewrite Hla, Hlo. reflexivity.
Qed.

(** X18.  When the church lacks coordinates (or the update is forced), a service
    can be obtained, the cache holds results of earlier calls only, the
    record passes [clean] and field validation accepts it with new
    coordinates, then a success of the geocoder is always stored: the call
    reports success with the coordinates of the geocoder's result. *)
Theorem geocode_church_succeeds_on_valid_record
  (self : ChurchDataService) (service : GeocodingService) (church : Church)
  (force_update : bool) (db : DB) (w : World) :
  has_coordinates church && negb force_update = false ->
  obtain_service self = Return service ->
  cache_sound w ->
  clean church = Return tt ->
  (forall (la lo : Q) (acc : string) (c1 : Church),
      set_coordinates church la lo acc = Return c1 ->
      clean_fields c1 = None) ->
  success (fst (geocode_address (full_address church) "US" None None true w))
  = true ->
  exists (res : ChurchResult) (church' : Church) (db' : DB)
         (la lo : Q) (acc : string),
    geocode_church self church force_update db w
    = Return (res, mkChurchDataService (Some service), church', db',
              snd (geocode_address (full_address church) "US" None None
                     true w))
    /\ result_success res = true /\ skipped res = false
    /\ geocoded res = Some (la, lo, acc)
    /\ latitude church' = Some (quantize7 la)
    /\ longitude church' = Some (quantize7 lo)
    /\ In church' db'.
Proof.
  intros Hgo Hsvc Hsound Hclean Hfields Hsucc.
  destruct (geocode_address_results_are_storable_aux (full_address church)
              "US" None None true w Hsound) as [Hst Hset].
  unfold geocode_church. rewrite Hgo, Hsvc.
  unfold mbind, Except_bind, bind, mret, Except_ret.
  destruct (geocode_address (full_address church) "US" None None true w)
    as [[la lo acc fa cf ly | err] w1]; [| discriminate Hsucc].
  cbn [fst snd] in *.
  destruct (Hset church la lo acc fa cf ly eq_refl) as (c1 & Hc1).
  rewrite Hc1.
  assert (Hsave : save c1 db = Return (store c1 db)).
  { unfold save, full_clean. rewrite (Hfields la lo acc c1 Hc1).
    assert (Hcl : clean c1 = Return tt).
    { destruct Hst as (Hla & Hlo & _).
      apply clean_required in Hclean as (Hn & Hs & Hc & Ht).
      rewrite ModelsFacts.set_coordinates_run in Hc1.
      destruct (between (-90 # 1) la (90 # 1)); [| discriminate].
      destruct (between (-180 # 1) lo (180 # 1)); [| discriminate].
      destruct (str_in acc accuracy_levels); [| discriminate].
      injection Hc1 as <-.
      apply ModelsSpec.clean_accepts; cbn [name street_address city state];
        try assumption.
      right. exists (quantize7 la), (quantize7 lo).
      split; [reflexivity |]. split; [reflexivity |].
      split; [apply (ModelsFacts.quantize7_range la 90), Hla
             | apply (ModelsFacts.quantize7_range lo 180), Hlo]. }
    rewrite Hcl. reflexivity. }
  rewrite Hsave.
  pose proof (store_fields c1 db) as Hf. cbv zeta in Hf.
  destruct (store c1 db) as [c2 db2]. cbn [fst snd] in Hf.
  destruct Hf as (_ & _ & _ & _ & _ & _ & Hla & Hlo & _ & _ & _ & _ & _ & _
                  & Hin).
  rewrite ModelsFacts.set_coordinates_run in Hc1.
  destruct (between (-90 # 1) la (90 # 1)); [| discriminate].
  destruct (between (-180 # 1) lo (180 # 1)); [| discriminate].
  destruct (str_in acc accuracy_levels); [| discriminate].
  injection Hc1 as <-. cbn [latitude longitude] in Hla, Hlo.
  eexists _, c2, db2, la, lo, acc.
  split; [reflexivity |]. cbn [result_success skipped geocoded].
  repeat split; assumption.
Qed.

End one_church.

Lemma geocode_church_success_is_stored_witness :
  match @geocode_church permissive (scripted (fun _ => new_york_reply))
          (mkChurchDataService None) unlocated_church false
          [unlocated_church] empty_world with
  | Return (res, _, church', db', _) =>
      result_success res = true
      /\ coordinate_invariant church' /\ In church' db'
  | Raise _ => False
  end.
Proof.
  destruct (@geocode_church permissive (scripted (fun _ => new_york_reply))
              (mkChurchDataService None) unlocated_church false
              [unlocated_church] empty_world)
    as [[[[[res self'] church'] db'] w'] | e] eqn:E.
  - assert (Hres : result_success res = true /\ skipped res = false).
    { pose proof E as E'. vm_compute in E'.
      injection E' as <- _ _ _ _. split; reflexivity. }
    destruct Hres as [Hs Hk].
    destruct (@geocode_church_success_is_stored permissive
                (scripted (fun _ => new_york_reply))
                _ _ _ _ _ _ _ _ _ _ E Hs Hk)
      as (la & lo & acc & fa & cf & ly & _ & _ & _ & _ & _ & _ & Hinv & Hin
          & _).
    split; [exact Hs |]. split; [exact Hinv | exact Hin].
  - vm_compute in E. discriminate E.
Defined.

Lemma geocode_church_succeeds_on_valid_record_witness :
  clean unlocated_church = Return tt
  /\ exists (res : ChurchResult) (church' : Church) (db' : DB) (w' : World),
      @geocode_church permissive (scripted (fun _ => new_york_reply))
        (mkChurchDataService None) unlocated_church false
        [unlocated_church] empty_world
      = Return (res,
                mkChurchDataService
                  (Some (mkGeocodingService "test_api_key_12345")),
                church', db', w')
      /\ result_success res = true /\ In church' db'.
Proof.
  assert (Hc : clean unlocated_church = Return tt)
    by (vm_compute; reflexivity).
  split; [exact Hc |].
  destruct (@geocode_church_succeeds_on_valid_record permissive
              (scripted (fun _ => new_york_reply))
              (mkChurchDataService None)
              (mkGeocodingService "test_api_key_12345")
              unlocated_church false [unlocated_church] empty_world)
    as (res & church' & db' & la & lo & acc & Hrun & Hs & _ & _ & _ & _
        & Hin).
  - reflexivity.
  - reflexivity.
  - exact cache_sound_empty.
  - exact Hc.
  - intros la lo acc c1 _. reflexivity.
  - vm_compute. reflexivity.
  - exists res, church', db'. eexists.
    split; [exact Hrun |]. split; [exact Hs | exact Hin].
Defined.

End ChurchFacts.

(* ===================================================================== *)
(** * Further properties: import_church_data and the table *)
(* ===================================================================== *)

Module ImportFacts.
Import Py Models Services Samples.

Section table.
Context `{Django} `{Runtime}.

Lemma same_place_refl (c : Church) : same_place c c.
Proof. unfold same_place. repeat split. Qed.

Lemma same_place_trans (a b c : Church) :
  same_place a b -> same_place b c -> same_place a c.
Proof.
  unfold same_place.
  intros (A1 & A2 & A3 & A4 & A5 & A6 & A7 & A8)
         (B1 & B2 & B3 & B4 & B5 & B6 & B7 & B8).
  repeat split; congruence.
Qed.

Lemma same_place_unlocated (a b : Church) :
  same_place a b -> unlocated a -> unlocated b.
Proof.
  unfold same_place, unlocated.
  intros (_ & _ & _ & _ & _ & A6 & A7 & A8) (U1 & U2 & U3).
  repeat split; congruence.
Qed.

Lemma same_place_ids (db upd : DB) :
  Forall2 same_place db upd -> map id upd = map id db.
Proof.
  induction 1 as [| a b db upd Hab _ IH]; [reflexivity |].
  cbn [map]. rewrite IH. f_equal. apply Hab.
Qed.

Lemma Forall2_same_place_refl (db : DB) : Forall2 same_place db db.
Proof. induction db; constructor; [apply same_place_refl | assumption]. Qed.

Lemma Forall2_same_place_trans (a b c : DB) :
  Forall2 same_place a b -> Forall2 same_place b c -> Forall2 same_place a c.
Proof.
  intros Hab. revert c. induction Hab as [| x y a b Hxy _ IH]; intros c Hbc.
  - inversion Hbc. constructor.
  - inversion Hbc as [| y' z b' c' Hyz Hrest]; subst.
    constructor; [eapply same_place_trans; eassumption | apply IH, Hrest].
Qed.

Lemma well_keyed_ids (db db' : DB) :
  map id db' = map id db -> well_keyed db -> well_keyed db'.
Proof.
  unfold well_keyed. intros Hm [Hk Hn]. split.
  - apply List.Forall_forall. intros c Hc.
    assert (Hi : In (id c) (map id db)).
    { rewrite <- Hm. apply in_map, Hc. }
    apply in_map_iff in Hi as (r & Hr & Hin).
    rewrite List.Forall_forall in Hk. rewrite <- Hr. apply Hk, Hin.
  - rewrite Hm. exact Hn.
Qed.

Lemma well_keyed_list (db : DB) :
  well_keyed db
  <-> Forall (fun c => id c <> None) db /\ List.NoDup (map id db).
Proof. unfold well_keyed. rewrite NoDup_ListNoDup. reflexivity. Qed.

Lemma next_id_fresh (db : DB) (r : Church) :
  In r db -> id r <> Some (next_id db).
Proof.
  intros Hin Hid. unfold next_id in Hid.
  assert (Hle : (default_get (id r) 0 <=
                 list_max (map (fun c => default_get (id c) 0%nat) db))%nat).
  { pose proof (proj1 (list_max_le
                         (map (fun c => default_get (id c) 0%nat) db) _)
                  (Nat.le_refl _)) as Hall.
    rewrite List.Forall_forall in Hall. apply Hall.
    apply in_map_iff. exists r. split; [reflexivity | exact Hin]. }
  rewrite Hid in Hle. cbn [default_get] in Hle. lia.
Qed.

Lemma has_id_fresh (db : DB) (r : Church) :
  In r db -> has_id (next_id db) r = false.
Proof.
  intros Hin. unfold has_id. destruct (id r) as [j |] eqn:Hj; [| reflexivity].
  apply Nat.eqb_neq. intros <-. apply (next_id_fresh db r Hin). exact Hj.
Qed.

(** Storing a record without a key appends it under a fresh key. *)
Lemma store_new (c : Church) (db : DB) :
  id c = None -> well_keyed db ->
  store c db = (with_id (next_id db) c, db ++ [with_id (next_id db) c])
  /\ well_keyed (db ++ [with_id (next_id db) c]).
Proof.
  intros Hid Hwk. apply well_keyed_list in Hwk as [Hk Hn].
  unfold store. rewrite Hid. split; [reflexivity |].
  apply well_keyed_list. split.
  - apply List.Forall_app. split; [exact Hk |].
    constructor; [discriminate | constructor].
  - rewrite map_app. cbn [map with_id id].
    apply List.NoDup_app; [exact Hn | |].
    + constructor; [intros [] | constructor].
    + intros x Hx [<- | []].
      apply in_map_iff in Hx as (r & Hr & Hin).
      apply (next_id_fresh db r Hin Hr).
Qed.

Lemma unique_by_id (db : DB) (a b : Church) :
  List.NoDup (map id db) -> In a db -> In b db -> id a = id b -> a = b.
Proof.
  induction db as [| x db IH]; intros Hn Ha Hb Hid; [contradiction |].
  cbn [map] in Hn. apply List.NoDup_cons_iff in Hn as [Hx Hn'].
  destruct Ha as [<- | Ha], Hb as [<- | Hb].
  - reflexivity.
  - exfalso. apply Hx. rewrite Hid. apply in_map, Hb.
  - exfalso. apply Hx. rewrite <- Hid. apply in_map, Ha.
  - apply IH; assumption.
Qed.

(** Storing a changed copy of a stored row replaces that row and no
    other. *)
Lemma store_known (c c1 : Church) (db : DB) :
  well_keyed db -> In c db -> same_place c c1 ->
  exists db2 : DB,
    store c1 db = (c1, db2)
    /\ Forall2 same_place db db2
    /\ (c1 = c -> db2 = db).
Proof.
  intros Hwk Hin Hsame. apply well_keyed_list in Hwk as [Hk Hn].
  assert (Hid : id c1 = id c) by apply Hsame.
  rewrite List.Forall_forall in Hk.
  destruct (id c) as [i |] eqn:Hi; [| exfalso; apply (Hk c Hin); exact Hi].
  unfold store. rewrite Hid.
  assert (Hex : existsb (has_id i) db = true).
  { apply existsb_exists. exists c. split; [exact Hin |].
    unfold has_id. rewrite Hi. apply Nat.eqb_refl. }
  rewrite Hex. eexists. split; [reflexivity |].
  assert (Hrow : forall r : Church, In r db -> has_id i r = true -> r = c).
  { intros r Hr Hri. apply (unique_by_id db r c Hn Hr Hin).
    unfold has_id in Hri. destruct (id r) as [j |]; [| discriminate].
    apply Nat.eqb_eq in Hri. subst j. rewrite Hi. reflexivity. }
  split.
  - clear Hex. induction db as [| x db IH]; [constructor |].
    cbn [map]. constructor.
    + destruct (has_id i x) eqn:Hx; [| apply same_place_refl].
      rewrite (Hrow x (or_introl eq_refl) Hx). exact Hsame.
    + pose proof Hn as Hn0. cbn [map] in Hn0.
      apply List.NoDup_cons_iff in Hn0 as [Hx Hn'].
      destruct Hin as [<- | Hin].
      * (* the row is the head: no later row has its key *)
        clear IH. assert (Hno : forall r, In r db -> has_id i r = false).
        { intros r Hr. destruct (has_id i r) eqn:Hri; [| reflexivity].
          exfalso. apply Hx.
          rewrite <- (Hrow r (or_intror Hr) Hri). apply in_map, Hr. }
        clear - Hno. induction db as [| y db IH]; [constructor |].
        cbn [map]. rewrite (Hno y (or_introl eq_refl)).
        constructor; [apply same_place_refl |].
        apply IH. intros r Hr. apply Hno. right. exact Hr.
      * apply IH; try assumption.
        -- intros r Hr. apply Hk. right. exact Hr.
        -- intros r Hr Hri. apply Hrow; [right; exact Hr | exact Hri].
  - intros ->. clear Hex Hsame Hid Hin.
    induction db as [| x db IH]; [reflexivity |].
    cbn [map]. f_equal.
    + destruct (has_id i x) eqn:Hx; [| reflexivity].
      symmetry. apply Hrow; [left; reflexivity | exact Hx].
    + apply IH.
      * intros r Hr. apply Hk. right. exact Hr.
      * cbn [map] in Hn. apply List.NoDup_cons_iff in Hn. apply Hn.
      * intros r Hr Hri. apply Hrow; [right; exact Hr | exact Hri].
Qed.

Lemma new_church_unlocated (n s c t : string) (row : Row) (i : nat) :
  unlocated (with_id i (new_church n s c t row)).
Proof. unfold unlocated. repeat split. Qed.

Lemma lookup_in (n s c t : string) (db : DB) (church : Church) :
  In church (lookup n s c t db) -> In church db.
Proof. unfold lookup. intros Hin. apply filter_In in Hin. apply Hin. Qed.

(** What one row of the input does to the table. *)
Lemma import_row_table (i : nat) (row : Row) (st : ImportState) :
  well_keyed (st_db st) ->
  let st' := import_row i row st in
  well_keyed (st_db st')
  /\ (exists upd new : DB,
        st_db st' = upd ++ new
        /\ Forall2 same_place (st_db st) upd
        /\ Forall unlocated new
        /\ st_created st' = (st_created st + length new)%nat)
  /\ (st_updated st <= st_updated st')%nat
  /\ (st_created st' = st_created st -> st_updated st' = st_updated st ->
      st_db st' = st_db st).
Proof.
  intros Hwk. cbv zeta.
  assert (Hsame : forall st0 : ImportState,
            st_db st0 = st_db st -> st_created st0 = st_created st ->
            st_updated st0 = st_updated st ->
            well_keyed (st_db st0)
            /\ (exists upd new : DB,
                  st_db st0 = upd ++ new
                  /\ Forall2 same_place (st_db st) upd
                  /\ Forall unlocated new
                  /\ st_created st0 = (st_created st + length new)%nat)
            /\ (st_updated st <= st_updated st0)%nat
            /\ (st_created st0 = st_created st ->
                st_updated st0 = st_updated st -> st_db st0 = st_db st)).
  { intros st0 Hdb Hc Hu. rewrite Hdb, Hc, Hu.
    split; [exact Hwk |]. split.
    - exists (st_db st), []. rewrite app_nil_r.
      split; [reflexivity |]. split; [apply Forall2_same_place_refl |].
      split; [constructor | cbn [length]; lia].
    - split; [lia | reflexivity]. }
  unfold import_row.
  destruct (negb (forallb truthy _)); [apply Hsame; reflexivity |].
  unfold upsert, get_or_create.
  match goal with
  | |- context [lookup ?n ?s ?c ?t (st_db st)] =>
      set (n0 := n); set (s0 := s); set (c0 := c); set (t0 := t);
      pose proof (lookup_in n0 s0 c0 t0 (st_db st)) as Hlk;
      destruct (lookup n0 s0 c0 t0 (st_db st)) as [| church [| other more]]
  end.
  - (* no such row: create *)
    unfold save, full_clean, mbind, Except_bind, bind, mret, Except_ret.
    destruct (clean_fields (new_church n0 s0 c0 t0 row));
      [apply Hsame; reflexivity |].
    destruct (clean (new_church n0 s0 c0 t0 row)) as [[] | e];
      [| apply Hsame; reflexivity].
    destruct (store_new (new_church n0 s0 c0 t0 row) (st_db st) eq_refl Hwk)
      as [Hst Hwk'].
    rewrite Hst. cbn [st_db st_created st_updated].
    split; [exact Hwk' |]. split.
    + exists (st_db st),
        [with_id (next_id (st_db st)) (new_church n0 s0 c0 t0 row)].
      split; [reflexivity |]. split; [apply Forall2_same_place_refl |].
      split; [constructor; [apply new_church_unlocated | constructor] |].
      cbn [length]. lia.
    + split; [lia |]. intros Hc. lia.
  - (* one row: update it *)
    unfold mbind, Except_bind, bind, mret, Except_ret.
    match goal with
    | |- context [save ?c1 (st_db st)] => set (church1 := c1)
    end.
    assert (Hin : In church (st_db st)) by (apply Hlk; left; reflexivity).
    assert (Hsp : same_place church church1).
    { unfold same_place, church1. cbn. repeat split. }
    destruct (save church1 (st_db st)) as [[c2 db2] | e] eqn:Hsave;
      [| apply Hsame; reflexivity].
    apply ModelsSpec.save_ok_clean in Hsave as [_ Hst].
    destruct (store_known church church1 (st_db st) Hwk Hin Hsp)
      as (db2' & Hst' & Hf2 & _).
    rewrite Hst' in Hst. injection Hst as _ ->.
    cbn [st_db st_created st_updated].
    split; [apply (well_keyed_ids (st_db st));
            [apply same_place_ids, Hf2 | exact Hwk] |].
    split.
    + exists db2', []. rewrite app_nil_r.
      split; [reflexivity |]. split; [exact Hf2 |].
      split; [constructor | cbn [length]; lia].
    + split; [lia |]. intros _ Hu. lia.
  - (* several rows: the lookup raises *)
    apply Hsame; reflexivity.
Qed.

Lemma import_loop_table (rows : list Row) (i : nat) (st : ImportState) :
  well_keyed (st_db st) ->
  let st' := import_loop i rows st in
  well_keyed (st_db st')
  /\ (exists upd new : DB,
        st_db st' = upd ++ new
        /\ Forall2 same_place (st_db st) upd
        /\ Forall unlocated new
        /\ st_created st' = (st_created st + length new)%nat)
  /\ (st_updated st <= st_updated st')%nat
  /\ (st_created st' = st_created st -> st_updated st' = st_updated st ->
      st_db st' = st_db st).
Proof.
  revert i st. induction rows as [| row rows IH]; intros i st Hwk; cbv zeta.
  - cbn [import_loop]. split; [exact Hwk |]. split.
    + exists (st_db st), []. rewrite app_nil_r.
      split; [reflexivity |]. split; [apply Forall2_same_place_refl |].
      split; [constructor | cbn [length]; lia].
    + split; [lia | reflexivity].
  - cbn [import_loop].
    destruct (import_row_table i row st Hwk)
      as (Hwk1 & (upd1 & new1 & Hdb1 & Hf1 & Hu1 & Hc1) & Hup1 & Hsame1).
    cbv zeta in *.
    set (st1 := import_row i row st) in *.
    destruct (IH (S i) st1 Hwk1)
      as (Hwk2 & (upd2 & new2 & Hdb2 & Hf2 & Hu2 & Hc2) & Hup2 & Hsame2).
    cbv zeta in *.
    set (st2 := import_loop (S i) rows st1) in *.
    split; [exact Hwk2 |]. split.
    + rewrite Hdb1 in Hf2.
      apply List.Forall2_app_inv_l in Hf2
        as (upd2a & upd2b & Hfa & Hfb & ->).
      exists upd2a, (upd2b ++ new2).
      split; [rewrite Hdb2, app_assoc; reflexivity |].
      split; [eapply Forall2_same_place_trans; eassumption |].
      split.
      * apply List.Forall_app. split; [| exact Hu2].
        clear - Hfb Hu1. induction Hfb as [| a b l l' Hab _ IHf];
          [constructor |].
        inversion Hu1; subst. constructor;
          [eapply same_place_unlocated; eassumption | apply IHf; assumption].
      * rewrite Hc2, Hc1, length_app.
        apply List.Forall2_length in Hfb. lia.
    + split; [lia |]. intros Hc Hu.
      assert (Hc0 : st_created st1 = st_created st) by lia.
      assert (Hu0 : st_updated st1 = st_updated st) by lia.
      rewrite Hsame2 by lia. apply Hsame1; assumption.
Qed.

(** X21.  An import never removes a row and never touches the key, the lookup
    columns, the coordinates or the accuracy of a row that was there: the
    table afterwards is the old rows in their order, each possibly with
    other columns changed, followed by one new row per created record;
    new rows have no coordinates.  The table keeps distinct keys, and an
    import that creates and updates nothing returns the table as it
    was. *)
Theorem import_keeps_existing_rows (rows : list Row) (db : DB) :
  well_keyed db ->
  let out := import_church_data rows db in
  well_keyed (snd out)
  /\ (exists upd new : DB,
        snd out = upd ++ new
        /\ Forall2 same_place db upd
        /\ Forall unlocated new
        /\ length new = created (fst out))
  /\ length (snd out) = (length db + created (fst out))%nat
  /\ (created (fst out) = 0%nat -> updated (fst out) = 0%nat ->
      snd out = db).
Proof.
  intros Hwk. cbv zeta. unfold import_church_data.
  destruct rows as [| row rows].
  { cbn [fst snd created updated]. split; [exact Hwk |]. split.
    - exists db, []. rewrite app_nil_r.
      split; [reflexivity |]. split; [apply Forall2_same_place_refl |].
      split; [constructor | reflexivity].
    - split; [lia | reflexivity]. }
  destruct (import_loop_table (row :: rows) 1 (mkImportState 0 0 0 [] db)
              Hwk)
    as (Hwk' & (upd & new & Hdb & Hf & Hu & Hc) & _ & Hsame).
  cbv zeta in *. cbn [fst snd created updated st_db st_created st_updated]
    in *.
  split; [exact Hwk' |]. split.
  - exists upd, new. repeat split; try assumption. lia.
  - split.
    + rewrite Hdb, length_app, Hc.
      apply List.Forall2_length in Hf. lia.
    + intros H1 H2. apply Hsame; assumption.
Qed.

Lemma default_get_twice {A : Type} (v : option A) (d : A) :
  default_get v (default_get v d) = default_get v d.
Proof. destruct v; reflexivity. Qed.

Lemma lookup_app (n s c t : string) (db1 db2 : DB) :
  lookup n s c t (db1 ++ db2) = lookup n s c t db1 ++ lookup n s c t db2.
Proof. unfold lookup. apply List.filter_app. Qed.

Lemma same_columns_refl (c : Church) : same_columns c c.
Proof. unfold same_columns, same_place. repeat split. Qed.

Lemma Forall2_same_columns_refl (db : DB) : Forall2 same_columns db db.
Proof.
  induction db; constructor; [apply same_columns_refl | assumption].
Qed.

(** X22.  Importing a record that is new to the table appends one row,
    under a key no other row has, with the columns of the record.
    Importing the same record a second time finds that row and counts it
    as updated, and the table afterwards has the same rows in the same
    order, each with its key and every data column as the first import
    left them. *)
Theorem reimport_updates_in_place (row : Row) (db : DB) :
  well_keyed db ->
  ~ missing_required row ->
  lookup (name (church_of_row row)) (street_address (church_of_row row))
    (city (church_of_row row)) (state (church_of_row row)) db = [] ->
  clean_fields (church_of_row row) = None ->
  (forall i : nat, clean_fields (with_id i (church_of_row row)) = None) ->
  let first := import_church_data [row] db in
  let second := import_church_data [row] (snd first) in
  (exists (i : nat) (c1 : Church),
      snd first = db ++ [c1]
      /\ same_columns (with_id i (church_of_row row)) c1
      /\ forall r : Church, In r db -> id r <> Some i)
  /\ (created (fst first) = 1 /\ updated (fst first) = 0
      /\ failed (fst first) = 0)%nat
  /\ (created (fst second) = 0 /\ updated (fst second) = 1
      /\ failed (fst second) = 0)%nat
  /\ Forall2 same_columns (snd first) (snd second).
Proof.
  intros Hwk Hm Hl Hf Hf'. cbv zeta.
  set (c' := with_id (next_id db) (church_of_row row)).
  destruct (store_new (church_of_row row) db eq_refl Hwk) as [Hst Hwk1].
  fold c' in Hst, Hwk1.
  assert (Hfirst : import_church_data [row] db
                   = (mkImportSummary true
                        ("Import completed: " +:+ str_nat 1 +:+ " created, "
                         +:+ str_nat 0 +:+ " updated, "
                         +:+ str_nat 0 +:+ " failed")
                        1 1 0 0 [],
                      db ++ [c'])).
  { unfold import_church_data. cbn [import_loop].
    rewrite (ServicesSpec.import_row_creates 1 row
               (mkImportState 0 0 0 [] db) Hm Hl Hf).
    cbn [st_db st_created st_updated st_failed st_failed_records].
    rewrite Hst. reflexivity. }
  rewrite Hfirst. cbn [fst snd created updated failed].
  split.
  { exists (next_id db), c'. split; [reflexivity |].
    split; [apply same_columns_refl |].
    intros r Hr. apply next_id_fresh, Hr. }
  split; [repeat split |].
  assert (Hrow : import_row 1 row (mkImportState 0 0 0 [] (db ++ [c']))
                 = mkImportState 0 1 0 [] (db ++ [c'])).
  { rewrite (ServicesSpec.import_row_present 1 row _ Hm).
    unfold upsert, get_or_create. cbn [st_db].
    rewrite lookup_app. cbn [church_of_row new_church name street_address
      city state] in Hl. rewrite Hl. cbn [app].
    assert (Hself : lookup
                      (strip (default_get (row_name row) EmptyString))
                      (strip (default_get (row_street_address row)
                                EmptyString))
                      (strip (default_get (row_city row) EmptyString))
                      (strip (default_get (row_state row) EmptyString))
                      [c'] = [c']).
    { unfold lookup, c', church_of_row, new_church, with_id.
      cbn [List.filter name street_address city state].
      rewrite !String.eqb_refl. reflexivity. }
    rewrite Hself.
    unfold mbind, Except_bind, bind, mret, Except_ret.
    assert (Hsame : mkChurch (id c') (name c') (street_address c') (city c')
                      (state c')
                      (default_get (row_zip_code row) (zip_code c'))
                      (latitude c') (longitude c')
                      (default_get (row_phone row) (phone c'))
                      (default_get (row_website row) (website c'))
                      (default_get (row_email row) (email c'))
                      (default_get (row_service_times row) (service_times c'))
                      (geocoding_accuracy c')
                      (default_get (row_is_active row) (is_active c'))
                    = c').
    { unfold c', church_of_row, new_church, with_id.
      cbn [id name street_address city state zip_code latitude longitude
             phone website email service_times geocoding_accuracy is_active].
      rewrite !default_get_twice. reflexivity. }
    rewrite Hsame.
    assert (Hsave : save c' (db ++ [c']) = Return (c', db ++ [c'])).
    { assert (Hfc : clean_fields c' = None) by apply Hf'.
      unfold save, full_clean. rewrite Hfc.
      change (clean c') with (clean (church_of_row row)).
      rewrite (ServicesSpec.church_of_row_clean row Hm).
      unfold mbind, Except_bind, bind, mret, Except_ret.
      destruct (store_known c' c' (db ++ [c']) Hwk1)
        as (db2 & Hst2 & _ & Heq).
      - apply in_or_app. right. left. reflexivity.
      - apply same_place_refl.
      - rewrite Hst2, (Heq eq_refl). reflexivity. }
    rewrite Hsave. reflexivity. }
  unfold import_church_data. cbn [import_loop]. rewrite Hrow.
  cbn [fst snd created updated failed st_db st_created st_updated st_failed].
  split; [repeat split |]. apply Forall2_same_columns_refl.
Qed.

End table.

Lemma well_keyed_sample : well_keyed [north_church].
Proof.
  split.
  - constructor; [discriminate | constructor].
  - apply NoDup_singleton.
Qed.

Lemma import_keeps_existing_rows_witness :
  well_keyed [north_church]
  /\ length (snd (@import_church_data permissive [valid_row] [north_church]))
     = 2%nat.
Proof.
  split; [exact well_keyed_sample |].
  destruct (@import_keeps_existing_rows permissive [valid_row] [north_church]
              well_keyed_sample) as (_ & _ & Hlen & _).
  rewrite Hlen. vm_compute. reflexivity.
Defined.

Lemma reimport_updates_in_place_witness :
  well_keyed [north_church]
  /\ Forall2 same_columns
       (snd (@import_church_data permissive [valid_row] [north_church]))
       (snd (@import_church_data permissive [valid_row]
               (snd (@import_church_data permissive [valid_row]
                       [north_church])))).
Proof.
  split; [exact well_keyed_sample |].
  refine (proj2 (proj2 (proj2
    (@reimport_updates_in_place permissive valid_row [north_church]
       well_keyed_sample _ _ _ _)))).
  - unfold missing_required. vm_compute.
    intros [Hm | [Hm | [Hm | Hm]]]; discriminate Hm.
  - vm_compute. reflexivity.
  - reflexivity.
  - intros i. reflexivity.
Defined.

End ImportFacts.

(* ===================================================================== *)
(** * Further properties: geocode_all_churches *)
(* ===================================================================== *)

Module BulkFacts.
Import Py Models Services Samples.

Section bulk_facts.
Context `{Django} `{Runtime} `{Ordering}.

(** No church of the working set is skipped: without [force_update] the
    set holds churches without coordinates only. *)
Lemma working_set_not_skipped (force_update : bool) (db : DB) :
  Forall (fun c => has_coordinates c && negb force_update = false)
    (churches_to_geocode force_update db).
Proof.
  apply List.Forall_forall. intros c Hc. unfold churches_to_geocode in Hc.
  destruct force_update; [apply andb_false_r |].
  apply filter_In in Hc as [_ Hc].
  apply andb_prop in Hc as [Hc Hlo]. apply andb_prop in Hc as [_ Hla].
  unfold has_coordinates, coordinates.
  destruct (latitude c); [discriminate Hla |]. reflexivity.
Qed.

Lemma ordered_working_set (force_update : bool) (db : DB) :
  Forall (fun c => has_coordinates c && negb force_update = false)
    (order_by (churches_to_geocode force_update db))
  /\ length (order_by (churches_to_geocode force_update db))
     = length (churches_to_geocode force_update db).
Proof.
  pose proof (order_by_permutation (churches_to_geocode force_update db))
    as Hp.
  split.
  - apply (Permutation_Forall (Permutation_sym Hp)).
    apply working_set_not_skipped.
  - apply Permutation_length, Hp.
Qed.

Lemma geocode_church_run (self : ChurchDataService)
  (service : GeocodingService) (church : Church) (force_update : bool)
  (db : DB) (w : World) :
  has_coordinates church && negb force_update = false ->
  obtain_service self = Return service ->
  exists (res : ChurchResult) (church' : Church) (db' : DB),
    geocode_church self church force_update db w
    = Return (res, mkChurchDataService (Some service), church', db',
              snd (geocode_address (full_address church) "US" None None
                     true w))
    /\ skipped res = false.
Proof.
  intros Hns Hsvc. unfold geocode_church. rewrite Hns, Hsvc.
  unfold mbind, Except_bind, bind, mret, Except_ret.
  destruct (geocode_address (full_address church) "US" None None true w)
    as [[la lo acc fa cf ly | err] w1]; cbn [snd].
  - destruct (set_coordinates church la lo acc) as [c1 | e].
    + destruct (save c1 db) as [[c2 db2] | e];
        eexists _, _, _; split; reflexivity.
    + eexists _, _, _; split; reflexivity.
  - eexists _, _, _; split; reflexivity.
Qed.

Lemma geocode_church_no_service (self : ChurchDataService) (e : Exception)
  (church : Church) (force_update : bool) (db : DB) (w : World) :
  has_coordinates church && negb force_update = false ->
  obtain_service self = Raise e ->
  geocode_church self church force_update db w = Raise e.
Proof.
  intros Hns Hsvc. unfold geocode_church. rewrite Hns, Hsvc. reflexivity.
Qed.

Lemma obtain_service_kept (service : GeocodingService) :
  obtain_service (mkChurchDataService (Some service)) = Return service.
Proof. reflexivity. Qed.

(** One pass of the loop body over a church that is not skipped. *)
Lemma geocode_step_run (force_update : bool) (total_churches i : nat)
  (church : Church) (st : BulkState) (service : GeocodingService) :
  has_coordinates church && negb force_update = false ->
  obtain_service (bulk_self st) = Return service ->
  exists st' : BulkState,
    geocode_step force_update total_churches i church st = Return st'
    /\ bulk_self st' = mkChurchDataService (Some service)
    /\ bulk_skipped st' = bulk_skipped st
    /\ (bulk_successful st' + bulk_failed st'
        = S (bulk_successful st + bulk_failed st))%nat
    /\ (bulk_failed st <= bulk_failed st')%nat
    /\ (length (bulk_failed_churches st') + bulk_failed st
        = length (bulk_failed_churches st) + bulk_failed st')%nat
    /\ (requests (bulk_world st') <= requests (bulk_world st) + 4)%nat
    /\ length (bulk_pauses st')
       = (length (bulk_pauses st)
          + if (i <? total_churches)%nat then 1 else 0)%nat.
Proof.
  intros Hns Hsvc. unfold geocode_step.
  destruct (geocode_church_run (bulk_self st) service church force_update
              (bulk_db st) (bulk_world st) Hns Hsvc)
    as (res & church' & db' & Hrun & Hsk).
  rewrite Hrun. unfold mbind, Except_bind, bind, mret, Except_ret.
  pose proof (ServicesSpec.geocode_address_effects (full_address church) "US"
                None None true (bulk_world st)) as [_ Hreq].
  cbv zeta in Hreq.
  change (Z.to_nat (or_default None DEFAULT_RETRIES + 1)) with 4%nat in Hreq.
  assert (Hp : forall w1 : World,
            length (if (i <? total_churches)%nat
                    then pause (1 # 10) w1 (bulk_pauses st)
                    else bulk_pauses st)
            = (length (bulk_pauses st)
               + if (i <? total_churches)%nat then 1 else 0)%nat).
  { intros w1. destruct (i <? total_churches)%nat.
    - unfold pause. rewrite length_app. reflexivity.
    - lia. }
  rewrite Hsk.
  destruct (result_success res); eexists; (split; [reflexivity |]);
    cbn [bulk_self bulk_skipped bulk_successful bulk_failed
           bulk_failed_churches bulk_world bulk_pauses];
    rewrite ?length_app; cbn [length];
    (split; [reflexivity |]); (split; [reflexivity |]);
    (split; [lia |]); (split; [lia |]); (split; [lia |]);
    (split; [exact Hreq | apply Hp]).
Qed.

Lemma geocode_loop_run (force_update : bool) (total_churches : nat)
  (churches : list Church) (i : nat) (st : BulkState)
  (service : GeocodingService) :
  Forall (fun c => has_coordinates c && negb force_update = false) churches ->
  obtain_service (bulk_self st) = Return service ->
  exists st' : BulkState,
    geocode_loop force_update total_churches i churches st = Return st'
    /\ bulk_skipped st' = bulk_skipped st
    /\ (bulk_successful st' + bulk_failed st'
        = bulk_successful st + bulk_failed st + length churches)%nat
    /\ (bulk_failed st <= bulk_failed st')%nat
    /\ (length (bulk_failed_churches st') + bulk_failed st
        = length (bulk_failed_churches st) + bulk_failed st')%nat
    /\ (requests (bulk_world st')
        <= requests (bulk_world st) + 4 * length churches)%nat
    /\ length (bulk_pauses st')
       = (length (bulk_pauses st)
          + Nat.min (length churches) (total_churches - i))%nat.
Proof.
  revert i st. induction churches as [| church rest IH];
    intros i st Hall Hsvc.
  - exists st. cbn [geocode_loop length]. split; [reflexivity |].
    repeat split; lia.
  - inversion Hall as [| c l Hns Hrest]; subst.
    destruct (geocode_step_run force_update total_churches i church st
                service Hns Hsvc)
      as (st1 & Hstep & Hself & Hk1 & Hc1 & Hf1 & Hl1 & Hr1 & Hp1).
    destruct (IH (S i) st1 Hrest) as (st2 & Hloop & Hk2 & Hc2 & Hf2 & Hl2
                                      & Hr2 & Hp2).
    { rewrite Hself. apply obtain_service_kept. }
    exists st2. cbn [geocode_loop]. rewrite Hstep.
    unfold mbind, Except_bind, bind. split; [exact Hloop |].
    cbn [length]. split; [congruence |].
    split; [lia |]. split; [lia |]. split; [lia |]. split; [lia |].
    rewrite Hp2, Hp1.
    destruct (i <? total_churches)%nat eqn:Hi.
    + apply Nat.ltb_lt in Hi. lia.
    + apply Nat.ltb_ge in Hi. lia.
Qed.

Lemma geocode_loop_no_service (force_update : bool) (total_churches i : nat)
  (church : Church) (rest : list Church) (st : BulkState) (e : Exception) :
  has_coordinates church && negb force_update = false ->
  obtain_service (bulk_self st) = Raise e ->
  geocode_loop force_update total_churches i (church :: rest) st = Raise e.
Proof.
  intros Hns Hsvc. cbn [geocode_loop]. unfold geocode_step.
  rewrite (geocode_church_no_service (bulk_self st) e church force_update
             (bulk_db st) (bulk_world st) Hns Hsvc).
  reflexivity.
Qed.

(** X19.  A run that returns: the summary reports success; [total] is the
    number of active churches (those without coordinates unless
    [force_update]); [skipped] is always 0; every church is counted as
    successful or failed; the list of failure records is absent exactly
    when there was nothing to geocode and holds one record per failed
    church otherwise; at most four requests are issued per church; and a
    pause is taken after every church but the last. *)
Theorem geocode_all_churches_counts
  (self : ChurchDataService) (force_update : bool) (db : DB) (w : World)
  (s : GeocodeSummary) (st : BulkState) :
  geocode_all_churches self force_update db w = Return (s, st) ->
  summary_success s = true
  /\ summary_total s = length (churches_to_geocode force_update db)
  /\ summary_skipped s = 0%nat
  /\ (summary_successful s + summary_failed s = summary_total s)%nat
  /\ (summary_failed_churches s = None <-> summary_total s = 0%nat)
  /\ (forall records : list (string * string),
        summary_failed_churches s = Some records ->
        length records = summary_failed s)
  /\ (requests (bulk_world st) <= requests w + 4 * summary_total s)%nat
  /\ length (bulk_pauses st) = (summary_total s - 1)%nat.
Proof.
  unfold geocode_all_churches. cbv zeta.
  destruct (ordered_working_set force_update db) as [Hall Hlen].
  destruct (churches_to_geocode force_update db) as [| church rest] eqn:Hset.
  { cbn [length Nat.eqb]. intros [= <- <-].
    cbn [summary_success summary_total summary_skipped summary_successful
           summary_failed summary_failed_churches bulk_world bulk_pauses
           length].
    split; [reflexivity |]. split; [reflexivity |]. split; [reflexivity |].
    split; [reflexivity |]. split; [tauto |].
    split; [intros records Hr; discriminate Hr |]. split; [lia | reflexivity]. }
  cbn [length Nat.eqb] in *. unfold mbind, Except_bind, bind.
  destruct (obtain_service self) as [service | e] eqn:Hsvc.
  - destruct (geocode_loop_run force_update (S (length rest))
                (order_by (church :: rest)) 1
                (mkBulkState 0 0 0 [] self db w [])
                service Hall Hsvc)
      as (st' & Hloop & Hk & Hc & Hf & Hl & Hr & Hp).
    rewrite Hloop. intros [= <- <-].
    cbn [summary_success summary_total summary_skipped summary_successful
           summary_failed summary_failed_churches bulk_skipped
           bulk_successful bulk_failed bulk_failed_churches bulk_world
           bulk_pauses length] in *.
    rewrite Hlen in *.
    split; [reflexivity |]. split; [reflexivity |]. split; [exact Hk |].
    split; [lia |]. split; [split; intros Hn; discriminate Hn |].
    split; [intros records [= <-]; lia |]. split; lia.
  - destruct (order_by (church :: rest)) as [| c0 l0]; [discriminate Hlen |].
    inversion Hall as [| c l Hns Hrest]; subst.
    rewrite (geocode_loop_no_service force_update (S (length rest)) 1 c0
               l0 (mkBulkState 0 0 0 [] self db w []) e Hns Hsvc).
    discriminate.
Qed.

(** X20.  With nothing to geocode the call returns at once and touches
    nothing, whether or not a service can be built.  With churches to
    geocode and no service at hand, the error raised when the service is
    built is raised by the call: a missing API key surfaces as an
    exception, not as a failed summary. *)
Theorem geocode_all_churches_needs_service
  (self : ChurchDataService) (force_update : bool) (db : DB) (w : World) :
  (churches_to_geocode force_update db = [] ->
   geocode_all_churches self force_update db w
   = Return (mkGeocodeSummary true "No churches need geocoding" 0 0 0 0 None,
             mkBulkState 0 0 0 [] self db w []))
  /\ (forall e : Exception,
        churches_to_geocode force_update db <> [] ->
        obtain_service self = Raise e ->
        geocode_all_churches self force_update db w = Raise e).
Proof.
  unfold geocode_all_churches. cbv zeta.
  destruct (ordered_working_set force_update db) as [Hall Hlen].
  destruct (churches_to_geocode force_update db) as [| church rest] eqn:Hset.
  - split; [reflexivity |]. intros e Hne. contradiction.
  - cbn [length Nat.eqb] in *. split; [discriminate |].
    intros e _ Hsvc.
    destruct (order_by (church :: rest)) as [| c0 l0];
      [discriminate Hlen |].
    inversion Hall as [| c l Hns Hrest]; subst.
    rewrite (geocode_loop_no_service force_update (S (length rest)) 1
               c0 l0 (mkBulkState 0 0 0 [] self db w []) e Hns Hsvc).
    reflexivity.
Qed.

End bulk_facts.

Lemma geocode_all_churches_counts_witness :
  match @geocode_all_churches permissive
          (scripted (fun _ => new_york_reply)) by_location
          (mkChurchDataService None)
          false [unlocated_church; north_church] empty_world with
  | Return (s, _) =>
      summary_total s = 1%nat /\ summary_skipped s = 0%nat
      /\ (summary_successful s + summary_failed s)%nat = 1%nat
  | Raise _ => False
  end.
Proof.
  destruct (@geocode_all_churches permissive
              (scripted (fun _ => new_york_reply)) by_location
              (mkChurchDataService None)
              false [unlocated_church; north_church] empty_world)
    as [[s st] | e] eqn:E.
  - destruct (@geocode_all_churches_counts permissive
                (scripted (fun _ => new_york_reply)) by_location
                _ _ _ _ _ _ E)
      as (_ & Ht & Hk & Hc & _).
    assert (Hone : summary_total s = 1%nat)
      by (rewrite Ht; vm_compute; reflexivity).
    split; [exact Hone |]. split; [exact Hk |]. rewrite Hc. exact Hone.
  - vm_compute in E. discriminate E.
Defined.

Lemma geocode_all_churches_needs_service_witness :
  @geocode_all_churches permissive (without_key always_timeout) by_location
    (mkChurchDataService None) false [unlocated_church] empty_world
  = Raise (GeocodingError
      "OpenRouteService API key is required. Set OPENROUTESERVICE_API_KEY in settings.").
Proof.
  destruct (@geocode_all_churches_needs_service permissive
              (without_key always_timeout) by_location
              (mkChurchDataService None) false
              [unlocated_church] empty_world) as (_ & Hraise).
  apply Hraise.
  - vm_compute. discriminate.
  - reflexivity.
Defined.

End BulkFacts.

(* ===================================================================== *)
(** * Further properties: the search view *)
(* ===================================================================== *)

Module SearchFacts.
Import Py Models Services Views Samples.

(** The text match ignores the case of ASCII letters and of no other
    character: a capital E with an acute accent (code 201) does not match
    its small form (code 233). *)
Lemma icontains_folds_ascii_only :
  icontains "Saint John" "saint JOHN" = true
  /\ icontains (String (ascii_of_nat 201) "glise")
       (String (ascii_of_nat 233) "glise") = false.
Proof. split; vm_compute; reflexivity. Qed.

Section search_more.
Context `{Runtime} `{RequestParsing}.

Lemma nearby_active_stored (lat0 lng0 radius0 : R) (db : DB) (r : Church)
  (d : option R) :
  In (r, d) (nearby_with_distance lat0 lng0 radius0 db) ->
  In r db /\ is_active r = true /\ has_coordinates r = true /\ d <> None.
Proof.
  intros Hin.
  destruct (ViewsSpec.nearby_with_distance_spec lat0 lng0 radius0 db r d Hin)
    as (Hdb & Hact & la & lo & Hla & Hlo & _ & ->).
  split; [exact Hdb |]. split; [exact Hact |].
  split; [| discriminate].
  unfold has_coordinates, coordinates. rewrite Hla, Hlo. reflexivity.
Qed.

Lemma text_search_active_stored (query : string) (radius0 : R) (db : DB)
  (w : World) (r : Church) (d : option R) :
  In (r, d) (fst (fst (text_search query radius0 db w))) ->
  In r db /\ is_active r = true /\ (d <> None -> has_coordinates r = true).
Proof.
  unfold text_search.
  destruct (List.filter _ db) as [| c0 cs] eqn:Hf.
  - destruct (GeocodingService_init None); [| intros []].
    destruct (geocode_address query "US" None None true w)
      as [[la lo acc fa cf ly | err] w1]; cbn [fst]; [| intros []].
    intros Hin. apply nearby_active_stored in Hin as (H1 & H2 & H3 & _).
    split; [exact H1 |]. split; [exact H2 |]. intros _. exact H3.
  - cbn [fst]. rewrite <- Hf. intros Hin.
    apply in_map_iff in Hin as (c & [= <- <-] & Hc).
    apply filter_In in Hc as [Hdb Hc]. apply andb_prop in Hc as [Hact _].
    split; [exact Hdb |]. split; [exact Hact |]. intros Hd. contradiction.
Qed.

(** X23.  Whatever the parameters, every record a search returns is an active
    church of the table, and one that carries a distance has
    coordinates. *)
Theorem search_returns_active_stored_churches
  (params : QueryParams) (db : DB) (w : World) (r : Church) (d : option R) :
  In (r, d) (fst (fst (get_queryset params db w))) ->
  In r db /\ is_active r = true /\ (d <> None -> has_coordinates r = true).
Proof.
  unfold get_queryset. cbv zeta.
  destruct (given (lat params) && given (lng params)).
  - destruct (float_of_str (default_get (lat params) EmptyString));
      [| intros []].
    destruct (float_of_str (default_get (lng params) EmptyString));
      [| intros []].
    cbn [fst]. intros Hin.
    apply nearby_active_stored in Hin as (H1 & H2 & H3 & _).
    split; [exact H1 |]. split; [exact H2 |]. intros _. exact H3.
  - destruct (truthy (default_get (q params) EmptyString)); [| intros []].
    apply text_search_active_stored.
Qed.



End search_more.

Lemma search_returns_active_stored_churches_witness :
  In (corner_church, None)
    (fst (fst (@get_queryset (scripted always_timeout) sample_parsing
                 (mkQueryParams (Some "fort lee") None None None)
                 [unlocated_church; corner_church] empty_world)))
  /\ is_active corner_church = true.
Proof.
  assert (Hin : In (corner_church, @None R)
                  (fst (fst (@get_queryset (scripted always_timeout)
                               sample_parsing
                               (mkQueryParams (Some "fort lee") None None
                                  None)
                               [unlocated_church; corner_church]
                               empty_world)))).
  { vm_compute. left. reflexivity. }
  split; [exact Hin |].
  exact (proj1 (proj2
    (@search_returns_active_stored_churches (scripted always_timeout)
       sample_parsing _ _ _ _ _ Hin))).
Defined.



End SearchFacts.

(* ===================================================================== *)
(** * Further properties: the list and map views, the geocoding endpoint *)
(* ===================================================================== *)

Module EndpointFacts.
Import Py Models Services Views Samples.

Section listing_facts.
Context `{Ordering}.

Lemma order_by_In (rows : list Church) (c : Church) :
  In c (order_by rows) <-> In c rows.
Proof.
  pose proof (order_by_permutation rows) as Hp. split.
  - apply Permutation_in, Hp.
  - apply Permutation_in, Permutation_sym, Hp.
Qed.

Lemma lower_true_truthy (v : string) : lower v = "true" -> truthy v = true.
Proof. destruct v; [discriminate | reflexivity]. Qed.

Lemma has_coordinates_columns (c : Church) :
  negb (is_None (latitude c)) && negb (is_None (longitude c))
  = has_coordinates c.
Proof.
  unfold has_coordinates, coordinates.
  destruct (latitude c), (longitude c); reflexivity.
Qed.

(** X26.  The map view is the list view asked for [has_coordinates=true] (in
    any letter case) with no other filter, rows and order alike; its rows
    are exactly the active churches of the table that have coordinates.
    Any other value of [has_coordinates] is ignored, as if the parameter
    were absent.  Every row of the list view is an active church of the
    table. *)
Theorem map_view_is_list_view_with_coordinates (db : DB) :
  (forall v : string,
      lower v = "true" ->
      ChurchListAPIView_get_queryset (mkListParams None None (Some v)) db
      = ChurchMapAPIView_get_queryset db)
  /\ (forall c : Church,
        In c (ChurchMapAPIView_get_queryset db)
        <-> In c db /\ is_active c = true /\ has_coordinates c = true)
  /\ (forall (s ci : option string) (v : string),
        lower v <> "true" ->
        ChurchListAPIView_get_queryset (mkListParams s ci (Some v)) db
        = ChurchListAPIView_get_queryset (mkListParams s ci None) db)
  /\ (forall (params : ListParams) (c : Church),
        In c (ChurchListAPIView_get_queryset params db) ->
        In c db /\ is_active c = true).
Proof.
  split; [| split; [| split]].
  - intros v Hv. unfold ChurchListAPIView_get_queryset. cbv zeta.
    cbn [state_param city_param has_coordinates_param given].
    rewrite (lower_true_truthy v Hv). cbn [default_get]. rewrite Hv.
    reflexivity.
  - intros c. unfold ChurchMapAPIView_get_queryset.
    rewrite order_by_In, filter_In, <- andb_assoc, has_coordinates_columns,
      andb_true_iff.
    tauto.
  - intros s ci v Hv. unfold ChurchListAPIView_get_queryset. cbv zeta.
    cbn [state_param city_param has_coordinates_param default_get].
    apply String.eqb_neq in Hv. rewrite Hv, andb_false_r.
    cbn [given andb]. reflexivity.
  - intros params c. unfold ChurchListAPIView_get_queryset. cbv zeta.
    rewrite order_by_In, filter_In. intros [Hdb Hq].
    split; [exact Hdb |].
    destruct (given (state_param params));
      destruct (given (city_param params));
      destruct (given (has_coordinates_param params)
                && String.eqb
                     (lower (default_get (has_coordinates_param params)
                               EmptyString)) "true");
      repeat (apply andb_prop in Hq as [Hq _]); exact Hq.
Qed.

End listing_facts.

Lemma map_view_is_list_view_with_coordinates_witness :
  lower "TRUE" = "true"
  /\ @ChurchListAPIView_get_queryset by_location
       (mkListParams None None (Some "TRUE"))
       [unlocated_church; north_church; corner_church]
     = [corner_church; north_church].
Proof.
  split; [reflexivity |].
  destruct (@map_view_is_list_view_with_coordinates by_location
              [unlocated_church; north_church; corner_church])
    as (Hmap & _).
  rewrite (Hmap "TRUE" eq_refl). vm_compute. reflexivity.
Defined.

Section endpoint_facts.
Context `{Runtime}.

(** X27.  The geocoding endpoint answers 200, 400 or 500 and issues at most four
    requests.  A missing or blank address is refused with 400 before a
    service is built, so also when no API key is configured, and the world
    is left alone.  A non-blank address with no API key gives 500.  The
    answer is 200 only when address and country are strings (the country
    ["US"] when absent) and the geocoder succeeds on the trimmed address;
    the body then carries the geocoder's coordinates, accuracy, label and
    confidence. *)
Theorem geocoding_api_statuses (data0 : RequestData) (w : World) :
  let out := geocoding_api data0 w in
  (status (fst out) = 200 \/ status (fst out) = 400
   \/ status (fst out) = 500)%Z
  /\ (requests (snd out) <= requests w + 4)%nat
  /\ (forall (a country0 : option Json),
        data0 = Mapping a country0 ->
        a = None
        \/ (exists s : string, a = Some (JString s) /\ all_isspace s = true) ->
        out = (mkApiResponse 400 (ErrorBody "Address is required"), w))
  /\ (forall (s : string) (country0 : option Json) (e : Exception),
        data0 = Mapping (Some (JString s)) country0 ->
        truthy (strip s) = true ->
        GeocodingService_init None = Raise e ->
        out = (internal_server_error, w))
  /\ (status (fst out) = 200%Z ->
      exists (s : string) (country0 : option Json) (country : string)
             (la lo : Q) (acc fa : string) (cf : Q) (ly : string),
        data0 = Mapping (Some (JString s)) country0
        /\ default_get country0 (JString "US") = JString country
        /\ geocode_address (strip s) country None None true w
           = (Success la lo acc fa cf ly, snd out)
        /\ body (fst out) = GeocodedBody la lo acc fa cf).
Proof.
  cbv zeta. unfold geocoding_api.
  destruct data0 as [| a country0].
  { cbn [fst snd status internal_server_error].
    split; [right; right; reflexivity |]. split; [lia |].
    split; [intros ? ? Hd; discriminate Hd |].
    split; [intros ? ? ? Hd; discriminate Hd |]. intros Hs. discriminate Hs. }
  destruct a as [[s |] |]; cbn [default_get].
  2:{ (* an address that is no string *)
      cbn [fst snd status internal_server_error].
      split; [right; right; reflexivity |]. split; [lia |].
      split; [intros a c0 [= <- <-] [Hn | (s & Hs & _)]; discriminate |].
      split; [intros ? ? ? Hd; discriminate Hd |].
      intros Hs. discriminate Hs. }
  2:{ (* no address *)
      cbn [strip lstrip rstrip truthy negb fst snd status].
      split; [right; left; reflexivity |]. split; [lia |].
      split; [intros; reflexivity |].
      split; [intros ? ? ? Hd; discriminate Hd |].
      intros Hs. discriminate Hs. }
  destruct (truthy (strip s)) eqn:Hnb; cbn [negb].
  2:{ cbn [fst snd status].
      split; [right; left; reflexivity |]. split; [lia |].
      split; [intros; reflexivity |].
      split; [intros s' c0 e [= <- <-] Ht; congruence |].
      intros Hs. discriminate Hs. }
  assert (Hblank : forall a c0 : option Json,
            Mapping (Some (JString s)) country0 = Mapping a c0 ->
            a = None
            \/ (exists s' : string,
                   a = Some (JString s') /\ all_isspace s' = true) ->
            False).
  { intros a c0 [= <- <-] [Hn | (s' & [= <-] & Hs)]; [discriminate |].
    rewrite (ServicesSpec.strip_all_isspace _ Hs) in Hnb. discriminate. }
  destruct (GeocodingService_init None) as [service | e0].
  2:{ cbn [fst snd status internal_server_error].
      split; [right; right; reflexivity |]. split; [lia |].
      split; [intros a c0 Hd Hb; destruct (Hblank a c0 Hd Hb) |].
      split; [intros; reflexivity |]. intros Hs. discriminate Hs. }
  destruct (default_get country0 (JString "US")) as [country |] eqn:Hco.
  2:{ cbn [fst snd status internal_server_error].
      split; [right; right; reflexivity |]. split; [lia |].
      split; [intros a c0 Hd Hb; destruct (Hblank a c0 Hd Hb) |].
      split; [intros ? ? ? _ _ Hd; discriminate Hd |].
      intros Hs. discriminate Hs. }
  pose proof (ServicesSpec.geocode_address_effects (strip s) country None
                None true w) as [_ Hreq]. cbv zeta in Hreq.
  change (Z.to_nat (or_default None DEFAULT_RETRIES + 1)) with 4%nat in Hreq.
  destruct (geocode_address (strip s) country None None true w)
    as [[la lo acc fa cf ly | [err |]] w1] eqn:Hg;
    cbn [fst snd status body internal_server_error] in *.
  - split; [left; reflexivity |]. split; [exact Hreq |].
    split; [intros a c0 Hd Hb; destruct (Hblank a c0 Hd Hb) |].
    split; [intros ? ? ? _ _ Hd; discriminate Hd |].
    intros _. exists s, country0, country, la, lo, acc, fa, cf, ly.
    split; [reflexivity |]. split; [exact Hco |].
    split; [exact Hg | reflexivity].
  - split; [right; left; reflexivity |]. split; [exact Hreq |].
    split; [intros a c0 Hd Hb; destruct (Hblank a c0 Hd Hb) |].
    split; [intros ? ? ? _ _ Hd; discriminate Hd |].
    intros Hs. discriminate Hs.
  - split; [right; right; reflexivity |]. split; [exact Hreq |].
    split; [intros a c0 Hd Hb; destruct (Hblank a c0 Hd Hb) |].
    split; [intros ? ? ? _ _ Hd; discriminate Hd |].
    intros Hs. discriminate Hs.
Qed.

End endpoint_facts.

Lemma geocoding_api_statuses_witness :
  all_isspace "   " = true
  /\ @geocoding_api (without_key always_timeout)
       (Mapping (Some (JString "   ")) None) empty_world
     = (mkApiResponse 400 (ErrorBody "Address is required"), empty_world).
Proof.
  split; [reflexivity |].
  destruct (@geocoding_api_statuses (without_key always_timeout)
              (Mapping (Some (JString "   ")) None) empty_world)
    as (_ & _ & Hblank & _).
  apply (Hblank (Some (JString "   ")) None eq_refl).
  right. exists "   ". split; reflexivity.
Defined.

End EndpointFacts.

(* ===================================================================== *)
(** * Further properties: recovery after transient failures *)
(* ===================================================================== *)

Module RecoveryFacts.
Import Py Models Services Samples.

Section recovery.
Context `{Runtime}.

(** A prefix of attempts that all end in a timeout or a request error is
    walked through: one request and the scheduled wait per attempt, the
    cache untouched. *)
Lemma loop_skips_transients (address country : string) (timeout retries : Z)
  (use_cache : bool) (pre rest : list nat) (last_error : option string)
  (w : World) :
  (forall j : nat, (j < length pre)%nat ->
     transient (session_get (requests w + j) address country timeout)
     = true) ->
  exists (e' : option string) (w' : World),
    attempt_loop address country timeout retries use_cache (pre ++ rest)
      last_error w
    = attempt_loop address country timeout retries use_cache rest e' w'
    /\ cache w' = cache w
    /\ requests w' = (requests w + length pre)%nat
    /\ trace w'
       = trace w
         ++ retry_schedule (EvRequest address country timeout) retries pre.
Proof.
  revert last_error w.
  induction pre as [| attempt pre IH]; intros last_error w Hall.
  - exists last_error, w. cbn [app length retry_schedule flat_map].
    split; [reflexivity |]. split; [reflexivity |].
    split; [lia | symmetry; apply app_nil_r].
  - assert (H0 := Hall 0%nat ltac:(cbn [length]; lia)).
    rewrite Nat.add_0_r in H0.
    set (w1 := wait_before_retry attempt retries
                 (snd (http_get address country timeout w))).
    assert (Hr1 : requests w1 = S (requests w)).
    { unfold w1. rewrite ServicesSpec.requests_wait. reflexivity. }
    assert (Hc1 : cache w1 = cache w).
    { unfold w1, wait_before_retry.
      destruct (Z.of_nat attempt <? retries)%Z; reflexivity. }
    assert (Ht1 : trace w1
                  = trace w
                    ++ retry_schedule (EvRequest address country timeout)
                         retries [attempt]).
    { unfold w1, wait_before_retry, retry_schedule.
      cbn [flat_map http_get snd].
      destruct (Z.of_nat attempt <? retries)%Z;
        cbn [sleep emit trace app]; rewrite <- ?app_assoc; reflexivity. }
    assert (Hstep : forall e : option string,
              exists (e' : option string) (w' : World),
                attempt_loop address country timeout retries use_cache
                  (pre ++ rest) e w1
                = attempt_loop address country timeout retries use_cache
                    rest e' w'
                /\ cache w' = cache w
                /\ requests w' = (requests w + length (attempt :: pre))%nat
                /\ trace w'
                   = trace w
                     ++ retry_schedule (EvRequest address country timeout)
                          retries (attempt :: pre)).
    { intros e. destruct (IH e w1) as (e' & w' & Heq & Hc & Hr & Ht).
      { intros j Hj. rewrite Hr1.
        replace (S (requests w) + j)%nat with (requests w + S j)%nat by lia.
        apply Hall. cbn [length]. lia. }
      exists e', w'. split; [exact Heq |]. split; [congruence |].
      split; [rewrite Hr, Hr1; cbn [length]; lia |].
      rewrite Ht, Ht1, <- app_assoc. unfold retry_schedule.
      cbn [flat_map]. rewrite app_nil_r. reflexivity. }
    cbn [app]. simpl attempt_loop.
    destruct (session_get (requests w) address country timeout)
      as [data0 | msg | response msg | msg | msg]; try discriminate H0.
    + apply Hstep.
    + apply Hstep.
Qed.

Lemma loop_reply (address country : string) (timeout retries : Z)
  (use_cache : bool) (attempt : nat) (rest : list nat)
  (last_error : option string) (w : World) (data0 : GeoJSON) :
  session_get (requests w) address country timeout = Responds data0 ->
  attempt_loop address country timeout retries use_cache (attempt :: rest)
    last_error w
  = (Returned (_parse_geocoding_response data0 address),
     if success (_parse_geocoding_response data0 address) && use_cache
     then _cache_result address country
            (_parse_geocoding_response data0 address)
            (snd (http_get address country timeout w))
     else snd (http_get address country timeout w)).
Proof. intros Ho. simpl. rewrite Ho. reflexivity. Qed.

Lemma retry_schedule_waits (request : Event) (retries : Z) (k : nat) :
  (Z.of_nat k <= retries)%Z ->
  retry_schedule request retries (seq 0 k)
  = flat_map (fun _ : nat => [request; EvSleep DEFAULT_RETRY_DELAY])
      (seq 0 k).
Proof.
  intros Hk.
  assert (Hall : forall a : nat, In a (seq 0 k) -> (Z.of_nat a < retries)%Z).
  { intros a Ha. apply in_seq in Ha. lia. }
  induction (seq 0 k) as [| a l IH]; [reflexivity |].
  unfold retry_schedule in *. cbn [flat_map].
  assert (Hlt : (Z.of_nat a <? retries)%Z = true).
  { apply Z.ltb_lt, Hall. left. reflexivity. }
  rewrite Hlt, IH; [reflexivity |].
  intros b Hb. apply Hall. right. exact Hb.
Qed.

Lemma range_split (r : Z) (k : nat) :
  (Z.of_nat k <= r)%Z ->
  range (r + 1) = seq 0 k ++ k :: seq (S k) (Z.to_nat r - k).
Proof.
  intros Hk. unfold range.
  replace (Z.to_nat (r + 1)) with (k + S (Z.to_nat r - k))%nat by lia.
  rewrite seq_app. reflexivity.
Qed.

(** X14.  When the first [k] exchanges of a call end in timeouts or request
    errors ([k] at most [retries]) and the next one brings a reply, the
    call returns what the reply parses to: [k + 1] requests are issued, each
    of the first [k] followed by a wait of one second, none after the last;
    with [use_cache] the cache is read once at the start and a successful
    result is stored at the end. *)
Theorem geocode_address_recovers_after_transient_failures
  (address country : string) (timeout retries : option Z) (use_cache : bool)
  (w : World) (k : nat) (data0 : GeoJSON) :
  let a := strip address in
  let t := or_default timeout DEFAULT_TIMEOUT in
  let r := or_default retries DEFAULT_RETRIES in
  let key := _get_cache_key a country in
  let out := geocode_address address country timeout retries use_cache w in
  truthy (strip address) = true ->
  (use_cache = true -> cache w !! key = None) ->
  (Z.of_nat k <= r)%Z ->
  (forall j : nat, (j < k)%nat ->
     transient (session_get (requests w + j) a country t) = true) ->
  session_get (requests w + k) a country t = Responds data0 ->
  fst out = _parse_geocoding_response data0 a
  /\ requests (snd out) = (requests w + k + 1)%nat
  /\ events_since w (snd out)
     = (if use_cache then [EvCacheGet key] else [])
       ++ flat_map
            (fun _ : nat =>
               [EvRequest a country t; EvSleep DEFAULT_RETRY_DELAY])
            (seq 0 k)
       ++ [EvRequest a country t]
       ++ (if success (fst out) && use_cache
           then [EvCacheSet key CACHE_TIMEOUT] else [])
  /\ (success (fst out) && use_cache = true ->
      cache (snd out) !! key = Some (fst out)).
Proof.
  cbv zeta. intros Hnb Hmiss Hk Hall Hreply.
  rewrite GeocodingFacts.geocode_address_run by exact Hnb. cbv zeta.
  set (a := strip address) in *.
  set (t := or_default timeout DEFAULT_TIMEOUT) in *.
  set (r := or_default retries DEFAULT_RETRIES) in *.
  set (key := _get_cache_key a country) in *.
  rewrite (range_split r k Hk).
  assert (Hloop : forall w0 : World,
            requests w0 = requests w -> cache w0 = cache w ->
            let out :=
              attempt_loop a country t r use_cache
                (seq 0 k ++ k :: seq (S k) (Z.to_nat r - k)) None w0 in
            fst out = Returned (_parse_geocoding_response data0 a)
            /\ requests (snd out) = (requests w + k + 1)%nat
            /\ trace (snd out)
               = trace w0
                 ++ flat_map
                      (fun _ : nat =>
                         [EvRequest a country t; EvSleep DEFAULT_RETRY_DELAY])
                      (seq 0 k)
                 ++ [EvRequest a country t]
                 ++ (if success (_parse_geocoding_response data0 a)
                        && use_cache
                     then [EvCacheSet key CACHE_TIMEOUT] else [])
            /\ (success (_parse_geocoding_response data0 a) && use_cache
                = true ->
                cache (snd out) !! key
                = Some (_parse_geocoding_response data0 a))).
  { intros w0 Hr0 Hc0. cbv zeta.
    destruct (loop_skips_transients a country t r use_cache (seq 0 k)
                (k :: seq (S k) (Z.to_nat r - k)) None w0)
      as (e' & w' & Heq & Hc & Hr & Ht).
    { rewrite length_seq, Hr0. exact Hall. }
    rewrite length_seq in Hr. rewrite Heq.
    rewrite (loop_reply a country t r use_cache k _ e' w' data0)
      by (rewrite Hr, Hr0; exact Hreply).
    cbn [fst snd].
    rewrite (retry_schedule_waits _ r k Hk) in Ht.
    split; [reflexivity |].
    destruct (success (_parse_geocoding_response data0 a) && use_cache).
    - unfold _cache_result, http_get.
      cbn [snd emit cache requests trace].
      fold key. rewrite Hr, Hr0, Ht, <- !app_assoc.
      split; [lia |]. split; [reflexivity |].
      intros _. apply lookup_insert_eq.
    - unfold http_get. cbn [snd requests trace].
      rewrite Hr, Hr0, Ht, <- !app_assoc.
      split; [lia |]. split; [reflexivity |]. intros Hf. discriminate Hf. }
  destruct use_cache.
  - unfold _get_cached_result. fold key. rewrite (Hmiss eq_refl).
    destruct (Hloop (emit (EvCacheGet key) w) eq_refl eq_refl)
      as (Hf & Hr & Ht & Hc).
    destruct (attempt_loop a country t r true
                (seq 0 k ++ k :: seq (S k) (Z.to_nat r - k)) None
                (emit (EvCacheGet key) w)) as [ex w1].
    cbn [fst snd] in *. subst ex. cbn [fst snd].
    split; [reflexivity |]. split; [exact Hr |].
    split; [| exact Hc].
    unfold events_since. rewrite Ht. cbn [emit trace].
    rewrite <- app_assoc, drop_app_length. reflexivity.
  - destruct (Hloop w eq_refl eq_refl) as (Hf & Hr & Ht & Hc).
    destruct (attempt_loop a country t r false
                (seq 0 k ++ k :: seq (S k) (Z.to_nat r - k)) None w)
      as [ex w1].
    cbn [fst snd] in *. subst ex. cbn [fst snd].
    split; [reflexivity |]. split; [exact Hr |].
    split; [| exact Hc].
    unfold events_since. rewrite Ht, drop_app_length. reflexivity.
Qed.

End recovery.

Lemma geocode_address_recovers_after_transient_failures_witness :
  events_since empty_world
    (snd (@geocode_address
            (scripted (fun n => match n with
                                | O => RaisesTimeout "Request timed out"
                                | S _ => new_york_reply
                                end))
            "123 Main St" "US" None None true empty_world))
  = [EvCacheGet "geocoding:123 main st:us";
     EvRequest "123 Main St" "US" 10; EvSleep 1;
     EvRequest "123 Main St" "US" 10;
     EvCacheSet "geocoding:123 main st:us" (86400 * 7)].
Proof.
  destruct (@geocode_address_recovers_after_transient_failures
              (scripted (fun n => match n with
                                  | O => RaisesTimeout "Request timed out"
                                  | S _ => new_york_reply
                                  end))
              "123 Main St" "US" None None true empty_world 1%nat
              [mkFeature [(-740060 # 10000)%Q; (407128 # 10000)%Q]
                 (mkProperties (Some (9 # 10)%Q) (Some "address")
                    (Some "123 Main St, New York, NY, USA"))])
    as (_ & _ & Hev & _).
  - reflexivity.
  - intros _. reflexivity.
  - vm_compute. discriminate.
  - intros j Hj. destruct j; [reflexivity | lia].
  - reflexivity.
  - rewrite Hev. vm_compute. reflexivity.
Defined.

End RecoveryFacts.
